(** * Xylon logiCLK programmable clock generator: parameter synthesis

    A shallow embedding of [drivers/clk/clk-logiclk.c]: the fixed-point
    helpers, the divide/phase count encoders, the characterization
    tables, the two frequency searches, the register packer and the
    recalc/round/set operations with their one-level parameter stack.

    Machine integers are [Z] with the wrap-around written out; signed
    shifts wrap, as the kernel is built.  The width of [long] is a
    variable of the section that holds the definitions and their
    properties, which so hold for every target; the last part states
    them at concrete devices, with a [long] of 32 bits.  An execution
    that C leaves undefined (division by zero, an array index outside
    its array) is [None] in the [option] monad. *)

From Stdlib Require Import ZArith Lia Bool.
From stdpp Require Import base option list numbers sorting.

Local Open Scope Z_scope.

(** ** Machine integers *)

Definition wrap32 (x : Z) : Z := x mod 2 ^ 32.
Definition wrap64 (x : Z) : Z := x mod 2 ^ 64.

(** Conversion of an unsigned value to the signed type of the same width. *)
Definition to_s32 (x : Z) : Z := if x <? 2 ^ 31 then x else x - 2 ^ 32.
Definition to_s64 (x : Z) : Z := if x <? 2 ^ 63 then x else x - 2 ^ 64.

(** [div_u64(dividend, divisor)]: unsigned division, undefined for a
    zero divisor. *)
Definition div_u64 (dividend divisor : Z) : option Z :=
  if divisor =? 0 then None else Some (dividend / divisor).

(** [abs64(x)]: the argument is converted to [s64], negated when
    negative, and the result is stored back into a [u64]. *)
Definition abs64 (x : Z) : Z := wrap64 (Z.abs (to_s64 (wrap64 x))).

(** ** Constants *)

Definition LOGICLK_PLL_REG_OFF : Z := 1.
Definition LOGICLK_PLL_MAN_REG_OFF : Z := 3.
Definition LOGICLK_REG_STRIDE : Z := 4.
Definition LOGICLK_MANUAL_REGS : Z := 21.
Definition LOGICLK_PLL_LOCK : Z := 1.
Definition LOGICLK_PLL_CONFIG : Z := 1.
Definition LOGICLK_PLL_CONFIG_SW : Z := 2.

Definition MMCM_INPUT_FREQ_MIN : Z := 10000000.
Definition MMCM_INPUT_FREQ_MAX : Z := 800000000.
Definition MMCM_OUTPUT_FREQ_MIN : Z := 4690000.
Definition MMCM_OUTPUT_FREQ_MAX : Z := 800000000.
Definition MMCM_VCO_FREQ_MIN : Z := 600000000.
Definition MMCM_VCO_FREQ_MAX : Z := 1600000000.
Definition MMCM_PHASE_MAX : Z := 360000.
Definition MMCM_CLKOUT_DIVIDE_MIN : Z := 1.
Definition MMCM_CLKOUT_DIVIDE_MAX : Z := 128.
Definition MMCM_CLKOUT_DUTY_MIN : Z := 100.
Definition MMCM_CLKOUT_DUTY_MAX : Z := 99900.
Definition MMCM_DIVCLK_DIVIDE_MIN : Z := 1.
Definition MMCM_DIVCLK_DIVIDE_MAX : Z := 56.
Definition MMCM_FBOUT_MULTIPLY_MIN : Z := 2.
Definition MMCM_FBOUT_MULTIPLY_MAX : Z := 64.

Definition LOGICLK_FRACTION_PRECISION : Z := 10.
Definition LOGICLK_OUTPUTS : Z := 6.
Definition PLL_LOCK_TIME_INTERVALS : nat := 50.

Definition EINVAL : Z := 22.
Definition EIO : Z := 5.

(** ** Fixed-point codec *)

(** [logiclk_get_bits(input, msb, lsb)]:
    [(u32)((input >> lsb) & ((1 << (msb - lsb + 1)) - 1))].
    Every call in the driver has a field of at most 16 bits, so the
    [int] mask [1 << width] never overflows. *)
Definition logiclk_get_bits (input msb lsb : Z) : Z :=
  wrap32 (Z.land (Z.shiftr input lsb) (Z.shiftl 1 (msb - lsb + 1) - 1)).

(** [logiclk_round_fraction(decimal, precision)]. *)
Definition logiclk_round_fraction (decimal precision : Z) : Z :=
  let prec := Z.shiftl 1 (LOGICLK_FRACTION_PRECISION - precision - 1) in
  if Z.land decimal prec =? 0 then decimal else wrap32 (decimal + prec).

(** ** Duty and phase encoders *)

(** The four locals of [logiclk_pll_div] as they stand at its [return]. *)
Record div_fields := {
  low_time : Z;
  high_time : Z;
  no_count : Z;
  edge : Z
}.

Definition logiclk_pll_div_fields (divide duty : Z) : div_fields :=
  let duty_fix := wrap32 (Z.shiftl duty LOGICLK_FRACTION_PRECISION) / 100000 in
  if divide =? 1 then
    {| low_time := 1; high_time := 1; no_count := 1; edge := 0 |}
  else
    let temp := logiclk_round_fraction (wrap32 (duty_fix * divide)) 1 in
    let edge0 := logiclk_get_bits temp (LOGICLK_FRACTION_PRECISION - 1)
                                       (LOGICLK_FRACTION_PRECISION - 1) in
    let high0 := logiclk_get_bits temp (LOGICLK_FRACTION_PRECISION + 6)
                                       LOGICLK_FRACTION_PRECISION in
    let '(edge1, high1) := if high0 =? 0 then (0, 1) else (edge0, high0) in
    let '(edge2, high2) :=
      if high1 =? divide then (1, wrap32 (divide - 1)) else (edge1, high1) in
    {| low_time := wrap32 (divide - high2); high_time := high2;
       no_count := 0; edge := edge2 |}.

(** The [return] expression of [logiclk_pll_div]. *)
Definition pack_div_fields (f : div_fields) : Z :=
  Z.lor (Z.lor (Z.lor (Z.land (low_time f) 0x3F)
                      (Z.shiftl (Z.land (high_time f) 0x3F) 6))
               (Z.shiftl (Z.land (no_count f) 0x1) 12))
        (Z.shiftl (Z.land (edge f) 0x1) 13).

Definition logiclk_pll_div (divide duty : Z) : Z :=
  pack_div_fields (logiclk_pll_div_fields divide duty).

(** ** The target *)

Section Target.

(** The width of [long] on the target; [int] has 32 bits. *)
Variable BITS_PER_LONG : Z.

(** A value stored in an [unsigned long], and an [unsigned long] read
    as a [long]. *)
Definition wrap_ulong (x : Z) : Z := x mod 2 ^ BITS_PER_LONG.
Definition to_long (x : Z) : Z :=
  if x <? 2 ^ (BITS_PER_LONG - 1) then x else x - 2 ^ BITS_PER_LONG.

(** [logiclk_pll_phase(u32 divide, s32 phase)].  The shift of a
    non-negative phase is an [int] one and wraps at 32 bits; a negative
    phase is first added to [MMCM_PHASE_MAX], a [long], and that shift
    wraps at the width of [long] (the kernel is built with wrapping
    signed arithmetic).  Both divisions by 1000 are signed, and their
    result is stored in a [u32]. *)
Definition logiclk_pll_phase (divide phase : Z) : Z :=
  let phase_fixed :=
    if phase <? 0 then
      wrap32 (Z.quot (to_long (wrap_ulong ((phase + MMCM_PHASE_MAX)
                                           * 2 ^ LOGICLK_FRACTION_PRECISION)))
                     1000)
    else
      wrap32 (Z.quot (to_s32 (wrap32 (phase * 2 ^ LOGICLK_FRACTION_PRECISION)))
                     1000) in
  let phase_cycles := wrap32 (phase_fixed * divide) / (MMCM_PHASE_MAX / 1000) in
  let temp := logiclk_round_fraction phase_cycles 3 in
  let delay_time := logiclk_get_bits temp (LOGICLK_FRACTION_PRECISION + 5)
                                          LOGICLK_FRACTION_PRECISION in
  let phase_mux := logiclk_get_bits temp (LOGICLK_FRACTION_PRECISION - 1)
                                         (LOGICLK_FRACTION_PRECISION - 3) in
  Z.lor (Z.land delay_time 0x3F) (Z.shiftl (Z.land phase_mux 0x7) 6).

(** [logiclk_pll_count(divide, duty, phase)]. *)
Definition logiclk_pll_count (divide duty phase : Z) : Z :=
  let pll_div := logiclk_pll_div divide duty in
  let pll_phase := logiclk_pll_phase divide phase in
  Z.lor (Z.lor (Z.lor (Z.lor (logiclk_get_bits pll_div 11 0)
                             (Z.shiftl (logiclk_get_bits pll_phase 8 6) 13))
                      (Z.shiftl (logiclk_get_bits pll_phase 5 0) 16))
               (Z.shiftl (logiclk_get_bits pll_div 13 12) 22))
        (Z.shiftl (logiclk_get_bits pll_phase 10 9) 24).

(** ** Characterization tables *)

Definition lut_high : list Z := [
    0x17C; 0x3FC; 0x3F4; 0x3E4; 0x3F8; 0x3C4; 0x3C4; 0x3D8;
    0x3E8; 0x3E8; 0x3E8; 0x3B0; 0x3F0; 0x3F0; 0x3F0; 0x3F0;
    0x3F0; 0x3F0; 0x3F0; 0x3F0; 0x3B0; 0x3B0; 0x3B0; 0x3E8;
    0x370; 0x308; 0x370; 0x370; 0x3E8; 0x3E8; 0x3E8; 0x1C8;
    0x330; 0x330; 0x3A8; 0x188; 0x188; 0x188; 0x1F0; 0x188;
    0x110; 0x110; 0x110; 0x110; 0x110; 0x110; 0xE0; 0xE0;
    0xE0; 0xE0; 0xE0; 0xE0; 0xE0; 0xE0; 0xE0; 0xE0;
    0xE0; 0xE0; 0xE0; 0xE0; 0xE0; 0xE0; 0xE0; 0xE0 ].

Definition lut_low : list Z := [
    0x5F; 0x57; 0x7B; 0x5B; 0x6B; 0x73; 0x73; 0x73;
    0x73; 0x4B; 0x4B; 0x4B; 0xB3; 0x53; 0x53; 0x53;
    0x53; 0x53; 0x53; 0x53; 0x53; 0x53; 0x53; 0x63;
    0x63; 0x63; 0x63; 0x63; 0x63; 0x63; 0x63; 0x63;
    0x63; 0x63; 0x63; 0x63; 0x63; 0x93; 0x93; 0x93;
    0x93; 0x93; 0x93; 0x93; 0x93; 0x93; 0x93; 0xA3;
    0xA3; 0xA3; 0xA3; 0xA3; 0xA3; 0xA3; 0xA3; 0xA3;
    0xA3; 0xA3; 0xA3; 0xA3; 0xA3; 0xA3; 0xA3; 0xA3 ].

Definition lut_lock : list Z := [
    0x31BE8FA401; 0x31BE8FA401; 0x423E8FA401; 0x5AFE8FA401;
    0x73BE8FA401; 0x8C7E8FA401; 0x9CFE8FA401; 0xB5BE8FA401;
    0xCE7E8FA401; 0xE73E8FA401; 0xFFF84FA401; 0xFFF39FA401;
    0xFFEEEFA401; 0xFFEBCFA401; 0xFFE8AFA401; 0xFFE71FA401;
    0xFFE3FFA401; 0xFFE26FA401; 0xFFE0DFA401; 0xFFDF4FA401;
    0xFFDDBFA401; 0xFFDC2FA401; 0xFFDA9FA401; 0xFFD90FA401;
    0xFFD90FA401; 0xFFD77FA401; 0xFFD5EFA401; 0xFFD5EFA401;
    0xFFD45FA401; 0xFFD45FA401; 0xFFD2CFA401; 0xFFD2CFA401;
    0xFFD2CFA401; 0xFFD13FA401; 0xFFD13FA401; 0xFFD13FA401;
    0xFFCFAFA401; 0xFFCFAFA401; 0xFFCFAFA401; 0xFFCFAFA401;
    0xFFCFAFA401; 0xFFCFAFA401; 0xFFCFAFA401; 0xFFCFAFA401;
    0xFFCFAFA401; 0xFFCFAFA401; 0xFFCFAFA401; 0xFFCFAFA401;
    0xFFCFAFA401; 0xFFCFAFA401; 0xFFCFAFA401; 0xFFCFAFA401;
    0xFFCFAFA401; 0xFFCFAFA401; 0xFFCFAFA401; 0xFFCFAFA401;
    0xFFCFAFA401; 0xFFCFAFA401; 0xFFCFAFA401; 0xFFCFAFA401;
    0xFFCFAFA401; 0xFFCFAFA401; 0xFFCFAFA401; 0xFFCFAFA401 ].

(** [logiclk_pll_lut_filter(divide, bw_high)] reads [lut[divide - 1]];
    the subtraction is a [u32] one. *)
Definition logiclk_pll_lut_filter (divide : Z) (bw : bool) : option Z :=
  if bw then lut_high !! Z.to_nat (wrap32 (divide - 1))
  else lut_low !! Z.to_nat (wrap32 (divide - 1)).

(** [logiclk_pll_lut_lock(divide)] reads [lut[divide - 1]]. *)
Definition logiclk_pll_lut_lock (divide : Z) : option Z :=
  lut_lock !! Z.to_nat (wrap32 (divide - 1)).

(** ** Device state *)

(** [struct logiclk_input]. *)
Record logiclk_input := {
  clk_freq : Z;
  clkfbout_mult : Z;
  clkfbout_phase : Z;
  divclk_divide : Z;
  bw_high : bool
}.

(** [struct logiclk_output]; the [hw], [dn] and [data] pointers are never
    written after probe and are left out. *)
Record logiclk_output := {
  clkout_freq : Z;
  clkout_divide : Z;
  clkout_duty : Z;
  clkout_phase : Z;
  id : Z;
  precise : bool
}.

(** [struct logiclk_data] without [pdev] and [base]. *)
Record logiclk_data := {
  input : logiclk_input;
  output : list logiclk_output;
  output_stack : logiclk_output;
  man_regs : list Z;
  man_regs_stack : list Z
}.

Definition set_clkfbout_mult (v : Z) (a : logiclk_input) : logiclk_input :=
  {| clk_freq := clk_freq a; clkfbout_mult := v;
     clkfbout_phase := clkfbout_phase a; divclk_divide := divclk_divide a;
     bw_high := bw_high a |}.

Definition set_divclk_divide (v : Z) (a : logiclk_input) : logiclk_input :=
  {| clk_freq := clk_freq a; clkfbout_mult := clkfbout_mult a;
     clkfbout_phase := clkfbout_phase a; divclk_divide := v;
     bw_high := bw_high a |}.

Definition set_clkout_freq (v : Z) (o : logiclk_output) : logiclk_output :=
  {| clkout_freq := v; clkout_divide := clkout_divide o;
     clkout_duty := clkout_duty o; clkout_phase := clkout_phase o;
     id := id o; precise := precise o |}.

Definition set_clkout_divide (v : Z) (o : logiclk_output) : logiclk_output :=
  {| clkout_freq := clkout_freq o; clkout_divide := v;
     clkout_duty := clkout_duty o; clkout_phase := clkout_phase o;
     id := id o; precise := precise o |}.

Definition set_input (v : logiclk_input) (d : logiclk_data) : logiclk_data :=
  {| input := v; output := output d; output_stack := output_stack d;
     man_regs := man_regs d; man_regs_stack := man_regs_stack d |}.

Definition set_output (v : list logiclk_output) (d : logiclk_data) : logiclk_data :=
  {| input := input d; output := v; output_stack := output_stack d;
     man_regs := man_regs d; man_regs_stack := man_regs_stack d |}.

Definition set_man_regs (v : list Z) (d : logiclk_data) : logiclk_data :=
  {| input := input d; output := output d; output_stack := output_stack d;
     man_regs := v; man_regs_stack := man_regs_stack d |}.

(** A store to [arr[idx]]: undefined outside the array. *)
Definition store (A : Type) (arr : list A) (idx : nat) (v : A) : option (list A) :=
  if decide (idx < length arr)%nat then Some (<[idx := v]> arr) else None.
Arguments store {A} arr idx v.

(** [logiclk_stack_params(output, flag)]; [i] is the element of
    [data->output] that [output] points to. *)
Definition LOGICLK_STACK_PUSH : bool := true.
Definition LOGICLK_STACK_POP : bool := false.

Definition logiclk_stack_params (d : logiclk_data) (i : nat) (flag : bool)
  : option logiclk_data :=
  if flag then
    o ← output d !! i;
    Some {| input := input d; output := output d; output_stack := o;
            man_regs := man_regs d; man_regs_stack := man_regs d |}
  else
    outs ← store (output d) i (output_stack d);
    Some {| input := input d; output := outs; output_stack := output_stack d;
            man_regs := man_regs_stack d; man_regs_stack := man_regs_stack d |}.

(** [logiclk_calc_freq(output)]. *)
Definition logiclk_calc_freq (d : logiclk_data) (i : nat) : option Z :=
  o ← output d !! i;
  let clk_freq_mult := wrap64 (clk_freq (input d) * clkfbout_mult (input d)) in
  let clk_freq_div := wrap32 (divclk_divide (input d) * clkout_divide o) in
  q ← div_u64 clk_freq_mult clk_freq_div;
  Some (wrap32 q).

(** ** Loops *)

(** What one iteration of a loop body does: fall through to the next
    iteration, [return] from the enclosing function, or fault. *)
Inductive ctl (St R : Type) : Type :=
  | Next (s : St)
  | Return (r : R)
  | Fault.
Arguments Next {St R} s.
Arguments Return {St R} r.
Arguments Fault {St R}.

(** [n] iterations of [for (...; i++) body], starting at [i]. *)
Fixpoint for_loop {St R : Type} (n : nat) (i : Z)
    (body : Z → St → ctl St R) (s : St) : ctl St R :=
  match n with
  | O => Next s
  | S n' =>
      match body i s with
      | Next s' => for_loop n' (i + 1) body s'
      | Return r => Return r
      | Fault => Fault
      end
  end.

(** [for (i = lo; i <= hi; i++) body]. *)
Definition for_range {St R : Type} (lo hi : Z)
    (body : Z → St → ctl St R) (s : St) : ctl St R :=
  for_loop (Z.to_nat (hi + 1 - lo)) lo body s.

(** ** Frequency search *)

Definition U64_MAX : Z := 2 ^ 64 - 1.

(** The body of the innermost loop of [logiclk_pll_input_mult_div].  The
    loop state is the input stage and [freq_err]; a [return 0] carries
    the input stage out with it. *)
Definition input_mult_div_body (clk_freq_input freq_out : Z)
    (divclk_divide clkfbout_mult clkout_divide : Z)
    (s : logiclk_input * Z) : ctl (logiclk_input * Z) (logiclk_input * Z) :=
  let '(inp, freq_err) := s in
  let clk_freq := wrap64 (clk_freq_input * clkfbout_mult) in
  match div_u64 clk_freq divclk_divide with
  | None => Fault
  | Some clk_freq =>
      if (clk_freq <? MMCM_VCO_FREQ_MIN) || (MMCM_VCO_FREQ_MAX <? clk_freq)
      then Next s
      else
        match div_u64 clk_freq clkout_divide with
        | None => Fault
        | Some clk_freq =>
            let freq_err_new := abs64 (clk_freq - freq_out) in
            if freq_err_new <? freq_err then
              let inp' := set_divclk_divide divclk_divide
                            (set_clkfbout_mult (wrap32 clkfbout_mult) inp) in
              if freq_err_new =? 0 then Return (inp', 0)
              else Next (inp', freq_err_new)
            else Next s
        end
  end.

Definition input_mult_div_loops (clk_freq_input freq_out : Z)
    (s : logiclk_input * Z) : ctl (logiclk_input * Z) (logiclk_input * Z) :=
  for_range MMCM_DIVCLK_DIVIDE_MIN MMCM_DIVCLK_DIVIDE_MAX
    (λ divclk_divide,
      for_range MMCM_FBOUT_MULTIPLY_MIN MMCM_FBOUT_MULTIPLY_MAX
        (λ clkfbout_mult,
          for_range MMCM_CLKOUT_DIVIDE_MIN MMCM_CLKOUT_DIVIDE_MAX
            (input_mult_div_body clk_freq_input freq_out
               divclk_divide clkfbout_mult))) s.

(** [logiclk_pll_input_mult_div(output)]: the return code and the
    device state it leaves. *)
Definition logiclk_pll_input_mult_div (d : logiclk_data) (i : nat)
  : option (Z * logiclk_data) :=
  o ← output d !! i;
  let clk_freq_input := clk_freq (input d) in
  let freq_out := clkout_freq o in
  let inp0 := set_divclk_divide 0 (set_clkfbout_mult 0 (input d)) in
  match input_mult_div_loops clk_freq_input freq_out (inp0, U64_MAX) with
  | Fault => None
  | Return (inp, ret) => Some (ret, set_input inp d)
  | Next (inp, _) =>
      if (clkfbout_mult inp =? 0) || (divclk_divide inp =? 0)
      then Some (- EINVAL, set_input inp d)
      else Some (0, set_input inp d)
  end.

(** The loop body of [logiclk_pll_output_div]; the state is
    [clkout_div] and [freq_err]. *)
Definition output_div_body (freq_mult_div freq_out clkout_divide : Z)
    (s : Z * Z) : ctl (Z * Z) Z :=
  let '(clkout_div, freq_err) := s in
  match div_u64 freq_mult_div clkout_divide with
  | None => Fault
  | Some freq =>
      let freq_err_new := abs64 (freq - freq_out) in
      if freq_err_new <? freq_err then
        if freq_err_new =? 0 then Return clkout_divide
        else Next (clkout_divide, freq_err_new)
      else Next s
  end.

(** [logiclk_pll_output_div(output)]. *)
Definition logiclk_pll_output_div (d : logiclk_data) (i : nat) : option Z :=
  o ← output d !! i;
  let clk_freq_mult := wrap64 (clk_freq (input d) * clkfbout_mult (input d)) in
  freq_mult_div ← div_u64 clk_freq_mult (divclk_divide (input d));
  match for_range MMCM_CLKOUT_DIVIDE_MIN MMCM_CLKOUT_DIVIDE_MAX
          (output_div_body freq_mult_div (clkout_freq o)) (0, U64_MAX) with
  | Fault => None
  | Return r => Some r
  | Next (clkout_div, _) => Some clkout_div
  end.

(** ** Register packer *)

(** [logiclk_man_reg_params_id(input, output, id)]; [input] is always
    [&data->input] and [output] is [&data->output[i]]. *)
Definition logiclk_man_reg_params_id (d : logiclk_data) (i : nat) (id_ : Z)
  : option logiclk_data :=
  o ← output d !! i;
  let inp := input d in
  let clk_freq_mult := wrap64 (clk_freq inp * clkfbout_mult inp) in
  clk_freq_mult_div ← div_u64 clk_freq_mult (divclk_divide inp);
  clkout_div ← logiclk_pll_output_div d i;
  let o1 := set_clkout_divide clkout_div o in
  let clkout := logiclk_pll_count (clkout_divide o1) (clkout_duty o1)
                                  (to_s32 (clkout_phase o1)) in
  regs1 ← store (man_regs d)
            (Z.to_nat (wrap32 (LOGICLK_PLL_REG_OFF + id_ * 2)))
            (logiclk_get_bits clkout 15 0);
  regs2 ← store regs1
            (Z.to_nat (wrap32 ((LOGICLK_PLL_REG_OFF + 1) + id_ * 2)))
            (logiclk_get_bits clkout 31 16);
  freq ← div_u64 clk_freq_mult_div (clkout_divide o1);
  let o2 := set_clkout_freq (wrap32 freq) o1 in
  Some (set_man_regs regs2 (set_output (<[i := o2]> (output d)) d)).

(** The values that [logiclk_man_reg_params] writes to registers 16..18
    from the lock word and to registers 19..20 from the filter word. *)
Definition lock_regs (lock : Z) : Z * Z * Z :=
  (logiclk_get_bits lock 29 20,
   Z.lor (Z.shiftl (logiclk_get_bits lock 34 30) 10) (logiclk_get_bits lock 9 0),
   Z.lor (Z.shiftl (logiclk_get_bits lock 39 35) 10) (logiclk_get_bits lock 19 10)).

Definition filter_regs (filter : Z) : Z * Z :=
  (Z.lor (Z.lor (Z.shiftl (logiclk_get_bits filter 6 6) 8)
                (Z.shiftl (logiclk_get_bits filter 8 7) 11))
         (Z.shiftl (logiclk_get_bits filter 9 9) 15),
   Z.lor (Z.lor (Z.lor (Z.shiftl (logiclk_get_bits filter 0 0) 4)
                       (Z.shiftl (logiclk_get_bits filter 2 1) 7))
                (Z.shiftl (logiclk_get_bits filter 4 3) 11))
         (Z.shiftl (logiclk_get_bits filter 5 5) 15)).

(** [logiclk_man_reg_params(input, output)]. *)
Definition logiclk_man_reg_params (d : logiclk_data) (i : nat)
  : option logiclk_data :=
  o ← output d !! i;
  let inp := input d in
  let clkfbout := logiclk_pll_count (clkfbout_mult inp) (clkout_duty o)
                                    (to_s32 (clkfbout_phase inp)) in
  let divclk := logiclk_pll_count (divclk_divide inp) (clkout_duty o)
                                  (to_s32 (clkout_phase o)) in
  filter ← logiclk_pll_lut_filter (wrap32 (clkfbout_mult inp - 1)) (bw_high inp);
  lock ← logiclk_pll_lut_lock (wrap32 (clkfbout_mult inp - 1));
  let '(r16, r17, r18) := lock_regs lock in
  let '(r19, r20) := filter_regs filter in
  r ← store (man_regs d) 0 0xFFFF;
  r ← store r 13 (Z.lor (Z.shiftl (logiclk_get_bits divclk 23 22) 12)
                        (Z.shiftl (logiclk_get_bits divclk 11 0) 0));
  r ← store r 14 (logiclk_get_bits clkfbout 15 0);
  r ← store r 15 (logiclk_get_bits clkfbout 31 16);
  r ← store r 16 r16;
  r ← store r 17 r17;
  r ← store r 18 r18;
  r ← store r 19 r19;
  r ← store r 20 r20;
  Some (set_man_regs r d).

(** The loop of [logiclk_calc_params] over all outputs:
    [n] iterations starting at output [j]. *)
Fixpoint recalc_outputs (n j : nat) (d : logiclk_data) : option logiclk_data :=
  match n with
  | O => Some d
  | S n' =>
      o ← output d !! j;
      d' ← logiclk_man_reg_params_id d j (id o);
      recalc_outputs n' (S j) d'
  end.

(** [logiclk_calc_params(output)]. *)
Definition logiclk_calc_params (d : logiclk_data) (i : nat)
  : option (Z * logiclk_data) :=
  o ← output d !! i;
  if (clkout_freq o <? MMCM_OUTPUT_FREQ_MIN)
     || (MMCM_OUTPUT_FREQ_MAX <? clkout_freq o)
  then Some (- EINVAL, d)
  else if precise o then
    '(ret, d1) ← logiclk_pll_input_mult_div d i;
    if negb (ret =? 0) then Some (ret, d1)
    else
      d2 ← logiclk_man_reg_params d1 i;
      d3 ← recalc_outputs (Z.to_nat LOGICLK_OUTPUTS) 0 d2;
      Some (0, d3)
  else
    d1 ← logiclk_man_reg_params_id d i (id o);
    Some (0, d1).

(** ** Hardware configuration *)

(** The polling loop of [logiclk_hw_config]: [rd k] is what the [k]-th
    read of the PLL register returns, [cnt] the retries left.  The
    result is the return code and the register writes performed, as
    pairs of byte offset and value. *)
Fixpoint poll_lock (rd : nat → Z) (cfg : Z) (cnt k : nat) : Z * list (Z * Z) :=
  if negb (Z.land (rd k) LOGICLK_PLL_LOCK =? 0)
  then (0, [(LOGICLK_PLL_REG_OFF * LOGICLK_REG_STRIDE, cfg)])
  else match cnt with
       | O => (- EIO, [])
       | S cnt' => poll_lock rd cfg cnt' (S k)
       end.

Definition man_reg_writes (regs : list Z) : list (Z * Z) :=
  imap (λ i v, ((Z.of_nat i + LOGICLK_PLL_MAN_REG_OFF) * LOGICLK_REG_STRIDE, v))
       (take (Z.to_nat LOGICLK_MANUAL_REGS) regs).

(** [logiclk_hw_config(output, config)]; the device state is only read. *)
Definition logiclk_hw_config (rd : nat → Z) (d : logiclk_data) (config : bool)
  : Z * list (Z * Z) :=
  let w := if config then man_reg_writes (man_regs d) else [] in
  let cfg := if config then Z.lor LOGICLK_PLL_CONFIG LOGICLK_PLL_CONFIG_SW
             else LOGICLK_PLL_CONFIG in
  let '(ret, w') := poll_lock rd cfg PLL_LOCK_TIME_INTERVALS 0 in
  (ret, w ++ w').

(** ** Clock operations *)

(** [logiclk_recalc_rate(hw, parent_rate)]; [hw] is that of output [i]. *)
Definition logiclk_recalc_rate (d : logiclk_data) (i : nat) (parent_rate : Z)
  : option (Z * logiclk_data) :=
  o ← output d !! i;
  let inp := input d in
  let clk_freq_mult := wrap64 (clk_freq inp * clkfbout_mult inp) in
  d1 ← (if clkout_freq o =? 0 then
          q ← div_u64 clk_freq_mult (divclk_divide inp);
          let rate := wrap_ulong q in
          freq ← div_u64 rate (clkout_divide o);
          Some (set_output (<[i := set_clkout_freq (wrap32 freq) o]> (output d)) d)
        else Some d);
  d2 ← logiclk_man_reg_params d1 i;
  d3 ← logiclk_man_reg_params_id d2 i (id o);
  o3 ← output d3 !! i;
  Some (clkout_freq o3, d3).

(** [logiclk_round_rate(hw, rate, parent_rate)]. *)
Definition logiclk_round_rate (d : logiclk_data) (i : nat) (rate : Z)
  : option (Z * logiclk_data) :=
  d1 ← logiclk_stack_params d i LOGICLK_STACK_PUSH;
  o ← output d1 !! i;
  let d2 := set_output (<[i := set_clkout_freq (wrap32 rate) o]> (output d1)) d1 in
  '(ret, d3) ← logiclk_calc_params d2 i;
  if negb (ret =? 0) then
    d4 ← logiclk_stack_params d3 i LOGICLK_STACK_POP;
    Some (- EINVAL, d4)
  else
    o3 ← output d3 !! i;
    Some (to_long (clkout_freq o3), d3).

(** [logiclk_set_rate(hw, rate, parent_rate)]: the return code, the
    device state and the register writes. *)
Definition logiclk_set_rate (rd : nat → Z) (d : logiclk_data) (i : nat) (rate : Z)
  : option (Z * logiclk_data * list (Z * Z)) :=
  o ← output d !! i;
  if negb (rate =? clkout_freq o) then
    d1 ← logiclk_stack_params d i LOGICLK_STACK_PUSH;
    let d2 := set_output (<[i := set_clkout_freq (wrap32 rate) o]> (output d1)) d1 in
    '(ret, d3) ← logiclk_calc_params d2 i;
    if negb (ret =? 0) then
      d4 ← logiclk_stack_params d3 i LOGICLK_STACK_POP;
      Some (- EINVAL, d4, [])
    else
      let '(r, w) := logiclk_hw_config rd d3 true in
      Some (r, d3, w)
  else
    let '(r, w) := logiclk_hw_config rd d true in
    Some (r, d, w).

(** ** Configuration load *)

(** What [of_property_read_u32] hands back: its return code and, when
    that is 0, the value it stores through the [u32] pointer. *)
Record of_read := {
  of_ret : Z;
  of_val : Z
}.

(** The destination of [of_property_read_u32] after the call: written
    on success only. *)
Definition read_u32 (r : of_read) (old : Z) : Z :=
  if of_ret r =? 0 then wrap32 (of_val r) else old.

(** A child node: its identity and the results of reading its
    properties. *)
Record of_child := {
  of_handle : nat;
  of_frequency : of_read;
  of_divide : of_read;
  of_duty : of_read;
  of_phase : of_read
}.

(** The device node: the results of reading its properties, whether
    "bandwidth-high" is present, the node "precise-output" refers to
    ([None] for a null pointer) and its children in order. *)
Record of_node := {
  of_input_frequency : of_read;
  of_input_divide : of_read;
  of_input_multiply : of_read;
  of_input_phase : of_read;
  of_bandwidth_high : bool;
  of_precise_output : option nat;
  of_children : list of_child
}.

Definition set_clk_freq (v : Z) (a : logiclk_input) : logiclk_input :=
  {| clk_freq := v; clkfbout_mult := clkfbout_mult a;
     clkfbout_phase := clkfbout_phase a; divclk_divide := divclk_divide a;
     bw_high := bw_high a |}.

Definition set_clkfbout_phase (v : Z) (a : logiclk_input) : logiclk_input :=
  {| clk_freq := clk_freq a; clkfbout_mult := clkfbout_mult a;
     clkfbout_phase := v; divclk_divide := divclk_divide a;
     bw_high := bw_high a |}.

Definition set_bw_high (v : bool) (a : logiclk_input) : logiclk_input :=
  {| clk_freq := clk_freq a; clkfbout_mult := clkfbout_mult a;
     clkfbout_phase := clkfbout_phase a; divclk_divide := divclk_divide a;
     bw_high := v |}.

Definition set_clkout_duty (v : Z) (o : logiclk_output) : logiclk_output :=
  {| clkout_freq := clkout_freq o; clkout_divide := clkout_divide o;
     clkout_duty := v; clkout_phase := clkout_phase o;
     id := id o; precise := precise o |}.

Definition set_clkout_phase (v : Z) (o : logiclk_output) : logiclk_output :=
  {| clkout_freq := clkout_freq o; clkout_divide := clkout_divide o;
     clkout_duty := clkout_duty o; clkout_phase := v;
     id := id o; precise := precise o |}.

(** One iteration of the loop of [logiclk_get_of_config] over the
    children: output [i], filled from child [c], and the [*set_freq]
    flag.  A [goto clk_node_err] leaves the iteration with the output as
    filled so far; the loop then goes on with the next child. *)
Definition config_output (precise_dn : nat) (c : of_child) (i : nat)
    (o : logiclk_output) (set_freq : bool) : logiclk_output * bool :=
  let o1 := {| clkout_freq := clkout_freq o; clkout_divide := clkout_divide o;
               clkout_duty := clkout_duty o; clkout_phase := clkout_phase o;
               id := Z.of_nat i mod 2 ^ 8;
               precise := if decide (of_handle c = precise_dn) then true
                          else precise o |} in
  let freq := read_u32 (of_frequency c) (clkout_freq o1) in
  let freq := if negb (freq =? 0)
                 && ((freq <? MMCM_OUTPUT_FREQ_MIN)
                     || (MMCM_OUTPUT_FREQ_MAX <? freq))
              then 0 else freq in
  let o2 := set_clkout_freq freq o1 in
  let set_freq := if negb (freq =? 0) then true else set_freq in
  let o3 := set_clkout_divide (read_u32 (of_divide c) (clkout_divide o2)) o2 in
  if negb (of_ret (of_divide c) =? 0) then (o3, set_freq)
  else if (clkout_divide o3 <? MMCM_CLKOUT_DIVIDE_MIN)
          || (MMCM_CLKOUT_DIVIDE_MAX <? clkout_divide o3)
  then (o3, set_freq)
  else
    let o4 := set_clkout_duty (read_u32 (of_duty c) (clkout_duty o3)) o3 in
    if negb (of_ret (of_duty c) =? 0) then (o4, set_freq)
    else if (clkout_duty o4 <? MMCM_CLKOUT_DUTY_MIN)
            || (MMCM_CLKOUT_DUTY_MAX <? clkout_duty o4)
    then (o4, set_freq)
    else
      (* a failed read or a phase out of range is only logged *)
      let o5 := set_clkout_phase (read_u32 (of_phase c) (clkout_phase o4)) o4 in
      (o5, set_freq).

(** The loop over the children, from output [i] on. *)
Fixpoint config_children (precise_dn : nat) (cs : list of_child) (i : nat)
    (d : logiclk_data) (set_freq : bool) : option (logiclk_data * bool) :=
  match cs with
  | [] => Some (d, set_freq)
  | c :: cs' =>
      o ← output d !! i;
      let '(o', set_freq') := config_output precise_dn c i o set_freq in
      config_children precise_dn cs' (S i)
        (set_output (<[i := o']> (output d)) d) set_freq'
  end.

(** [logiclk_get_of_config(dn, data, set_freq)]: the return code, the
    device data and [*set_freq] at the return. *)
Definition logiclk_get_of_config (dn : of_node) (d : logiclk_data)
    (set_freq : bool) : option (Z * logiclk_data * bool) :=
  if negb (length (of_children dn) =? Z.to_nat LOGICLK_OUTPUTS)%nat
  then Some (- EINVAL, d, set_freq)
  else
    let r := of_input_frequency dn in
    let inp := set_clk_freq (read_u32 r (clk_freq (input d))) (input d) in
    if negb (of_ret r =? 0) then Some (of_ret r, set_input inp d, set_freq)
    else if (clk_freq inp <? MMCM_INPUT_FREQ_MIN)
            || (MMCM_INPUT_FREQ_MAX <? clk_freq inp)
    then Some (- EINVAL, set_input inp d, set_freq)
    else
    let r := of_input_divide dn in
    let inp := set_divclk_divide (read_u32 r (divclk_divide inp)) inp in
    if negb (of_ret r =? 0) then Some (of_ret r, set_input inp d, set_freq)
    else if (divclk_divide inp <? MMCM_DIVCLK_DIVIDE_MIN)
            || (MMCM_DIVCLK_DIVIDE_MAX <? divclk_divide inp)
    then Some (- EINVAL, set_input inp d, set_freq)
    else
    let r := of_input_multiply dn in
    let inp := set_clkfbout_mult (read_u32 r (clkfbout_mult inp)) inp in
    if negb (of_ret r =? 0) then Some (of_ret r, set_input inp d, set_freq)
    else if (clkfbout_mult inp <? MMCM_FBOUT_MULTIPLY_MIN)
            || (MMCM_FBOUT_MULTIPLY_MAX <? clkfbout_mult inp)
    then Some (- EINVAL, set_input inp d, set_freq)
    else
    let r := of_input_phase dn in
    let inp := set_clkfbout_phase (read_u32 r (clkfbout_phase inp)) inp in
    if negb (of_ret r =? 0) then Some (of_ret r, set_input inp d, set_freq)
    else if (to_s32 (clkfbout_phase inp) <? - MMCM_PHASE_MAX)
            || (MMCM_PHASE_MAX <? clkfbout_phase inp)
    then Some (- EINVAL, set_input inp d, set_freq)
    else
    let inp := if of_bandwidth_high dn then set_bw_high true inp else inp in
    match of_precise_output dn with
    | None => Some (- EINVAL, set_input inp d, set_freq)
    | Some precise_dn =>
        '(d', set_freq') ← config_children precise_dn (of_children dn) 0
                             (set_input inp d) set_freq;
        Some (0, d', set_freq')
    end.

(** ** Specification vocabulary *)

(** The interleave of [logiclk_pll_count] on arbitrary packed words. *)
Definition count_word (pll_div pll_phase : Z) : Z :=
  Z.lor (Z.lor (Z.lor (Z.lor (logiclk_get_bits pll_div 11 0)
                             (Z.shiftl (logiclk_get_bits pll_phase 8 6) 13))
                      (Z.shiftl (logiclk_get_bits pll_phase 5 0) 16))
               (Z.shiftl (logiclk_get_bits pll_div 13 12) 22))
        (Z.shiftl (logiclk_get_bits pll_phase 10 9) 24).

(** A loop body run over the elements of a list, in order. *)
Fixpoint run_list {A St R : Type} (body : A → St → ctl St R)
    (l : list A) (s : St) : ctl St R :=
  match l with
  | [] => Next s
  | x :: l' =>
      match body x s with
      | Next s' => run_list body l' s'
      | Return r => Return r
      | Fault => Fault
      end
  end.

(** The candidates of the full search, as (pre_divider, multiplier,
    output_divider), in the order the three nested loops visit them. *)
Definition enumeration : list (Z * Z * Z) :=
  divclk_divide ← seqZ MMCM_DIVCLK_DIVIDE_MIN 56;
  clkfbout_mult ← seqZ MMCM_FBOUT_MULTIPLY_MIN 63;
  clkout_divide ← seqZ MMCM_CLKOUT_DIVIDE_MIN 128;
  [(divclk_divide, clkfbout_mult, clkout_divide)].

Definition vco (reference pre_divider multiplier : Z) : Z :=
  reference * multiplier / pre_divider.

Definition vco_ok (reference : Z) (t : Z * Z * Z) : Prop :=
  let '(d, m, _) := t in
  MMCM_VCO_FREQ_MIN ≤ vco reference d m ≤ MMCM_VCO_FREQ_MAX.

Definition freq_error (reference target : Z) (t : Z * Z * Z) : Z :=
  let '(d, m, o) := t in Z.abs (vco reference d m / o - target).

(** [t] is the first element of [l] that attains the least error among
    the elements of [l] inside the VCO window. *)
Definition first_best (reference target : Z) (l : list (Z * Z * Z))
    (t : Z * Z * Z) : Prop :=
  ∃ l1 l2, l = l1 ++ t :: l2
    ∧ vco_ok reference t
    ∧ (∀ t', t' ∈ l1 → vco_ok reference t' →
         freq_error reference target t < freq_error reference target t')
    ∧ (∀ t', t' ∈ l2 → vco_ok reference t' →
         freq_error reference target t ≤ freq_error reference target t').

(** The input stage with its multiplier and pre-divider replaced. *)
Definition with_mult_div (a : logiclk_input) (m d : Z) : logiclk_input :=
  set_divclk_divide d (set_clkfbout_mult m a).

(** [t'] is visited before [t] by the three nested loops: the
    pre-divider is the outer loop variable, the multiplier the middle
    one and the output divider the inner one. *)
Definition visited_before (t' t : Z * Z * Z) : Prop :=
  let '(d', m', o') := t' in
  let '(d, m, o) := t in
  d' < d ∨ (d' = d ∧ (m' < m ∨ (m' = m ∧ o' < o))).

(** What the state of the full search records after the candidates
    [pre], for the input stage [a] the search started from: nothing, or
    the first best candidate so far, whose error is not zero. *)
Definition search_state (reference target : Z) (a : logiclk_input)
    (pre : list (Z * Z * Z)) (s : logiclk_input * Z) : Prop :=
  ((∀ t, t ∈ pre → ¬ vco_ok reference t) ∧ s = (with_mult_div a 0 0, U64_MAX))
  ∨ (∃ d m o, first_best reference target pre (d, m, o)
        ∧ freq_error reference target (d, m, o) ≠ 0
        ∧ s = (with_mult_div a m d, freq_error reference target (d, m, o))).

Definition in_ranges (t : Z * Z * Z) : Prop :=
  let '(d, m, o) := t in 1 ≤ d ≤ 56 ∧ 2 ≤ m ≤ 64 ∧ 1 ≤ o ≤ 128.

(** The outcome of the loops of the full search over the candidates [l]. *)
Definition search_result (reference target : Z) (a : logiclk_input)
    (l : list (Z * Z * Z))
    (r : ctl (logiclk_input * Z) (logiclk_input * Z)) : Prop :=
  match r with
  | Fault => False
  | Next s => search_state reference target a l s
  | Return (inp, ret) =>
      ret = 0 ∧ ∃ d m o, first_best reference target l (d, m, o)
        ∧ freq_error reference target (d, m, o) = 0
        ∧ inp = with_mult_div a m d
  end.

(** The device state after a rate change on output [i] was rolled back:
    the parameter stack holds the snapshot, the outputs and the registers
    are those of [d], the input stage is [inp]. *)
Definition rolled_back (d : logiclk_data) (o : logiclk_output)
    (inp : logiclk_input) : logiclk_data :=
  {| input := inp; output := output d; output_stack := o;
     man_regs := man_regs d; man_regs_stack := man_regs d |}.

(** The device state in the middle of a rate change on output [i]: the
    snapshot [o] is pushed and the output has its tentative frequency. *)
Definition tentative (d : logiclk_data) (i : nat) (o : logiclk_output)
    (rate : Z) : logiclk_data :=
  set_output (<[i := set_clkout_freq (wrap32 rate) o]> (output d))
    {| input := input d; output := output d; output_stack := o;
       man_regs := man_regs d; man_regs_stack := man_regs d |}.

(** A device with a 100 MHz reference whose precise output 0 asks for
    100 MHz. *)
Definition device_100MHz : logiclk_data :=
  let out (i : Z) (p : bool) (f : Z) :=
    {| clkout_freq := f; clkout_divide := 8; clkout_duty := 50000;
       clkout_phase := 0; id := i; precise := p |} in
  {| input := {| clk_freq := 100000000; clkfbout_mult := 8;
                 clkfbout_phase := 0; divclk_divide := 1; bw_high := true |};
     output := [out 0 true 100000000; out 1 false 0; out 2 false 0;
                out 3 false 0; out 4 false 0; out 5 false 0];
     output_stack := out 0 false 0;
     man_regs := replicate 21 0;
     man_regs_stack := replicate 21 0 |}.

(** A device whose 9 MHz reference is too slow for any multiplier to
    reach the VCO window; output 0 is the precise one. *)
Definition device_9MHz : logiclk_data :=
  let out (i : Z) (p : bool) (f : Z) :=
    {| clkout_freq := f; clkout_divide := 8; clkout_duty := 50000;
       clkout_phase := 0; id := i; precise := p |} in
  {| input := {| clk_freq := 9000000; clkfbout_mult := 8;
                 clkfbout_phase := 0; divclk_divide := 1; bw_high := true |};
     output := [out 0 true 100000000; out 1 false 0; out 2 false 0;
                out 3 false 0; out 4 false 0; out 5 false 0];
     output_stack := out 0 false 0;
     man_regs := replicate 21 0;
     man_regs_stack := replicate 21 0 |}.

(** A device with an 800 MHz reference as configuration load leaves it:
    precise output 0 asks for 9.375 MHz at 50% duty, output 1 has a 75%
    duty. *)
Definition device_800MHz : logiclk_data :=
  let out (i : Z) (p : bool) (f dv du : Z) :=
    {| clkout_freq := f; clkout_divide := dv; clkout_duty := du;
       clkout_phase := 0; id := i; precise := p |} in
  {| input := {| clk_freq := 800000000; clkfbout_mult := 2;
                 clkfbout_phase := 0; divclk_divide := 1; bw_high := true |};
     output := [out 0 true 9375000 128 50000; out 1 false 0 4 75000;
                out 2 false 0 4 50000; out 3 false 0 4 50000;
                out 4 false 0 4 50000; out 5 false 0 4 50000];
     output_stack := out 0 false 0 0 0;
     man_regs := replicate 21 0;
     man_regs_stack := replicate 21 0 |}.

(** The same device after [logiclk_calc_params] on its precise output. *)
Definition device_800MHz_committed : logiclk_data :=
  let out (i : Z) (p : bool) (du : Z) :=
    {| clkout_freq := 9375000; clkout_divide := 128; clkout_duty := du;
       clkout_phase := 0; id := i; precise := p |} in
  {| input := {| clk_freq := 800000000; clkfbout_mult := 3;
                 clkfbout_phase := 0; divclk_divide := 2; bw_high := true |};
     output := [out 0 true 50000; out 1 false 75000; out 2 false 50000;
                out 3 false 50000; out 4 false 50000; out 5 false 50000];
     output_stack := {| clkout_freq := 0; clkout_divide := 0;
                        clkout_duty := 0; clkout_phase := 0; id := 0;
                        precise := false |};
     man_regs := [0xFFFF; 0; 0; 0x820; 0; 0; 0; 0; 0; 0; 0; 0; 0;
                  0x41; 0x42; 0x80; 0x3E8; 0x1801; 0x1BE9; 0x9900; 0x9900];
     man_regs_stack := replicate 21 0 |}.


(** The frequency that feeds the output dividers. *)
Definition vco_of (a : logiclk_input) : Z :=
  wrap64 (clk_freq a * clkfbout_mult a) / divclk_divide a.

(** Output [k] of [b] and its register pair are what
    logiclk_man_reg_params_id makes of output [k] of [a]: the divider of
    the output search, the frequency it gives, and the two halves of the
    count word. *)
Definition output_recomputed (a b : logiclk_data) (k : nat) : Prop :=
  ∀ o, output a !! k = Some o →
  ∃ cd lo hi,
    logiclk_pll_output_div a k = Some cd ∧ 1 ≤ cd ≤ 128
    ∧ output b !! k
      = Some (set_clkout_freq (wrap32 (vco_of (input a) / cd))
                (set_clkout_divide cd o))
    ∧ man_regs b !! (1 + 2 * k)%nat = Some lo
    ∧ man_regs b !! (2 + 2 * k)%nat = Some hi
    ∧ 0 ≤ lo < 2 ^ 16 ∧ 0 ≤ hi < 2 ^ 16
    ∧ lo + 2 ^ 16 * hi
      = logiclk_pll_count cd (clkout_duty o) (to_s32 (clkout_phase o)).

(** [b] is [a] with the outputs [j .. j+n-1] recomputed and nothing
    else changed. *)
Definition outputs_recomputed (j n : nat) (a b : logiclk_data) : Prop :=
  input b = input a
  ∧ length (man_regs b) = length (man_regs a)
  ∧ length (output b) = length (output a)
  ∧ (∀ k, ¬ (j ≤ k < j + n)%nat → output b !! k = output a !! k)
  ∧ (∀ r, (∀ k, (j ≤ k < j + n)%nat → r ≠ (1 + 2 * k)%nat ∧ r ≠ (2 + 2 * k)%nat) →
       man_regs b !! r = man_regs a !! r)
  ∧ ∀ k, (j ≤ k < j + n)%nat → output_recomputed a b k.

(** Every output carries its index as identity, as configuration load
    sets it. *)
Definition ids_are_indices (d : logiclk_data) : Prop :=
  ∀ k o, output d !! k = Some o → id o = Z.of_nat k.


(** The checks logiclk_get_of_config makes on the device node itself. *)
Definition input_node_valid (dn : of_node) : Prop :=
  length (of_children dn) = 6%nat
  ∧ of_ret (of_input_frequency dn) = 0
  ∧ MMCM_INPUT_FREQ_MIN ≤ wrap32 (of_val (of_input_frequency dn))
      ≤ MMCM_INPUT_FREQ_MAX
  ∧ of_ret (of_input_divide dn) = 0
  ∧ MMCM_DIVCLK_DIVIDE_MIN ≤ wrap32 (of_val (of_input_divide dn))
      ≤ MMCM_DIVCLK_DIVIDE_MAX
  ∧ of_ret (of_input_multiply dn) = 0
  ∧ MMCM_FBOUT_MULTIPLY_MIN ≤ wrap32 (of_val (of_input_multiply dn))
      ≤ MMCM_FBOUT_MULTIPLY_MAX
  ∧ of_ret (of_input_phase dn) = 0
  ∧ 0 ≤ wrap32 (of_val (of_input_phase dn)) ≤ MMCM_PHASE_MAX
  ∧ of_precise_output dn ≠ None.

(** The input stage after a load of a valid device node. *)
Definition loaded_input (dn : of_node) (a : logiclk_input) : logiclk_input :=
  {| clk_freq := wrap32 (of_val (of_input_frequency dn));
     clkfbout_mult := wrap32 (of_val (of_input_multiply dn));
     clkfbout_phase := wrap32 (of_val (of_input_phase dn));
     divclk_divide := wrap32 (of_val (of_input_divide dn));
     bw_high := of_bandwidth_high dn || bw_high a |}.

(** A device node with six children and valid input properties; child 2
    has no "divide" property and no "frequency" property. *)
Definition sample_node : of_node :=
  let ok (v : Z) := {| of_ret := 0; of_val := v |} in
  let missing := {| of_ret := - EINVAL; of_val := 0 |} in
  let child (h : nat) (dv : of_read) :=
    {| of_handle := h; of_frequency := missing; of_divide := dv;
       of_duty := ok 50000; of_phase := ok 0 |} in
  {| of_input_frequency := ok 100000000; of_input_divide := ok 1;
     of_input_multiply := ok 8; of_input_phase := ok 0;
     of_bandwidth_high := true; of_precise_output := Some 10%nat;
     of_children := [child 10%nat (ok 8); child 11%nat (ok 4); child 12%nat missing;
                     child 13%nat (ok 4); child 14%nat (ok 4); child 15%nat (ok 4)] |}.

(** The device data as [devm_kzalloc] leaves it. *)
Definition zeroed_data : logiclk_data :=
  let z := {| clkout_freq := 0; clkout_divide := 0; clkout_duty := 0;
              clkout_phase := 0; id := 0; precise := false |} in
  {| input := {| clk_freq := 0; clkfbout_mult := 0; clkfbout_phase := 0;
                 divclk_divide := 0; bw_high := false |};
     output := replicate 6 z; output_stack := z;
     man_regs := replicate 21 0; man_regs_stack := replicate 21 0 |}.

(** * Properties *)

(** ** Bit fields *)

Lemma wrap32_id x : 0 ≤ x < 2 ^ 32 → wrap32 x = x.
Proof. intros. unfold wrap32. apply Z.mod_small. lia. Qed.

Lemma wrap64_id x : 0 ≤ x < 2 ^ 64 → wrap64 x = x.
Proof. intros. unfold wrap64. apply Z.mod_small. lia. Qed.


Lemma wrap64_range x : 0 ≤ wrap64 x < 2 ^ 64.
Proof. unfold wrap64. apply Z.mod_pos_bound. lia. Qed.

(** A field of width [w <= 32] is the quotient by [2^lsb] reduced
    modulo [2^w]. *)
Lemma get_bits_div_mod x msb lsb :
  0 ≤ lsb → 0 ≤ msb - lsb + 1 ≤ 32 →
  logiclk_get_bits x msb lsb = (x / 2 ^ lsb) mod 2 ^ (msb - lsb + 1).
Proof.
  intros Hl Hw. unfold logiclk_get_bits.
  rewrite Z.shiftl_1_l.
  replace (2 ^ (msb - lsb + 1) - 1) with (Z.ones (msb - lsb + 1))
    by (rewrite Z.ones_equiv; lia).
  rewrite Z.land_ones, Z.shiftr_div_pow2 by lia.
  apply wrap32_id.
  pose proof (Z.mod_pos_bound (x / 2 ^ lsb) (2 ^ (msb - lsb + 1))
                ltac:(apply Z.pow_pos_nonneg; lia)).
  assert (2 ^ (msb - lsb + 1) ≤ 2 ^ 32) by (apply Z.pow_le_mono_r; lia).
  lia.
Qed.

Lemma get_bits_range x msb lsb :
  0 ≤ lsb → 0 ≤ msb - lsb + 1 ≤ 32 →
  0 ≤ logiclk_get_bits x msb lsb < 2 ^ (msb - lsb + 1).
Proof.
  intros. rewrite get_bits_div_mod by lia.
  apply Z.mod_pos_bound, Z.pow_pos_nonneg; lia.
Qed.

Lemma get_bits_testbit x msb lsb k :
  0 ≤ lsb → 0 ≤ msb - lsb + 1 ≤ 32 →
  Z.testbit (logiclk_get_bits x msb lsb) k =
  (0 <=? k) && (k <? msb - lsb + 1) && Z.testbit x (k + lsb).
Proof.
  intros Hl Hw. rewrite get_bits_div_mod by lia.
  destruct (Z.leb_spec 0 k) as [Hk|Hk]; simpl.
  - destruct (Z.ltb_spec k (msb - lsb + 1)); simpl.
    + rewrite Z.mod_pow2_bits_low by lia.
      rewrite Z.div_pow2_bits by lia. reflexivity.
    + apply Z.mod_pow2_bits_high. lia.
  - apply Z.testbit_neg_r. lia.
Qed.

(** A non-negative number whose bits from [k] upwards are clear lies
    below [2^k]. *)
Lemma below_pow2_bits k n :
  0 ≤ k → 0 ≤ n → (∀ l, k ≤ l → Z.testbit n l = false) → 0 ≤ n < 2 ^ k.
Proof. intros Hk Hn Hb. apply Z.bounded_iff_bits_nonneg'; assumption. Qed.

Lemma bits_above_pow2 k n l :
  0 ≤ k → 0 ≤ n < 2 ^ k → k ≤ l → Z.testbit n l = false.
Proof.
  intros Hk Hn Hl.
  apply (proj1 (Z.bounded_iff_bits_nonneg' k n Hk (proj1 Hn)) Hn). exact Hl.
Qed.

(** Normal form for the bit of a packed word: every [lor], shift and
    field extraction is opened up. *)
Ltac bit_open :=
  repeat first
    [ rewrite Z.lor_spec
    | rewrite Z.land_spec
    | rewrite Z.shiftl_spec by lia
    | rewrite get_bits_testbit by lia ].

Ltac bit_cases :=
  repeat match goal with
  | |- context [?a <=? ?b] => destruct (Z.leb_spec a b); simpl; try lia
  | |- context [?a <? ?b] => destruct (Z.ltb_spec a b); simpl; try lia
  end;
  rewrite ?orb_false_r, ?andb_false_r, ?andb_true_r; simpl;
  try reflexivity.

(** ** The divide-count encoder *)

Lemma pack_div_fields_range f : 0 ≤ pack_div_fields f < 2 ^ 14.
Proof.
  unfold pack_div_fields.
  assert (Hn : ∀ a m, 0 ≤ m → 0 ≤ Z.land a m)
    by (intros; apply Z.land_nonneg; lia).
  apply below_pow2_bits; [lia| |].
  - repeat (apply Z.lor_nonneg; split);
      try apply Z.shiftl_nonneg; apply Hn; lia.
  - intros l Hl. bit_open.
    change 0x3F with (Z.ones 6). change 0x1 with (Z.ones 1).
    rewrite !Z.testbit_ones by lia.
    bit_cases.
Qed.

Lemma pll_div_range divide duty : 0 ≤ logiclk_pll_div divide duty < 2 ^ 14.
Proof. apply pack_div_fields_range. Qed.

Lemma pll_div_fields_one duty :
  logiclk_pll_div_fields 1 duty
    = {| low_time := 1; high_time := 1; no_count := 1; edge := 0 |}.
Proof. reflexivity. Qed.

(** C6: for divide = 1 the encoder yields low_time = 1, high_time = 1,
    no_count = 1, edge = 0, packed as 0x1041, whatever the duty. *)
Theorem pll_div_divide_one (duty : Z) :
  logiclk_pll_div_fields 1 duty
    = {| low_time := 1; high_time := 1; no_count := 1; edge := 0 |}
  ∧ logiclk_pll_div 1 duty = 0x1041.
Proof. split; [apply pll_div_fields_one|]. reflexivity. Qed.

(** The duty in 10-bit fixed point, for a duty of the validated range. *)
Lemma duty_fix_range duty :
  100 ≤ duty ≤ 99900 →
  1 ≤ wrap32 (Z.shiftl duty LOGICLK_FRACTION_PRECISION) / 100000 ≤ 1022.
Proof.
  intros H. unfold LOGICLK_FRACTION_PRECISION.
  rewrite Z.shiftl_mul_pow2 by lia. change (2 ^ 10) with 1024.
  rewrite wrap32_id by lia.
  split.
  - apply Z.div_le_lower_bound; lia.
  - apply Z.lt_succ_r, Z.div_lt_upper_bound; lia.
Qed.

Lemma round_fraction_bounds x p :
  0 ≤ x →
  0 ≤ LOGICLK_FRACTION_PRECISION - p - 1 →
  x + 2 ^ (LOGICLK_FRACTION_PRECISION - p - 1) < 2 ^ 32 →
  x ≤ logiclk_round_fraction x p
    ≤ x + 2 ^ (LOGICLK_FRACTION_PRECISION - p - 1).
Proof.
  intros Hx Hp Hb. unfold logiclk_round_fraction.
  rewrite Z.shiftl_1_l.
  assert (0 < 2 ^ (LOGICLK_FRACTION_PRECISION - p - 1))
    by (apply Z.pow_pos_nonneg; lia).
  destruct (_ =? 0); [lia|]. rewrite wrap32_id; lia.
Qed.

(** The fields of the counting branch: the high time stays strictly
    inside the period, so the [u32] subtraction for the low time does
    not wrap. *)
Lemma pll_div_fields_counting divide duty :
  2 ≤ divide ≤ 128 → 100 ≤ duty ≤ 99900 →
  let f := logiclk_pll_div_fields divide duty in
  no_count f = 0 ∧ 1 ≤ high_time f ≤ divide - 1
  ∧ low_time f = divide - high_time f.
Proof.
  intros Hd Hduty. unfold logiclk_pll_div_fields.
  pose proof (duty_fix_range duty Hduty) as Hfix.
  set (duty_fix := wrap32 (Z.shiftl duty LOGICLK_FRACTION_PRECISION) / 100000) in *.
  destruct (Z.eqb_spec divide 1) as [?|_]; [lia|].
  assert (Hx : 0 ≤ duty_fix * divide ≤ 1022 * 128) by nia.
  rewrite (wrap32_id (duty_fix * divide)) by lia.
  pose proof (round_fraction_bounds (duty_fix * divide) 1
                ltac:(lia) ltac:(unfold LOGICLK_FRACTION_PRECISION; lia)
                ltac:(unfold LOGICLK_FRACTION_PRECISION; simpl; lia)) as Ht.
  set (temp := logiclk_round_fraction (duty_fix * divide) 1) in *.
  unfold LOGICLK_FRACTION_PRECISION in *.
  change (2 ^ (10 - 1 - 1)) with 256 in Ht.
  pose proof (get_bits_range temp (10 + 6) 10 ltac:(lia) ltac:(lia)) as Hr.
  assert (Hh : logiclk_get_bits temp (10 + 6) 10 ≤ divide).
  { rewrite get_bits_div_mod by lia.
    etrans; [apply Z.mod_le; [apply Z.div_pos; lia | lia]|].
    change (2 ^ 10) with 1024.
    apply Z.lt_succ_r, Z.div_lt_upper_bound; nia. }
  set (high0 := logiclk_get_bits temp (10 + 6) 10) in *.
  change (2 ^ (10 + 6 - 10 + 1)) with 128 in Hr.
  destruct (Z.eqb_spec high0 0) as [E0|E0].
  - destruct (Z.eqb_spec 1 divide); simpl; [lia|].
    rewrite wrap32_id by lia. lia.
  - destruct (Z.eqb_spec high0 divide) as [E1|E1]; simpl.
    + rewrite (wrap32_id (divide - 1)) by lia.
      rewrite wrap32_id by lia. lia.
    + rewrite wrap32_id by lia. lia.
Qed.

(** C7: for divide in 1..128 and duty in 100..99900, the fields
    low_time and high_time computed by logiclk_pll_div add up to divide
    whenever no_count is 0, which is the case exactly for divide >= 2. *)
Theorem pll_div_low_plus_high (divide duty : Z) :
  1 ≤ divide ≤ 128 → 100 ≤ duty ≤ 99900 →
  let f := logiclk_pll_div_fields divide duty in
  (no_count f = 0 ↔ 2 ≤ divide)
  ∧ (no_count f = 0 → low_time f + high_time f = divide).
Proof.
  intros Hd Hduty f.
  destruct (decide (divide = 1)) as [->|Hne].
  - subst f. rewrite pll_div_fields_one. simpl. lia.
  - destruct (pll_div_fields_counting divide duty ltac:(lia) Hduty)
      as (Hn & Hh & Hl).
    fold f in Hn, Hh, Hl. lia.
Qed.

(** The packed word holds each field modulo 64: for a divide of at
    most 64 the stored low and high times still add up to the divide. *)
Lemma pack_div_fields_low_high f :
  logiclk_get_bits (pack_div_fields f) 5 0 = low_time f mod 64
  ∧ logiclk_get_bits (pack_div_fields f) 11 6 = high_time f mod 64.
Proof.
  change 64 with (2 ^ 6). rewrite <- !Z.land_ones by lia.
  unfold pack_div_fields. change 0x3F with (Z.ones 6).
  change 0x1 with (Z.ones 1).
  split; apply Z.bits_inj'; intros k Hk; bit_open;
    rewrite ?Z.testbit_ones by lia; bit_cases;
    rewrite ?andb_true_r, ?orb_false_r, ?orb_false_l; f_equal; lia.
Qed.

Lemma pll_div_packed_low_plus_high divide duty :
  2 ≤ divide ≤ 64 → 100 ≤ duty ≤ 99900 →
  logiclk_get_bits (logiclk_pll_div divide duty) 5 0
  + logiclk_get_bits (logiclk_pll_div divide duty) 11 6 = divide.
Proof.
  intros Hd Hduty. unfold logiclk_pll_div.
  destruct (pack_div_fields_low_high (logiclk_pll_div_fields divide duty))
    as [-> ->].
  destruct (pll_div_fields_counting divide duty ltac:(lia) Hduty)
    as (_ & Hh & Hl).
  rewrite !Z.mod_small by lia. lia.
Qed.

(** Above 64 a time of 64 is stored as 0. *)
Example pll_div_packed_128 :
  logiclk_pll_div_fields 128 50000
    = {| low_time := 64; high_time := 64; no_count := 0; edge := 0 |}
  ∧ logiclk_pll_div 128 50000 = 0.
Proof. split; reflexivity. Qed.

(** ** The phase encoder and the count word *)

Lemma pll_phase_range divide phase : 0 ≤ logiclk_pll_phase divide phase < 2 ^ 9.
Proof.
  unfold logiclk_pll_phase.
  match goal with
  | |- context [Z.lor (Z.land ?a _) (Z.shiftl (Z.land ?b _) _)] =>
      generalize a b
  end.
  intros a b.
  apply below_pow2_bits; [lia| |].
  - apply Z.lor_nonneg; split; [|apply Z.shiftl_nonneg];
      apply Z.land_nonneg; lia.
  - intros l Hl. bit_open.
    change 0x3F with (Z.ones 6). change 0x7 with (Z.ones 3).
    rewrite !Z.testbit_ones by lia.
    bit_cases.
Qed.

Lemma pll_count_word divide duty phase :
  logiclk_pll_count divide duty phase
  = count_word (logiclk_pll_div divide duty) (logiclk_pll_phase divide phase).
Proof. reflexivity. Qed.

Lemma count_word_nonneg d p : 0 ≤ count_word d p.
Proof.
  unfold count_word.
  repeat (apply Z.lor_nonneg; split); try apply Z.shiftl_nonneg;
    apply get_bits_range; lia.
Qed.

Ltac field_eq :=
  let k := fresh "k" in
  apply Z.bits_inj'; intros k ?; unfold count_word;
  bit_open; bit_cases; f_equal; lia.

Lemma count_word_fields d p :
  let w := count_word d p in
  logiclk_get_bits w 11 0 = logiclk_get_bits d 11 0
  ∧ logiclk_get_bits w 15 13 = logiclk_get_bits p 8 6
  ∧ logiclk_get_bits w 21 16 = logiclk_get_bits p 5 0
  ∧ logiclk_get_bits w 23 22 = logiclk_get_bits d 13 12
  ∧ logiclk_get_bits w 25 24 = logiclk_get_bits p 10 9.
Proof.
  intros w. subst w.
  split; [field_eq|]. split; [field_eq|]. split; [field_eq|].
  split; field_eq.
Qed.


Lemma phase_high_bits_zero p : 0 ≤ p < 2 ^ 9 → logiclk_get_bits p 10 9 = 0.
Proof.
  intros Hp. rewrite get_bits_div_mod by lia.
  rewrite Z.div_small by lia. reflexivity.
Qed.

Lemma count_word_range d p : 0 ≤ p < 2 ^ 9 → 0 ≤ count_word d p < 2 ^ 24.
Proof.
  intros Hp. apply below_pow2_bits; [lia|apply count_word_nonneg|].
  intros l Hl. unfold count_word.
  rewrite (phase_high_bits_zero p Hp), Z.shiftl_0_l, Z.lor_0_r.
  bit_open. bit_cases.
Qed.

(** C10: logiclk_pll_phase stays below 2^9, so the [25:24] field of the
    count word is zero and the count word stays below 2^24. *)
Theorem pll_phase_nine_bits (divide phase : Z) :
  0 ≤ logiclk_pll_phase divide phase < 2 ^ 9
  ∧ ∀ duty,
      logiclk_get_bits (logiclk_pll_phase divide phase) 10 9 = 0
      ∧ logiclk_get_bits (logiclk_pll_count divide duty phase) 25 24 = 0
      ∧ 0 ≤ logiclk_pll_count divide duty phase < 2 ^ 24.
Proof.
  pose proof (pll_phase_range divide phase) as Hp.
  split; [exact Hp|]. intros duty.
  rewrite pll_count_word.
  split; [apply phase_high_bits_zero, Hp|].
  split; [|apply count_word_range, Hp].
  destruct (count_word_fields (logiclk_pll_div divide duty)
              (logiclk_pll_phase divide phase)) as (_ & _ & _ & _ & ->).
  apply phase_high_bits_zero, Hp.
Qed.

(** ** Loops as list traversals *)

Lemma for_loop_S {St R} n i (body : Z → St → ctl St R) s :
  for_loop (S n) i body s =
  match body i s with
  | Next s' => for_loop n (i + 1) body s'
  | Return r => Return r
  | Fault => Fault
  end.
Proof. reflexivity. Qed.

Lemma for_loop_run_list {St R} n i (body : Z → St → ctl St R) s :
  for_loop n i body s = run_list body (seqZ i (Z.of_nat n)) s.
Proof.
  revert i s. induction n as [|n IH]; intros i s.
  - reflexivity.
  - rewrite seqZ_cons by lia. simpl run_list. simpl for_loop.
    replace (Z.pred (Z.of_nat (S n))) with (Z.of_nat n) by lia.
    destruct (body i s); try reflexivity.
    rewrite IH. f_equal.
Qed.

Lemma for_range_run_list {St R} lo hi (body : Z → St → ctl St R) s :
  lo ≤ hi + 1 →
  for_range lo hi body s = run_list body (seqZ lo (hi + 1 - lo)) s.
Proof.
  intros H. unfold for_range. rewrite for_loop_run_list.
  rewrite Z2Nat.id by lia. reflexivity.
Qed.

Lemma run_list_app {A St R} (body : A → St → ctl St R) l1 l2 s :
  run_list body (l1 ++ l2) s =
  match run_list body l1 s with
  | Next s' => run_list body l2 s'
  | Return r => Return r
  | Fault => Fault
  end.
Proof.
  revert s. induction l1 as [|x l1 IH]; intros s; simpl.
  - reflexivity.
  - destruct (body x s); auto.
Qed.

Lemma run_list_ext {A St R} (f g : A → St → ctl St R) l s :
  (∀ x s', f x s' = g x s') → run_list f l s = run_list g l s.
Proof.
  intros E. revert s. induction l as [|x l IH]; intros s; simpl.
  - reflexivity.
  - rewrite E. destruct (g x s); auto.
Qed.

(** Two nested loops visit the pairs of the list comprehension. *)
Lemma run_list_nested {A B C St R} (body : C → St → ctl St R)
    (f : A → B → C) (l1 : list A) (l2 : list B) s :
  run_list (λ x, run_list (λ y, body (f x y)) l2) l1 s
  = run_list body (x ← l1; y ← l2; [f x y]) s.
Proof.
  revert s. induction l1 as [|x l1 IH]; intros s.
  - reflexivity.
  - rewrite bind_cons, run_list_app. simpl run_list at 1.
    assert (E : ∀ s0, run_list (λ y, body (f x y)) l2 s0
                    = run_list body (y ← l2; [f x y]) s0).
    { clear. induction l2 as [|y l2 IH2]; intros s0; [reflexivity|].
      rewrite bind_cons. simpl. destruct (body (f x y) s0); auto. }
    rewrite E. destruct (run_list body _ s); auto.
Qed.

Lemma input_mult_div_loops_enumeration ref target s :
  input_mult_div_loops ref target s
  = run_list (λ '(d, m, o), input_mult_div_body ref target d m o)
             enumeration s.
Proof.
  unfold input_mult_div_loops, enumeration.
  rewrite for_range_run_list by (vm_compute; discriminate).
  erewrite run_list_ext.
  2:{ intros d s'. rewrite for_range_run_list by (vm_compute; discriminate).
      erewrite run_list_ext.
      2:{ intros m s''.
          rewrite for_range_run_list by (vm_compute; discriminate).
          reflexivity. }
      reflexivity. }
  change (MMCM_DIVCLK_DIVIDE_MAX + 1 - MMCM_DIVCLK_DIVIDE_MIN) with 56.
  change (MMCM_FBOUT_MULTIPLY_MAX + 1 - MMCM_FBOUT_MULTIPLY_MIN) with 63.
  change (MMCM_CLKOUT_DIVIDE_MAX + 1 - MMCM_CLKOUT_DIVIDE_MIN) with 128.
  set (L1 := seqZ MMCM_DIVCLK_DIVIDE_MIN 56).
  set (L2 := seqZ MMCM_FBOUT_MULTIPLY_MIN 63).
  set (L3 := seqZ MMCM_CLKOUT_DIVIDE_MIN 128).
  set (body := λ '(d, m, o), input_mult_div_body ref target d m o).
  erewrite (run_list_ext _ (λ d, run_list (λ p : Z * Z, body (d, p.1, p.2))
                                  (m ← L2; o ← L3; [(m, o)]))).
  2:{ intros d s'.
      rewrite <- (run_list_nested (λ p : Z * Z, body (d, p.1, p.2)) pair L2 L3).
      reflexivity. }
  rewrite (run_list_nested body (λ d (p : Z * Z), (d, p.1, p.2)) L1).
  f_equal.
Qed.

Lemma elem_of_enumeration d m o :
  (d, m, o) ∈ enumeration ↔ 1 ≤ d ≤ 56 ∧ 2 ≤ m ≤ 64 ∧ 1 ≤ o ≤ 128.
Proof.
  unfold enumeration. rewrite list_elem_of_bind. split.
  - intros (d' & H & Hd). apply list_elem_of_bind in H as (m' & H & Hm).
    apply list_elem_of_bind in H as (o' & H & Ho).
    apply list_elem_of_singleton in H. injection H as -> -> ->.
    apply elem_of_seqZ in Hd, Hm, Ho.
    unfold MMCM_DIVCLK_DIVIDE_MIN, MMCM_FBOUT_MULTIPLY_MIN,
      MMCM_CLKOUT_DIVIDE_MIN in *. lia.
  - intros (Hd & Hm & Ho). exists d. split.
    + apply list_elem_of_bind. exists m. split.
      * apply list_elem_of_bind. exists o. split.
        -- apply list_elem_of_singleton. reflexivity.
        -- apply elem_of_seqZ. unfold MMCM_CLKOUT_DIVIDE_MIN. lia.
      * apply elem_of_seqZ. unfold MMCM_FBOUT_MULTIPLY_MIN. lia.
    + apply elem_of_seqZ. unfold MMCM_DIVCLK_DIVIDE_MIN. lia.
Qed.

(** ** The full search *)

Lemma abs64_small x : - 2 ^ 63 < x < 2 ^ 63 → abs64 x = Z.abs x.
Proof.
  intros H. unfold abs64, to_s64, wrap64.
  destruct (Z_lt_le_dec x 0).
  - rewrite (Z.mod_in_range (-1) x) by lia.
    destruct (Z.ltb_spec (x - -1 * 2 ^ 64) (2 ^ 63)); [lia|].
    rewrite Z.mod_small by lia. lia.
  - rewrite (Z.mod_small x) by lia.
    destruct (Z.ltb_spec x (2 ^ 63)); [|lia].
    apply Z.mod_small. lia.
Qed.

Lemma abs64_below_max x : abs64 x < U64_MAX.
Proof.
  unfold abs64, to_s64, U64_MAX.
  pose proof (wrap64_range x) as Hx.
  destruct (Z.ltb_spec (wrap64 x) (2 ^ 63)); rewrite wrap64_id; lia.
Qed.

Section FullSearch.

Variables reference target : Z.
Variable a : logiclk_input.
Hypothesis reference_u32 : 0 ≤ reference < 2 ^ 32.
Hypothesis target_u32 : 0 ≤ target < 2 ^ 32.

Local Abbreviation body := (λ '(d, m, o), input_mult_div_body reference target d m o).
Local Abbreviation err := (freq_error reference target).
Local Abbreviation ok := (vco_ok reference).
Local Abbreviation search_state := (search_state reference target a).
Local Abbreviation search_result := (search_result reference target a).

Lemma freq_error_bounds d m o :
  1 ≤ d → 0 ≤ m → 1 ≤ o → ok (d, m, o) →
  0 ≤ err (d, m, o) < 2 ^ 33.
Proof.
  intros Hd Hm Ho [Hlo Hhi]. unfold freq_error.
  unfold MMCM_VCO_FREQ_MIN, MMCM_VCO_FREQ_MAX in *.
  assert (0 ≤ vco reference d m / o ≤ 1600000000).
  { split; [apply Z.div_pos; lia|].
    etrans; [|exact Hhi]. apply Z.div_le_upper_bound; nia. }
  lia.
Qed.

(** One iteration of the innermost loop, on a candidate of the
    enumeration. *)
Lemma input_mult_div_body_spec d m o inp e :
  1 ≤ d ≤ 56 → 2 ≤ m ≤ 64 → 1 ≤ o ≤ 128 →
  (¬ ok (d, m, o) ∧
     input_mult_div_body reference target d m o (inp, e) = Next (inp, e))
  ∨ (ok (d, m, o) ∧
     input_mult_div_body reference target d m o (inp, e) =
       if err (d, m, o) <? e then
         if err (d, m, o) =? 0
         then Return (with_mult_div inp m d, 0)
         else Next (with_mult_div inp m d, err (d, m, o))
       else Next (inp, e)).
Proof.
  intros Hd Hm Ho. unfold input_mult_div_body, div_u64.
  rewrite (wrap64_id (reference * m)) by nia.
  destruct (Z.eqb_spec d 0); [lia|].
  fold (vco reference d m).
  destruct (Z.ltb_spec (vco reference d m) MMCM_VCO_FREQ_MIN) as [H1|H1]; simpl.
  { left. split; [|reflexivity]. unfold vco_ok. lia. }
  destruct (Z.ltb_spec MMCM_VCO_FREQ_MAX (vco reference d m)) as [H2|H2]; simpl.
  { left. split; [|reflexivity]. unfold vco_ok. lia. }
  right. assert (Hok : ok (d, m, o)) by (unfold vco_ok; lia).
  split; [exact Hok|].
  destruct (Z.eqb_spec o 0); [lia|].
  pose proof (freq_error_bounds d m o ltac:(lia) ltac:(lia) ltac:(lia) Hok) as Hb.
  unfold freq_error in *.
  rewrite abs64_small by lia.
  rewrite (wrap32_id m) by lia. reflexivity.
Qed.

Lemma first_best_in l t : first_best reference target l t → t ∈ l.
Proof.
  intros (l1 & l2 & -> & _). apply elem_of_app. right. apply elem_of_cons. auto.
Qed.

Lemma first_best_snoc_skip l t t' :
  first_best reference target l t →
  (ok t' → err t ≤ err t') →
  first_best reference target (l ++ [t']) t.
Proof.
  intros (l1 & l2 & -> & Hok & H1 & H2) Hle.
  exists l1, (l2 ++ [t']). split; [by rewrite <- app_assoc|].
  split; [exact Hok|]. split; [exact H1|].
  intros u [Hu|Hu%list_elem_of_singleton]%elem_of_app Hu'.
  - by apply H2.
  - subst u. by apply Hle.
Qed.

Lemma first_best_snoc_take l t t' :
  first_best reference target l t →
  ok t' → err t' < err t →
  first_best reference target (l ++ [t']) t'.
Proof.
  intros (l1 & l2 & -> & Hok & H1 & H2) Hok' Hlt.
  exists (l1 ++ t :: l2), []. split; [reflexivity|].
  split; [exact Hok'|]. split.
  - intros u [Hu|[->|Hu]%elem_of_cons]%elem_of_app Hu'.
    + specialize (H1 u Hu Hu'). lia.
    + lia.
    + specialize (H2 u Hu Hu'). lia.
  - intros u Hu. by apply elem_of_nil in Hu.
Qed.

Lemma first_best_extend l l' t :
  first_best reference target l t →
  (∀ t', t' ∈ l' → ok t' → err t ≤ err t') →
  first_best reference target (l ++ l') t.
Proof.
  intros (l1 & l2 & -> & Hok & H1 & H2) Hle.
  exists l1, (l2 ++ l'). split; [by rewrite <- app_assoc|].
  split; [exact Hok|]. split; [exact H1|].
  intros u [Hu|Hu]%elem_of_app Hu'; auto.
Qed.

Lemma err_nonneg t : 0 ≤ err t.
Proof. destruct t as [[d m] o]. unfold freq_error. lia. Qed.

Lemma run_list_search l :
  ∀ pre s, Forall in_ranges l → search_state pre s →
  search_result (pre ++ l) (run_list body l s).
Proof.
  induction l as [|t l IH]; intros pre s Hl Hs.
  - simpl. rewrite app_nil_r. exact Hs.
  - apply Forall_cons_1 in Hl as [Ht Hl].
    destruct t as [[d m] o]. destruct Ht as (Hd & Hm & Ho).
    replace (pre ++ (d, m, o) :: l) with ((pre ++ [(d, m, o)]) ++ l)
      by (rewrite <- app_assoc; reflexivity).
    simpl run_list. destruct s as [inp e].
    destruct (input_mult_div_body_spec d m o inp e Hd Hm Ho)
      as [[Hnok ->]|[Hok ->]].
    + (* outside the VCO window: the state is kept *)
      apply IH; [exact Hl|].
      destruct Hs as [[Hnone Es]|(d0 & m0 & o0 & Hfb & Hne & Es)].
      * left. split; [|exact Es].
        intros u [Hu|Hu%list_elem_of_singleton]%elem_of_app; [auto|by subst u].
      * right. exists d0, m0, o0. split; [|by split].
        apply first_best_snoc_skip; [exact Hfb|]. intros ?. contradiction.
    + pose proof (freq_error_bounds d m o ltac:(lia) ltac:(lia) ltac:(lia) Hok)
        as Hb.
      destruct Hs as [[Hnone Es]|(d0 & m0 & o0 & Hfb & Hne & Es)];
        apply pair_equal_spec in Es as [-> ->].
      * (* first candidate inside the window *)
        assert (Hfirst : first_best reference target
                           (pre ++ [(d, m, o)]) (d, m, o)).
        { exists pre, []. split; [reflexivity|]. split; [exact Hok|].
          split; [intros u Hu Hu'; by destruct (Hnone u Hu)|].
          intros u Hu. by apply elem_of_nil in Hu. }
        destruct (Z.ltb_spec (err (d, m, o)) U64_MAX); [|unfold U64_MAX in *; lia].
        destruct (Z.eqb_spec (err (d, m, o)) 0) as [E0|E0].
        -- simpl. split; [reflexivity|]. exists d, m, o.
           split; [|by split].
           apply first_best_extend; [exact Hfirst|].
           intros u _ _. rewrite E0. apply err_nonneg.
        -- apply IH; [exact Hl|]. right. exists d, m, o. by repeat split.
      * destruct (Z.ltb_spec (err (d, m, o)) (err (d0, m0, o0))) as [Hlt|Hge].
        -- assert (Hnew : first_best reference target
                            (pre ++ [(d, m, o)]) (d, m, o))
             by (eapply first_best_snoc_take; eauto).
           destruct (Z.eqb_spec (err (d, m, o)) 0) as [E0|E0].
           ++ simpl. split; [reflexivity|]. exists d, m, o.
              split; [|by split].
              apply first_best_extend; [exact Hnew|].
              intros u _ _. rewrite E0. apply err_nonneg.
           ++ apply IH; [exact Hl|]. right. exists d, m, o. by repeat split.
        -- apply IH; [exact Hl|]. right. exists d0, m0, o0.
           split; [|by split].
           apply first_best_snoc_skip; [exact Hfb|]. intros _. lia.
Qed.

End FullSearch.

(** The candidates come in the order of the loop nest. *)
Lemma seqZ_sorted m n : StronglySorted Z.lt (seqZ m n).
Proof.
  destruct (Z_lt_le_dec n 0) as [Hn|Hn].
  { rewrite seqZ_nil by lia. constructor. }
  revert m. pattern n. apply natlike_ind; [| |exact Hn].
  - intros m. rewrite seqZ_nil by lia. constructor.
  - intros k Hk IH m. rewrite seqZ_cons by lia.
    replace (Z.pred (Z.succ k)) with k by lia.
    constructor; [apply IH|].
    apply list.Forall_forall. intros x Hx%elem_of_seqZ. lia.
Qed.

Lemma bind_sorted {A B} (R1 : relation A) (R2 : relation B)
    (f : A → list B) (l : list A) :
  StronglySorted R1 l →
  (∀ x, x ∈ l → StronglySorted R2 (f x)) →
  (∀ x x' y y', R1 x x' → y ∈ f x → y' ∈ f x' → R2 y y') →
  StronglySorted R2 (l ≫= f).
Proof.
  intros Hl Hf Hc. induction Hl as [|x l Hl IH Hx].
  - constructor.
  - rewrite bind_cons. apply StronglySorted_app_2.
    + intros y y' Hy (x' & Hy' & Hx')%list_elem_of_bind.
      apply (Hc x x'); [|exact Hy|exact Hy'].
      apply (proj1 (list.Forall_forall _ _) Hx). exact Hx'.
    + apply Hf. by left.
    + apply IH. intros x' Hx'. apply Hf. by right.
Qed.

Lemma enumeration_sorted : StronglySorted visited_before enumeration.
Proof.
  unfold enumeration.
  apply (bind_sorted Z.lt); [apply seqZ_sorted| |].
  - intros d _. apply (bind_sorted Z.lt); [apply seqZ_sorted| |].
    + intros m _. apply (bind_sorted Z.lt); [apply seqZ_sorted| |].
      * intros o _. repeat constructor.
      * intros o o' y y' Ho ->%list_elem_of_singleton ->%list_elem_of_singleton.
        simpl. lia.
    + intros m m' y y' Hm (o & ->%list_elem_of_singleton & _)%list_elem_of_bind
        (o' & ->%list_elem_of_singleton & _)%list_elem_of_bind.
      simpl. lia.
  - intros d d' y y' Hd (m & (o & ->%list_elem_of_singleton & _)%list_elem_of_bind
                           & _)%list_elem_of_bind
      (m' & (o' & ->%list_elem_of_singleton & _)%list_elem_of_bind
          & _)%list_elem_of_bind.
    simpl. lia.
Qed.

Lemma visited_before_asym t t' : visited_before t t' → ¬ visited_before t' t.
Proof. destruct t as [[d m] o], t' as [[d' m'] o']. simpl. lia. Qed.

(** In a split of the candidate list at [t], the candidates before [t]
    are those the loop nest visits before it. *)
Lemma enumeration_split l1 t l2 t' :
  enumeration = l1 ++ t :: l2 →
  (t' ∈ l1 ↔ t' ∈ enumeration ∧ visited_before t' t).
Proof.
  intros E. pose proof enumeration_sorted as Hs. rewrite E in Hs.
  apply StronglySorted_app in Hs as (H12 & _ & H2).
  apply StronglySorted_cons in H2 as [H2 _].
  rewrite E. split.
  - intros Hin. split; [apply elem_of_app; by left|].
    apply H12; [exact Hin|by left].
  - intros [[Hin|[->|Hin]%elem_of_cons]%elem_of_app Hv].
    + exact Hin.
    + destruct (visited_before_asym _ _ Hv Hv).
    + destruct (visited_before_asym _ _ Hv).
      apply (proj1 (list.Forall_forall _ _) H2). exact Hin.
Qed.

(** The candidate list is only ever reasoned about through
    [elem_of_enumeration], and the operations through their lemmas. *)
Opaque enumeration.
Arguments input_mult_div_loops : simpl never.
Arguments logiclk_pll_input_mult_div : simpl never.
Arguments logiclk_pll_output_div : simpl never.
Arguments logiclk_man_reg_params_id : simpl never.
Arguments logiclk_man_reg_params : simpl never.
Arguments logiclk_calc_params : simpl never.
Arguments logiclk_stack_params : simpl never.
Arguments logiclk_hw_config : simpl never.

Lemma enumeration_in_ranges : Forall in_ranges enumeration.
Proof.
  apply list.Forall_forall. intros [[d m] o] H.
  apply elem_of_enumeration in H. exact H.
Qed.

(** The two outcomes of [logiclk_pll_input_mult_div]: no candidate lies
    in the VCO window and the input stage is left with multiplier and
    pre-divider 0, or the input stage holds the first best candidate. *)
Lemma input_mult_div_outcome d i o :
  output d !! i = Some o →
  0 ≤ clk_freq (input d) < 2 ^ 32 → 0 ≤ clkout_freq o < 2 ^ 32 →
  ((∀ t, t ∈ enumeration → ¬ vco_ok (clk_freq (input d)) t)
   ∧ logiclk_pll_input_mult_div d i
     = Some (- EINVAL, set_input (with_mult_div (input d) 0 0) d))
  ∨ (∃ dv m od,
       first_best (clk_freq (input d)) (clkout_freq o) enumeration (dv, m, od)
       ∧ logiclk_pll_input_mult_div d i
         = Some (0, set_input (with_mult_div (input d) m dv) d)).
Proof.
  intros Ho Href Htgt. unfold logiclk_pll_input_mult_div. rewrite Ho. simpl.
  rewrite input_mult_div_loops_enumeration.
  assert (H0 : search_state (clk_freq (input d)) (clkout_freq o) (input d) []
                 (with_mult_div (input d) 0 0, U64_MAX)).
  { left. split; [|reflexivity]. intros t Ht. by apply elem_of_nil in Ht. }
  pose proof (run_list_search (clk_freq (input d)) (clkout_freq o) (input d)
                Href Htgt enumeration [] _ enumeration_in_ranges H0) as H.
  simpl app in H. fold (with_mult_div (input d) 0 0).
  destruct (run_list _ enumeration _) as [[inp e]|[inp ret]|]; simpl in H.
  - destruct H as [[Hnone E]|(dv & m & od & Hfb & Hne & E)];
      apply pair_equal_spec in E as [-> ->].
    + left. split; [exact Hnone|]. reflexivity.
    + right. exists dv, m, od. split; [exact Hfb|].
      apply first_best_in, elem_of_enumeration in Hfb.
      simpl. destruct (Z.eqb_spec m 0); [lia|].
      destruct (Z.eqb_spec dv 0); [lia|]. reflexivity.
  - destruct H as (-> & dv & m & od & Hfb & _ & ->).
    right. exists dv, m, od. split; [exact Hfb|reflexivity].
  - contradiction.
Qed.

(** The first best candidate, in terms of the visiting order. *)
Lemma first_best_order ref target t :
  first_best ref target enumeration t →
  t ∈ enumeration ∧ vco_ok ref t
  ∧ ∀ t', t' ∈ enumeration → vco_ok ref t' →
      freq_error ref target t ≤ freq_error ref target t'
      ∧ (visited_before t' t →
           freq_error ref target t < freq_error ref target t').
Proof.
  intros Hfb. split; [by eapply first_best_in|].
  destruct Hfb as (l1 & l2 & E & Hok & H1 & H2). split; [exact Hok|].
  intros t' Hin Hok'. pose proof (enumeration_split l1 t l2 t' E) as Hsplit.
  rewrite E in Hin.
  apply elem_of_app in Hin as [Hin|[->|Hin]%elem_of_cons].
  - specialize (H1 t' Hin Hok'). split; [lia|]. intros _. exact H1.
  - split; [lia|]. intros Hv. destruct (visited_before_asym _ _ Hv Hv).
  - split; [by apply H2|]. intros Hv.
    assert (t' ∈ l1) as Hin1.
    { apply Hsplit. split; [|exact Hv]. rewrite E. apply elem_of_app.
      right. by right. }
    by apply H1.
Qed.

(** The loops stop at the first candidate in the VCO window whose
    error is 0: their outcome is that of the candidates up to it. *)
Lemma full_search_returns_at_zero ref target a l1 dv m od l2 :
  0 ≤ ref < 2 ^ 32 → 0 ≤ target < 2 ^ 32 →
  enumeration = l1 ++ (dv, m, od) :: l2 →
  vco_ok ref (dv, m, od) → freq_error ref target (dv, m, od) = 0 →
  (∀ t', t' ∈ l1 → vco_ok ref t' → freq_error ref target t' ≠ 0) →
  run_list (λ '(d, m, o), input_mult_div_body ref target d m o)
    (l1 ++ [(dv, m, od)]) (with_mult_div a 0 0, U64_MAX)
    = Return (with_mult_div a m dv, 0)
  ∧ input_mult_div_loops ref target (with_mult_div a 0 0, U64_MAX)
    = Return (with_mult_div a m dv, 0).
Proof.
  intros Href Htgt E Hok E0 Hbefore.
  assert (Hrun : run_list (λ '(d, m, o), input_mult_div_body ref target d m o)
                   (l1 ++ [(dv, m, od)]) (with_mult_div a 0 0, U64_MAX)
                 = Return (with_mult_div a m dv, 0)).
  { assert (Hr : Forall in_ranges (l1 ++ [(dv, m, od)])).
    { pose proof enumeration_in_ranges as Hall. rewrite E in Hall.
      apply Forall_app in Hall as [Hl1 Hl2]. apply Forall_app. split; [exact Hl1|].
      apply Forall_cons_1 in Hl2 as [Ht _]. by constructor. }
    assert (H0 : search_state ref target a [] (with_mult_div a 0 0, U64_MAX)).
    { left. split; [|reflexivity]. intros t Ht. by apply elem_of_nil in Ht. }
    pose proof (run_list_search ref target a Href Htgt _ [] _ Hr H0) as H.
    simpl app in H.
    assert (Hin : (dv, m, od) ∈ l1 ++ [(dv, m, od)])
      by (apply elem_of_app; right; by left).
    destruct (run_list _ _ _) as [s|[inp ret]|]; simpl in H.
    - exfalso. destruct H as [[Hnone _]|(d0 & m0 & o0 & Hfb & Hne & _)].
      + exact (Hnone _ Hin Hok).
      + destruct Hfb as (k1 & k2 & Ek & _ & Hk1 & Hk2). rewrite Ek in Hin.
        pose proof (err_nonneg ref target (d0, m0, o0)).
        apply elem_of_app in Hin as [Hin|[Hin|Hin]%elem_of_cons].
        * specialize (Hk1 _ Hin Hok). lia.
        * rewrite <- Hin in Hne. contradiction.
        * specialize (Hk2 _ Hin Hok). lia.
    - destruct H as (-> & d0 & m0 & o0 & Hfb & Hz & ->).
      pose proof (first_best_in _ _ _ _ Hfb) as Hin0.
      destruct Hfb as (_ & _ & _ & Hok0 & _).
      apply elem_of_app in Hin0 as [Hin0|Hin0%list_elem_of_singleton].
      + destruct (Hbefore _ Hin0 Hok0 Hz).
      + by injection Hin0 as -> -> ->.
    - destruct H. }
  split; [exact Hrun|].
  rewrite input_mult_div_loops_enumeration, E.
  replace (l1 ++ (dv, m, od) :: l2) with ((l1 ++ [(dv, m, od)]) ++ l2)
    by (rewrite <- app_assoc; reflexivity).
  rewrite run_list_app, Hrun. reflexivity.
Qed.

(** C2: the full search visits pre_divider 1..56 (outer loop),
    multiplier 2..64 (middle loop) and output_divider 1..128 (inner
    loop), keeps only candidates whose VCO frequency
    floor(reference * multiplier / pre_divider) is in
    [600 MHz, 1600 MHz], and on success leaves in the input stage the
    multiplier and pre-divider of the first candidate, in visiting
    order, that attains the least absolute frequency error; its loops
    return at the first candidate of error 0; it fails exactly when no
    candidate is in the VCO window. *)
Theorem full_search_first_minimum (d : logiclk_data) (i : nat)
    (o : logiclk_output) :
  output d !! i = Some o →
  0 ≤ clk_freq (input d) < 2 ^ 32 → 0 ≤ clkout_freq o < 2 ^ 32 →
  let reference := clk_freq (input d) in
  let target := clkout_freq o in
  let start := (with_mult_div (input d) 0 0, U64_MAX) in
  (∀ s, input_mult_div_loops reference target s
        = run_list (λ '(dv, m, od), input_mult_div_body reference target dv m od)
                   enumeration s)
  ∧ StronglySorted visited_before enumeration
  ∧ (∀ dv m od, (dv, m, od) ∈ enumeration
       ↔ 1 ≤ dv ≤ 56 ∧ 2 ≤ m ≤ 64 ∧ 1 ≤ od ≤ 128)
  ∧ (∀ l1 dv m od l2,
       enumeration = l1 ++ (dv, m, od) :: l2 →
       vco_ok reference (dv, m, od) →
       freq_error reference target (dv, m, od) = 0 →
       (∀ t', t' ∈ l1 → vco_ok reference t' →
          freq_error reference target t' ≠ 0) →
       input_mult_div_loops reference target start
       = run_list (λ '(dv, m, od), input_mult_div_body reference target dv m od)
                  (l1 ++ [(dv, m, od)]) start)
  ∧ ∃ ret d',
      logiclk_pll_input_mult_div d i = Some (ret, d')
      ∧ (ret = 0 ∨ ret = - EINVAL)
      ∧ (ret = - EINVAL ↔
           ∀ dv m, 1 ≤ dv ≤ 56 → 2 ≤ m ≤ 64 →
             ¬ (MMCM_VCO_FREQ_MIN ≤ vco reference dv m ≤ MMCM_VCO_FREQ_MAX))
      ∧ (ret = 0 →
           ∃ dv m od,
             clkfbout_mult (input d') = m ∧ divclk_divide (input d') = dv
             ∧ (1 ≤ dv ≤ 56 ∧ 2 ≤ m ≤ 64 ∧ 1 ≤ od ≤ 128)
             ∧ vco_ok reference (dv, m, od)
             ∧ ∀ dv' m' od',
                 1 ≤ dv' ≤ 56 ∧ 2 ≤ m' ≤ 64 ∧ 1 ≤ od' ≤ 128 →
                 vco_ok reference (dv', m', od') →
                 freq_error reference target (dv, m, od)
                   ≤ freq_error reference target (dv', m', od')
                 ∧ (visited_before (dv', m', od') (dv, m, od) →
                      freq_error reference target (dv, m, od)
                        < freq_error reference target (dv', m', od'))).
Proof.
  intros Ho Href Htgt reference target start.
  split; [apply input_mult_div_loops_enumeration|].
  split; [apply enumeration_sorted|].
  split; [apply elem_of_enumeration|].
  split.
  { intros l1 dv m od l2 E Hok E0 Hbefore.
    destruct (full_search_returns_at_zero reference target (input d)
                l1 dv m od l2 Href Htgt E Hok E0 Hbefore) as [E1 E2].
    subst start. rewrite E2. symmetry. exact E1. }
  assert (Hnone_iff :
    (∀ t, t ∈ enumeration → ¬ vco_ok reference t) ↔
    (∀ dv m, 1 ≤ dv ≤ 56 → 2 ≤ m ≤ 64 →
       ¬ (MMCM_VCO_FREQ_MIN ≤ vco reference dv m ≤ MMCM_VCO_FREQ_MAX))).
  { split.
    - intros H dv m Hd Hm. apply (H (dv, m, 1)).
      apply elem_of_enumeration. lia.
    - intros H [[dv m] od] Hin%elem_of_enumeration. apply H; lia. }
  destruct (input_mult_div_outcome d i o Ho Href Htgt)
    as [[Hnone ->]|(dv & m & od & Hfb & ->)].
  - eexists _, _. split; [reflexivity|]. split; [by right|].
    split; [split; [intros _; exact (proj1 Hnone_iff Hnone)|reflexivity]|].
    unfold EINVAL. intros ?. lia.
  - apply first_best_order in Hfb as (Hin & Hok & Hbest).
    eexists _, _. split; [reflexivity|]. split; [by left|]. split.
    + split; [unfold EINVAL; intros ?; lia|].
      intros Hnone. destruct (proj2 Hnone_iff Hnone _ Hin Hok).
    + intros _. exists dv, m, od. split; [reflexivity|]. split; [reflexivity|].
      split; [by apply elem_of_enumeration|]. split; [exact Hok|].
      intros dv' m' od' Hr Hok'. apply Hbest; [|exact Hok'].
      by apply elem_of_enumeration.
Qed.

(** C5: when the full search succeeds, the input stage it leaves has a
    multiplier in 2..64, a pre-divider in 1..56 and a VCO frequency
    floor(reference * multiplier / pre_divider) in [600 MHz, 1600 MHz]. *)
Theorem full_search_vco_invariant (d d' : logiclk_data) (i : nat)
    (o : logiclk_output) :
  output d !! i = Some o →
  0 ≤ clk_freq (input d) < 2 ^ 32 → 0 ≤ clkout_freq o < 2 ^ 32 →
  logiclk_pll_input_mult_div d i = Some (0, d') →
  2 ≤ clkfbout_mult (input d') ≤ 64
  ∧ 1 ≤ divclk_divide (input d') ≤ 56
  ∧ MMCM_VCO_FREQ_MIN
      ≤ clk_freq (input d') * clkfbout_mult (input d') / divclk_divide (input d')
      ≤ MMCM_VCO_FREQ_MAX.
Proof.
  intros Ho Href Htgt Hrun.
  destruct (input_mult_div_outcome d i o Ho Href Htgt)
    as [[_ E]|(dv & m & od & Hfb & E)]; rewrite E in Hrun.
  - discriminate.
  - injection Hrun as <-. simpl.
    pose proof (first_best_in _ _ _ _ Hfb) as Hin.
    apply elem_of_enumeration in Hin.
    destruct Hfb as (_ & _ & _ & Hok & _). unfold vco_ok, vco in Hok. lia.
Qed.

(** ** The output-divider search *)

(** The first candidate always beats the initial error [(u64)-1]. *)
Lemma output_div_first_candidate f target :
  output_div_body f target 1 (0, U64_MAX) = Return 1
  ∨ ∃ e, e < U64_MAX ∧ output_div_body f target 1 (0, U64_MAX) = Next (1, e).
Proof.
  unfold output_div_body, div_u64.
  change (1 =? 0) with false. cbv iota beta.
  pose proof (abs64_below_max (f / 1 - target)) as Hlt.
  apply Z.ltb_lt in Hlt as Hb. rewrite Hb.
  destruct (_ =? 0); [by left|right; eauto].
Qed.

(** Once a candidate has been taken, [clkout_div] stays a candidate. *)
Lemma output_div_loop_range f target n :
  ∀ i cd e, 1 ≤ i → i + Z.of_nat n ≤ 129 → 1 ≤ cd ≤ 128 →
  match for_loop n i (output_div_body f target) (cd, e) with
  | Next (cd', _) => 1 ≤ cd' ≤ 128
  | Return r => 1 ≤ r ≤ 128
  | Fault => False
  end.
Proof.
  induction n as [|n IH]; intros i cd e Hi Hn Hcd.
  - exact Hcd.
  - rewrite for_loop_S. unfold output_div_body at 1, div_u64.
    destruct (Z.eqb_spec i 0); [lia|].
    destruct (_ <? e).
    + destruct (_ =? 0); [lia|]. apply IH; lia.
    + apply IH; lia.
Qed.

Lemma output_div_outcome d i o :
  output d !! i = Some o →
  match logiclk_pll_output_div d i with
  | Some r => 1 ≤ r ≤ 128
  | None => divclk_divide (input d) = 0
  end.
Proof.
  intros Ho. unfold logiclk_pll_output_div, div_u64. rewrite Ho. simpl.
  destruct (Z.eqb_spec (divclk_divide (input d)) 0) as [E|E]; [exact E|].
  simpl. set (f := _ / divclk_divide (input d)).
  unfold for_range.
  change (Z.to_nat (MMCM_CLKOUT_DIVIDE_MAX + 1 - MMCM_CLKOUT_DIVIDE_MIN))
    with (S 127).
  change MMCM_CLKOUT_DIVIDE_MIN with 1.
  rewrite for_loop_S.
  destruct (output_div_first_candidate f (clkout_freq o))
    as [->|(e & _ & ->)]; [lia|].
  pose proof (output_div_loop_range f (clkout_freq o) 127 (1 + 1) 1 e
                ltac:(lia) ltac:(lia) ltac:(lia)) as H.
  destruct (for_loop 127 _ _ _) as [[cd' e']|r|]; [exact H|exact H|destruct H].
Qed.

(** C9: for any reference frequency, multiplier and non-zero
    pre-divider and any target frequency, logiclk_pll_output_div returns
    a divider in 1..128; its initial 0 is never returned, because the
    first candidate always improves on the initial error. *)
Theorem output_div_in_range (d : logiclk_data) (i : nat) (o : logiclk_output) :
  output d !! i = Some o →
  (∀ f, output_div_body f (clkout_freq o) 1 (0, U64_MAX) = Return 1
        ∨ ∃ e, e < U64_MAX
               ∧ output_div_body f (clkout_freq o) 1 (0, U64_MAX) = Next (1, e))
  ∧ (∀ r, logiclk_pll_output_div d i = Some r → 1 ≤ r ≤ 128)
  ∧ (divclk_divide (input d) ≠ 0 →
       ∃ r, logiclk_pll_output_div d i = Some r ∧ 1 ≤ r ≤ 128).
Proof.
  intros Ho. split; [intros f; apply output_div_first_candidate|].
  pose proof (output_div_outcome d i o Ho) as H.
  destruct (logiclk_pll_output_div d i) as [r|].
  - split; [intros ? [= <-]; exact H|]. intros _. by exists r.
  - split; [discriminate|]. intros Hne. contradiction.
Qed.

(** ** A validated reference always has a candidate *)

(** For a reference in 10..800 MHz some multiplier reaches the VCO
    window already with pre-divider 1. *)
Lemma validated_reference_feasible ref :
  MMCM_INPUT_FREQ_MIN ≤ ref ≤ MMCM_INPUT_FREQ_MAX →
  ∃ t, t ∈ enumeration ∧ vco_ok ref t.
Proof.
  unfold MMCM_INPUT_FREQ_MIN, MMCM_INPUT_FREQ_MAX. intros Href.
  destruct (Z_lt_le_dec ref 300000000) as [Hlow|Hhigh].
  - set (m := (600000000 + ref - 1) / ref).
    pose proof (Z.div_mod (600000000 + ref - 1) ref ltac:(lia)) as Hdm.
    pose proof (Z.mod_pos_bound (600000000 + ref - 1) ref ltac:(lia)) as Hr.
    fold m in Hdm.
    assert (3 ≤ m ≤ 60) by nia.
    exists (1, m, 1). split; [apply elem_of_enumeration; lia|].
    unfold vco_ok, vco, MMCM_VCO_FREQ_MIN, MMCM_VCO_FREQ_MAX.
    rewrite Z.div_1_r. nia.
  - exists (1, 2, 1). split; [apply elem_of_enumeration; lia|].
    unfold vco_ok, vco, MMCM_VCO_FREQ_MIN, MMCM_VCO_FREQ_MAX.
    rewrite Z.div_1_r. lia.
Qed.


(** ** Rate changes that fail in the full search *)

(** The full search fails only when no candidate is in the VCO window,
    which takes a reference outside 10..800 MHz (see
    validated_reference_search_succeeds below); the lemmas of this part
    describe the calls on such a state. *)

Lemma no_candidate_not_best ref target t :
  (∀ t', t' ∈ enumeration → ¬ vco_ok ref t') →
  ¬ first_best ref target enumeration t.
Proof.
  intros Hnone Hfb. pose proof (first_best_in _ _ _ _ Hfb) as Hin.
  destruct Hfb as (_ & _ & _ & Hok & _). exact (Hnone t Hin Hok).
Qed.

(** [logiclk_calc_params] on the precise output when no candidate is in
    the VCO window: the error comes back with the multiplier and the
    pre-divider of the input stage zeroed. *)
Lemma calc_params_no_candidate d i o :
  output d !! i = Some o → precise o = true →
  MMCM_OUTPUT_FREQ_MIN ≤ clkout_freq o ≤ MMCM_OUTPUT_FREQ_MAX →
  0 ≤ clk_freq (input d) < 2 ^ 32 →
  (∀ t, t ∈ enumeration → ¬ vco_ok (clk_freq (input d)) t) →
  logiclk_calc_params d i
  = Some (- EINVAL, set_input (with_mult_div (input d) 0 0) d).
Proof.
  intros Ho Hp Hf Href Hnone. unfold logiclk_calc_params.
  rewrite Ho. simpl. rewrite Hp.
  destruct (Z.ltb_spec (clkout_freq o) MMCM_OUTPUT_FREQ_MIN); [lia|].
  destruct (Z.ltb_spec MMCM_OUTPUT_FREQ_MAX (clkout_freq o)); [lia|].
  simpl.
  destruct (input_mult_div_outcome d i o Ho Href)
    as [[_ ->]|(dv & m & od & Hfb & _)].
  - unfold MMCM_OUTPUT_FREQ_MIN, MMCM_OUTPUT_FREQ_MAX in Hf. lia.
  - reflexivity.
  - destruct (no_candidate_not_best _ _ _ Hnone Hfb).
Qed.

Section FailedSearch.

Variables (d : logiclk_data) (i : nat) (o : logiclk_output) (rate : Z).
Hypothesis output_i : output d !! i = Some o.
Hypothesis precise_i : precise o = true.
Hypothesis rate_ok :
  MMCM_OUTPUT_FREQ_MIN ≤ wrap32 rate ≤ MMCM_OUTPUT_FREQ_MAX.
Hypothesis reference_u32 : 0 ≤ clk_freq (input d) < 2 ^ 32.
Hypothesis no_candidate :
  ∀ t, t ∈ enumeration → ¬ vco_ok (clk_freq (input d)) t.

Lemma tentative_lookup : output (tentative d i o rate) !! i
                         = Some (set_clkout_freq (wrap32 rate) o).
Proof.
  simpl. apply list_lookup_insert_eq. eapply lookup_lt_Some, output_i.
Qed.

Lemma tentative_calc_no_candidate :
  logiclk_calc_params (tentative d i o rate) i
  = Some (- EINVAL,
          set_input (with_mult_div (input d) 0 0) (tentative d i o rate)).
Proof.
  apply (calc_params_no_candidate (tentative d i o rate) i
           (set_clkout_freq (wrap32 rate) o)).
  - apply tentative_lookup.
  - exact precise_i.
  - exact rate_ok.
  - exact reference_u32.
  - exact no_candidate.
Qed.

Lemma pop_tentative inp :
  logiclk_stack_params (set_input inp (tentative d i o rate))
    i LOGICLK_STACK_POP
  = Some (rolled_back d o inp).
Proof.
  unfold logiclk_stack_params, store. simpl.
  pose proof (lookup_lt_Some _ _ _ output_i) as Hlen.
  rewrite length_insert. destruct (decide (i < length (output d))%nat); [|lia].
  simpl. rewrite list_insert_insert_eq, (list_insert_id _ _ _ output_i).
  reflexivity.
Qed.

Lemma push_snapshot :
  logiclk_stack_params d i LOGICLK_STACK_PUSH
  = Some {| input := input d; output := output d; output_stack := o;
            man_regs := man_regs d; man_regs_stack := man_regs d |}.
Proof. unfold logiclk_stack_params. simpl. rewrite output_i. reflexivity. Qed.

(** A Propose that fails in the full search restores the outputs and
    the registers, and leaves the input stage with multiplier and
    pre-divider 0. *)
Lemma round_rate_no_candidate :
  logiclk_round_rate d i rate
  = Some (- EINVAL, rolled_back d o (with_mult_div (input d) 0 0)).
Proof.
  unfold logiclk_round_rate. rewrite push_snapshot. simpl.
  rewrite output_i. simpl. fold (tentative d i o rate).
  rewrite tentative_calc_no_candidate. simpl.
  rewrite pop_tentative. reflexivity.
Qed.

(** The same for a Commit of a rate other than the current one. *)
Lemma set_rate_no_candidate rd :
  rate ≠ clkout_freq o →
  logiclk_set_rate rd d i rate
  = Some (- EINVAL, rolled_back d o (with_mult_div (input d) 0 0), []).
Proof.
  intros Hne. unfold logiclk_set_rate. rewrite output_i. simpl.
  destruct (Z.eqb_spec rate (clkout_freq o)); [contradiction|]. simpl.
  rewrite push_snapshot. simpl. fold (tentative d i o rate).
  rewrite tentative_calc_no_candidate. simpl.
  rewrite pop_tentative. reflexivity.
Qed.

End FailedSearch.

Lemma device_9MHz_no_candidate t :
  t ∈ enumeration → ¬ vco_ok (clk_freq (input device_9MHz)) t.
Proof.
  destruct t as [[dv m] od]. intros Hin%elem_of_enumeration [Hlo _].
  unfold vco, MMCM_VCO_FREQ_MIN in Hlo. simpl in Hlo.
  assert (9000000 * m / dv ≤ 576000000)
    by (apply Z.div_le_upper_bound; nia).
  lia.
Qed.

(** What the rollback leaves out.  With a reference of 9 MHz, which
    configuration load refuses, no candidate is in the VCO window: a
    Propose or Commit on the precise output then returns its error with
    the outputs and the registers restored, but with the multiplier and
    the pre-divider of the input stage changed from 8 and 1 to 0.  No
    loaded device gets there (see failed_rate_change_rolled_back). *)
Lemma failed_search_zeroes_input_stage (rd : nat → Z) :
  ∃ d',
    logiclk_round_rate device_9MHz 0 50000000
      = Some (- EINVAL, d')
    ∧ logiclk_set_rate rd device_9MHz 0 50000000 = Some (- EINVAL, d', [])
    ∧ output d' = output device_9MHz
    ∧ man_regs d' = man_regs device_9MHz
    ∧ clk_freq (input d') = clk_freq (input device_9MHz)
    ∧ clkfbout_phase (input d') = clkfbout_phase (input device_9MHz)
    ∧ bw_high (input d') = bw_high (input device_9MHz)
    ∧ clkfbout_mult (input device_9MHz) = 8
    ∧ divclk_divide (input device_9MHz) = 1
    ∧ clkfbout_mult (input d') = 0
    ∧ divclk_divide (input d') = 0.
Proof.
  eexists. split.
  - eapply (round_rate_no_candidate device_9MHz 0);
      [reflexivity|reflexivity|vm_compute; split; discriminate
      |simpl; lia|apply device_9MHz_no_candidate].
  - split.
    + eapply (set_rate_no_candidate device_9MHz 0);
        [reflexivity|reflexivity|vm_compute; split; discriminate
        |simpl; lia|apply device_9MHz_no_candidate|discriminate].
    + repeat split.
Qed.

(** ** The register packer *)

Lemma store_Some {A} (arr : list A) idx v :
  (idx < length arr)%nat → store arr idx v = Some (<[idx := v]> arr).
Proof. intros H. unfold store. destruct (decide _); [reflexivity|lia]. Qed.

Lemma store_inv {A} (arr arr' : list A) idx v :
  store arr idx v = Some arr' →
  (idx < length arr)%nat ∧ arr' = <[idx := v]> arr.
Proof. unfold store. destruct (decide _); [intros [= <-]; auto|discriminate]. Qed.

(** The register image written by [logiclk_man_reg_params] for the
    filter word [filter] and the lock word [lock]. *)
Lemma man_reg_params_image d i o filter lock :
  output d !! i = Some o →
  length (man_regs d) = 21%nat →
  logiclk_pll_lut_filter (wrap32 (clkfbout_mult (input d) - 1))
                         (bw_high (input d)) = Some filter →
  logiclk_pll_lut_lock (wrap32 (clkfbout_mult (input d) - 1)) = Some lock →
  ∃ r13 r14 r15,
    logiclk_man_reg_params d i
    = Some (set_man_regs
              (<[20%nat := (filter_regs filter).2]>
              (<[19%nat := (filter_regs filter).1]>
              (<[18%nat := (lock_regs lock).2]>
              (<[17%nat := (lock_regs lock).1.2]>
              (<[16%nat := (lock_regs lock).1.1]>
              (<[15%nat := r15]> (<[14%nat := r14]> (<[13%nat := r13]>
              (<[0%nat := 0xFFFF]> (man_regs d)))))))))) d).
Proof.
  intros Ho Hlen Hf Hl. unfold logiclk_man_reg_params.
  rewrite Ho. simpl. rewrite Hf. simpl. rewrite Hl. simpl.
  destruct (lock_regs lock) as [[r16 r17] r18].
  destruct (filter_regs filter) as [r19 r20]. simpl.
  eexists _, _, _.
  repeat (rewrite store_Some by (rewrite ?length_insert, Hlen; lia); simpl).
  reflexivity.
Qed.

(** For a multiplier [m] in 2..64 both tables are read at index [m - 2]:
    the caller passes [m - 1] and the lookup subtracts 1 again. *)
Lemma lut_index m bw :
  2 ≤ m ≤ 64 →
  logiclk_pll_lut_filter (wrap32 (m - 1)) bw
    = (if bw then lut_high else lut_low) !! Z.to_nat (m - 2)
  ∧ logiclk_pll_lut_lock (wrap32 (m - 1)) = lut_lock !! Z.to_nat (m - 2)
  ∧ is_Some ((if bw then lut_high else lut_low) !! Z.to_nat (m - 2))
  ∧ is_Some (lut_lock !! Z.to_nat (m - 2)).
Proof.
  intros Hm. unfold logiclk_pll_lut_filter, logiclk_pll_lut_lock.
  rewrite (wrap32_id (m - 1)) by lia.
  replace (m - 1 - 1) with (m - 2) by lia. rewrite wrap32_id by lia.
  split; [by destruct bw|]. split; [reflexivity|].
  split; [destruct bw|]; apply lookup_lt_is_Some_2;
    change (length _) with 64%nat; lia.
Qed.

(** C3: for the multiplier 3 in high-bandwidth mode, registers 19-20
    hold the packed filter entry at index 1 (0x3FC), not the entry at
    index 2 (0x3F4), and registers 16-18 hold the packed lock entry at
    index 1, not the entry at index 2. *)
Theorem lut_entries_for_mult_3 :
  clkfbout_mult (input device_800MHz_committed) = 3
  ∧ bw_high (input device_800MHz_committed) = true
  ∧ lut_high !! 1%nat = Some 0x3FC ∧ lut_high !! 2%nat = Some 0x3F4
  ∧ lut_lock !! 1%nat = Some 0x31BE8FA401
  ∧ lut_lock !! 2%nat = Some 0x423E8FA401
  ∧ ∃ d', logiclk_man_reg_params device_800MHz_committed 0 = Some d'
      ∧ (man_regs d' !! 19%nat, man_regs d' !! 20%nat)
        = (Some (filter_regs 0x3FC).1, Some (filter_regs 0x3FC).2)
      ∧ (man_regs d' !! 16%nat, man_regs d' !! 17%nat, man_regs d' !! 18%nat)
        = (Some (lock_regs 0x31BE8FA401).1.1, Some (lock_regs 0x31BE8FA401).1.2,
           Some (lock_regs 0x31BE8FA401).2)
      ∧ filter_regs 0x3FC ≠ filter_regs 0x3F4
      ∧ lock_regs 0x31BE8FA401 ≠ lock_regs 0x423E8FA401.
Proof.
  repeat (split; [reflexivity|]).
  eexists. split; [vm_compute; reflexivity|].
  split; [reflexivity|]. split; [reflexivity|].
  split; vm_compute; discriminate.
Qed.

(** For every multiplier in 2..64, registers 16..20 hold the packed
    lock and filter entries found at index [m - 2] of the tables. *)
Lemma man_reg_params_tables d i o :
  output d !! i = Some o →
  length (man_regs d) = 21%nat →
  2 ≤ clkfbout_mult (input d) ≤ 64 →
  ∃ filter lock d',
    (if bw_high (input d) then lut_high else lut_low)
      !! Z.to_nat (clkfbout_mult (input d) - 2) = Some filter
    ∧ lut_lock !! Z.to_nat (clkfbout_mult (input d) - 2) = Some lock
    ∧ logiclk_man_reg_params d i = Some d'
    ∧ man_regs d' !! 16%nat = Some (lock_regs lock).1.1
    ∧ man_regs d' !! 17%nat = Some (lock_regs lock).1.2
    ∧ man_regs d' !! 18%nat = Some (lock_regs lock).2
    ∧ man_regs d' !! 19%nat = Some (filter_regs filter).1
    ∧ man_regs d' !! 20%nat = Some (filter_regs filter).2.
Proof.
  intros Ho Hlen Hm.
  destruct (lut_index (clkfbout_mult (input d)) (bw_high (input d)) Hm)
    as (Ef & El & [filter Hf] & [lock Hl]).
  exists filter, lock.
  destruct (man_reg_params_image d i o filter lock Ho Hlen)
    as (r13 & r14 & r15 & ->); [congruence|congruence|].
  eexists. split; [exact Hf|]. split; [exact Hl|]. split; [reflexivity|].
  simpl.
  repeat split;
    repeat first
      [ rewrite list_lookup_insert_eq by (rewrite ?length_insert, Hlen; lia);
        reflexivity
      | rewrite list_lookup_insert_ne by lia ].
Qed.

Ltac store_step H :=
  match type of H with
  | context [store ?r ?k ?v] =>
      let E := fresh "E" in
      let L := fresh "L" in
      destruct (store r k v) eqn:E; simpl in H; [|discriminate H];
      apply store_inv in E as [L ->]
  end.

(** What [logiclk_man_reg_params] leaves alone. *)
Lemma man_reg_params_inv d i d' :
  logiclk_man_reg_params d i = Some d' →
  input d' = input d ∧ output d' = output d
  ∧ length (man_regs d') = length (man_regs d)
  ∧ man_regs d' !! 0%nat = Some 0xFFFF
  ∧ ∀ k : nat, k ≠ 0%nat → ¬ (13 ≤ k ≤ 20)%nat →
      man_regs d' !! k = man_regs d !! k.
Proof.
  unfold logiclk_man_reg_params. intros H.
  destruct (output d !! i) as [o|]; simpl in H; [|discriminate].
  destruct (logiclk_pll_lut_filter _ _) as [filter|]; simpl in H; [|discriminate].
  destruct (logiclk_pll_lut_lock _) as [lock|]; simpl in H; [|discriminate].
  destruct (lock_regs lock) as [[r16 r17] r18].
  destruct (filter_regs filter) as [r19 r20].
  do 9 store_step H.
  injection H as <-. simpl.
  split; [reflexivity|]. split; [reflexivity|].
  split; [by rewrite !length_insert|]. split.
  - rewrite !list_lookup_insert_ne by lia.
    apply list_lookup_insert_eq. lia.
  - intros k Hk0 Hk. rewrite !list_lookup_insert_ne by lia. reflexivity.
Qed.

(** What [logiclk_man_reg_params_id] leaves alone: everything but the
    output itself and its own register pair. *)
Lemma man_reg_params_id_inv d i id_ d' :
  logiclk_man_reg_params_id d i id_ = Some d' →
  input d' = input d
  ∧ length (man_regs d') = length (man_regs d)
  ∧ (∃ o', output d' = <[i := o']> (output d))
  ∧ ∀ k : nat,
      k ≠ Z.to_nat (wrap32 (LOGICLK_PLL_REG_OFF + id_ * 2)) →
      k ≠ Z.to_nat (wrap32 (LOGICLK_PLL_REG_OFF + 1 + id_ * 2)) →
      man_regs d' !! k = man_regs d !! k.
Proof.
  unfold logiclk_man_reg_params_id. intros H.
  destruct (output d !! i) as [o|]; simpl in H; [|discriminate].
  destruct (div_u64 _ (divclk_divide (input d))) as [f|]; simpl in H;
    [|discriminate].
  destruct (logiclk_pll_output_div d i) as [cd|]; simpl in H; [|discriminate].
  do 2 store_step H.
  destruct (div_u64 f cd) as [q|]; simpl in H; [|discriminate].
  injection H as <-. simpl.
  split; [reflexivity|]. split; [by rewrite !length_insert|].
  split; [eauto|].
  intros k Hk1 Hk2. rewrite !list_lookup_insert_ne by lia. reflexivity.
Qed.


(** ** Rate operations on a non-precise output *)

Lemma calc_params_nonprecise d i o :
  output d !! i = Some o → precise o = false →
  logiclk_calc_params d i
  = if (clkout_freq o <? MMCM_OUTPUT_FREQ_MIN)
       || (MMCM_OUTPUT_FREQ_MAX <? clkout_freq o)
    then Some (- EINVAL, d)
    else d1 ← logiclk_man_reg_params_id d i (id o); Some (0, d1).
Proof.
  intros Ho Hp. unfold logiclk_calc_params. rewrite Ho. simpl.
  rewrite Hp. reflexivity.
Qed.

Section NonPrecise.

Variables (d : logiclk_data) (i : nat) (o : logiclk_output) (rate : Z).
Hypothesis output_i : output d !! i = Some o.
Hypothesis nonprecise_i : precise o = false.
Hypothesis id_i : 0 ≤ id o ≤ 5.
Hypothesis regs_21 : length (man_regs d) = 21%nat.
Hypothesis divclk_nonzero : divclk_divide (input d) ≠ 0.





End NonPrecise.

Example device_800MHz_commit :
  logiclk_calc_params device_800MHz 0 = Some (0, device_800MHz_committed).
Proof. vm_compute. reflexivity. Qed.






(** * Further properties of the encoders *)

(** ** Rounding *)

Lemma land_pow2 x b :
  0 ≤ b → Z.land x (2 ^ b) = if Z.testbit x b then 2 ^ b else 0.
Proof.
  intros Hb. apply Z.bits_inj'. intros k Hk.
  rewrite Z.land_spec, Z.pow2_bits_eqb by lia.
  destruct (Z.eqb_spec b k) as [->|Hne].
  - destruct (Z.testbit x k); simpl.
    + rewrite Z.pow2_bits_true by lia. reflexivity.
    + rewrite Z.bits_0. reflexivity.
  - rewrite andb_false_r. destruct (Z.testbit x b).
    + rewrite Z.pow2_bits_false by lia. reflexivity.
    + rewrite Z.bits_0. reflexivity.
Qed.

(** The bits of a rounded fraction. *)
Lemma round_fraction_bits (decimal precision : Z) :
  0 ≤ decimal → 0 ≤ precision ≤ 9 →
  decimal + 2 ^ (9 - precision) < 2 ^ 32 →
  logiclk_round_fraction decimal precision / 2 ^ (9 - precision + 1)
    = (decimal + 2 ^ (9 - precision)) / 2 ^ (9 - precision + 1)
  ∧ Z.testbit (logiclk_round_fraction decimal precision) (9 - precision) = false.
Proof.
  intros Hx Hp Hb. unfold logiclk_round_fraction, LOGICLK_FRACTION_PRECISION.
  replace (10 - precision - 1) with (9 - precision) by lia.
  set (b := 9 - precision) in *. assert (0 ≤ b) by lia.
  rewrite Z.shiftl_1_l, land_pow2 by lia.
  assert (Hpos : 0 < 2 ^ b) by (apply Z.pow_pos_nonneg; lia).
  rewrite Z.pow_add_r by lia. change (2 ^ 1) with 2.
  rewrite <- !Z.div_div by lia.
  replace (decimal + 2 ^ b) with (decimal + 1 * 2 ^ b) by lia.
  rewrite Z.div_add by lia.
  pose proof (Z.testbit_spec' decimal b ltac:(lia)) as Hbit.
  pose proof (Z.div_pos decimal (2 ^ b) ltac:(lia) ltac:(lia)) as Hq.
  set (q := decimal / 2 ^ b) in *.
  destruct (Z.testbit decimal b) eqn:Eb; simpl in Hbit.
  - destruct (Z.eqb_spec (2 ^ b) 0); [lia|].
    rewrite wrap32_id by lia.
    replace (decimal + 1 * 2 ^ b) with (decimal + 2 ^ b) by lia.
    replace (decimal + 2 ^ b) with (decimal + 1 * 2 ^ b) at 1 by lia.
    rewrite Z.div_add by lia. fold q. split; [reflexivity|].
    apply Z.b2z_inj. rewrite Z.testbit_spec' by lia.
    replace (decimal + 2 ^ b) with (decimal + 1 * 2 ^ b) by lia.
    rewrite Z.div_add by lia. fold q. simpl.
    pose proof (Z.div_mod q 2 ltac:(lia)).
    pose proof (Z.div_mod (q + 1) 2 ltac:(lia)).
    pose proof (Z.mod_pos_bound (q + 1) 2 ltac:(lia)). lia.
  - simpl. fold q. split; [|exact Eb].
    pose proof (Z.div_mod q 2 ltac:(lia)).
    pose proof (Z.div_mod (q + 1) 2 ltac:(lia)).
    pose proof (Z.mod_pos_bound (q + 1) 2 ltac:(lia)). lia.
Qed.

(** X1: logiclk_round_fraction rounds half up at bit [b + 1], where
    [b = 10 - precision - 1]: the bits above [b] of the result are those
    of [decimal + 2^b], and bit [b] of the result is clear. *)
Theorem round_fraction_half_up (decimal precision : Z) :
  0 ≤ decimal → 0 ≤ precision ≤ 9 →
  decimal + 2 ^ (9 - precision) < 2 ^ 32 →
  logiclk_round_fraction decimal precision / 2 ^ (9 - precision + 1)
    = (decimal + 2 ^ (9 - precision)) / 2 ^ (9 - precision + 1)
  ∧ Z.testbit (logiclk_round_fraction decimal precision) (9 - precision) = false.
Proof. exact (round_fraction_bits decimal precision). Qed.

(** ** The duty encoding in half cycles *)

Lemma div_fields_of_temp divide duty :
  divide ≠ 1 →
  let duty_fix := wrap32 (Z.shiftl duty LOGICLK_FRACTION_PRECISION) / 100000 in
  let temp := logiclk_round_fraction (wrap32 (duty_fix * divide)) 1 in
  let high0 := logiclk_get_bits temp 16 10 in
  let edge0 := logiclk_get_bits temp 9 9 in
  logiclk_pll_div_fields divide duty =
    if high0 =? 0 then
      {| low_time := wrap32 (divide - 1); high_time := 1; no_count := 0;
         edge := 0 |}
    else if high0 =? divide then
      {| low_time := wrap32 (divide - wrap32 (divide - 1));
         high_time := wrap32 (divide - 1); no_count := 0; edge := 1 |}
    else
      {| low_time := wrap32 (divide - high0); high_time := high0;
         no_count := 0; edge := edge0 |}.
Proof.
  intros Hd. unfold logiclk_pll_div_fields.
  destruct (Z.eqb_spec divide 1); [contradiction|].
  unfold LOGICLK_FRACTION_PRECISION.
  change (10 + 6) with 16. change (10 - 1) with 9. cbv zeta.
  destruct (logiclk_get_bits _ 16 10 =? 0) eqn:E0.
  - destruct (Z.eqb_spec 1 divide); [congruence|]. reflexivity.
  - destruct (logiclk_get_bits _ 16 10 =? divide); reflexivity.
Qed.

(** The number of half VCO cycles the output stays high, rounded half
    up, for a duty in 10-bit fixed point. *)
Lemma half_cycles_bounds divide duty :
  2 ≤ divide ≤ 128 → 100 ≤ duty ≤ 99900 →
  let h := (duty * 1024 / 100000 * divide + 256) / 512 in
  0 ≤ h ≤ 256 ∧ h / 2 ≤ divide.
Proof.
  intros Hd Hduty h.
  assert (Hfix : 1 ≤ duty * 1024 / 100000 ≤ 1022).
  { split; [apply Z.div_le_lower_bound; lia|].
    apply Z.lt_succ_r, Z.div_lt_upper_bound; lia. }
  set (fx := duty * 1024 / 100000) in *.
  assert (0 ≤ h ≤ 256).
  { subst h. split; [apply Z.div_pos; nia|].
    apply Z.lt_succ_r, Z.div_lt_upper_bound; nia. }
  split; [assumption|].
  subst h. rewrite Z.div_div by lia.
  apply Z.lt_succ_r, Z.div_lt_upper_bound; nia.
Qed.

(** X2: For a divide in 2..128 and a duty in 100..99900, with [h] the high
    time in half cycles, [(duty_fix * divide + 256) / 512]: the encoder
    stores [h / 2] full cycles and the half cycle [h mod 2] as the edge
    bit; a high time of 0 becomes one full cycle, a high time of the
    whole period becomes [divide - 1] with the edge bit set, and the one
    case [h = 256] (divide 128 at the largest duty) overflows the 7-bit
    field and is stored as one full cycle. *)
Theorem pll_div_half_cycles (divide duty : Z) :
  2 ≤ divide ≤ 128 → 100 ≤ duty ≤ 99900 →
  let h := (duty * 1024 / 100000 * divide + 256) / 512 in
  let f := logiclk_pll_div_fields divide duty in
  (h < 2 ∨ h = 256 → high_time f = 1 ∧ edge f = 0)
  ∧ (2 ≤ h < 256 → h / 2 = divide → high_time f = divide - 1 ∧ edge f = 1)
  ∧ (2 ≤ h < 256 → h / 2 < divide →
       high_time f = h / 2 ∧ edge f = h mod 2)
  ∧ low_time f = divide - high_time f.
Proof.
  intros Hd Hduty h f.
  pose proof (half_cycles_bounds divide duty Hd Hduty) as [Hh Hh2].
  fold h in Hh, Hh2.
  destruct (pll_div_fields_counting divide duty Hd Hduty) as (_ & _ & Hlow).
  fold f in Hlow.
  subst f. rewrite (div_fields_of_temp divide duty) by lia.
  rewrite (div_fields_of_temp divide duty) in Hlow by lia.
  unfold LOGICLK_FRACTION_PRECISION in *.
  rewrite Z.shiftl_mul_pow2 in * by lia. change (2 ^ 10) with 1024 in *.
  rewrite (wrap32_id (duty * 1024)) in * by lia.
  assert (Hfix : 1 ≤ duty * 1024 / 100000 ≤ 1022).
  { split; [apply Z.div_le_lower_bound; lia|].
    apply Z.lt_succ_r, Z.div_lt_upper_bound; lia. }
  set (fx := duty * 1024 / 100000) in *.
  rewrite (wrap32_id (fx * divide)) in * by nia.
  destruct (round_fraction_bits (fx * divide) 1 ltac:(nia) ltac:(lia)
              ltac:(simpl; nia)) as [Hr _].
  change (2 ^ (9 - 1 + 1)) with 512 in Hr. change (2 ^ (9 - 1)) with 256 in Hr.
  fold h in Hr.
  set (temp := logiclk_round_fraction (fx * divide) 1) in *.
  assert (Hhigh : logiclk_get_bits temp 16 10 = (h / 2) mod 128).
  { rewrite get_bits_div_mod by lia. change (2 ^ 10) with (512 * 2).
    rewrite <- Z.div_div by lia. rewrite Hr. reflexivity. }
  assert (Hedge : logiclk_get_bits temp 9 9 = h mod 2).
  { rewrite get_bits_div_mod by lia. change (2 ^ 9) with 512.
    rewrite Hr. reflexivity. }
  rewrite Hhigh, Hedge in *.
  assert (Hcases : h = 256 ∨ h < 256) by lia.
  destruct Hcases as [E256|Hlt].
  - rewrite E256 in *. change (256 / 2 mod 128) with 0 in *. simpl in *.
    repeat split; try lia.
  - assert (0 ≤ h / 2 < 128) by (split; [apply Z.div_pos; lia|
                                 apply Z.div_lt_upper_bound; lia]).
    rewrite (Z.mod_small (h / 2) 128) in * by lia.
    assert (h < 2 ↔ h / 2 = 0).
    { split; intros; [apply Z.div_small; lia|].
      pose proof (Z.div_mod h 2 ltac:(lia)).
      pose proof (Z.mod_pos_bound h 2 ltac:(lia)). lia. }
    destruct (Z.eqb_spec (h / 2) 0) as [E0|E0].
    + simpl in *. repeat split; try lia.
    + destruct (Z.eqb_spec (h / 2) divide) as [E1|E1]; simpl in *.
      * rewrite (wrap32_id (divide - 1)) in * by lia.
        repeat split; try lia.
      * repeat split; try lia.
Qed.

(** ** The packed divide word *)

(** X3: The four fields are read back from the word logiclk_pll_div
    returns, each reduced to the width of its field. *)
Theorem pack_div_fields_roundtrip (f : div_fields) :
  logiclk_get_bits (pack_div_fields f) 5 0 = low_time f mod 64
  ∧ logiclk_get_bits (pack_div_fields f) 11 6 = high_time f mod 64
  ∧ logiclk_get_bits (pack_div_fields f) 12 12 = no_count f mod 2
  ∧ logiclk_get_bits (pack_div_fields f) 13 13 = edge f mod 2.
Proof.
  unfold pack_div_fields. change 0x3F with (Z.ones 6).
  change 0x1 with (Z.ones 1).
  change 2 with (2 ^ 1). change 64 with (2 ^ 6).
  rewrite <- !Z.land_ones by lia.
  repeat split; apply Z.bits_inj'; intros k Hk; bit_open;
    rewrite ?Z.testbit_ones by lia; bit_cases;
    rewrite ?andb_true_r, ?andb_false_r, ?orb_false_r, ?orb_false_l;
    try reflexivity; f_equal; lia.
Qed.

(** ** The phase encoding in eighths of a VCO cycle *)

Lemma phase_word_fields a b :
  let w := Z.lor (Z.land a 0x3F) (Z.shiftl (Z.land b 0x7) 6) in
  logiclk_get_bits w 5 0 = a mod 64 ∧ logiclk_get_bits w 8 6 = b mod 8.
Proof.
  intros w. subst w. change 0x3F with (Z.ones 6). change 0x7 with (Z.ones 3).
  change 64 with (2 ^ 6). change 8 with (2 ^ 3).
  rewrite <- !Z.land_ones by lia.
  split; apply Z.bits_inj'; intros k Hk; bit_open;
    rewrite ?Z.testbit_ones by lia; bit_cases;
    rewrite ?andb_true_r, ?andb_false_r, ?orb_false_r, ?orb_false_l;
    try reflexivity; f_equal; lia.
Qed.

(** Inside the validated range neither shift wraps. *)
Lemma to_s32_wrap_small x : 0 ≤ x < 2 ^ 31 → to_s32 (wrap32 x) = x.
Proof.
  intros Hx. rewrite wrap32_id by lia. unfold to_s32.
  destruct (Z.ltb_spec x (2 ^ 31)); [reflexivity|lia].
Qed.

Lemma to_long_wrap_small x :
  32 ≤ BITS_PER_LONG → 0 ≤ x < 2 ^ 31 → to_long (wrap_ulong x) = x.
Proof.
  intros Hb Hx. unfold to_long, wrap_ulong.
  assert (2 ^ 31 ≤ 2 ^ (BITS_PER_LONG - 1)) by (apply Z.pow_le_mono_r; lia).
  assert (2 ^ (BITS_PER_LONG - 1) ≤ 2 ^ BITS_PER_LONG)
    by (apply Z.pow_le_mono_r; lia).
  rewrite Z.mod_small by lia.
  destruct (Z.ltb_spec x (2 ^ (BITS_PER_LONG - 1))); [reflexivity|lia].
Qed.

(** X4: For a divide in 1..128 and a phase in -360000..360000 millidegrees
    (and a [long] of at least 32 bits), the phase word holds the delay in eighths of a VCO cycle, rounded
    half up and reduced modulo 64 cycles: whole cycles in bits 5:0 and
    eighths in bits 8:6.  A negative phase counts from one full turn
    earlier. *)
Theorem pll_phase_eighths (divide phase : Z) :
  32 ≤ BITS_PER_LONG →
  1 ≤ divide ≤ 128 → - MMCM_PHASE_MAX ≤ phase ≤ MMCM_PHASE_MAX →
  let turn := if phase <? 0 then phase + MMCM_PHASE_MAX else phase in
  let cycles := turn * 1024 / 1000 * divide / 360 in
  let w := logiclk_pll_phase divide phase in
  logiclk_get_bits w 5 0 = ((cycles + 64) / 1024) mod 64
  ∧ logiclk_get_bits w 8 6 = ((cycles + 64) / 128) mod 8
  ∧ logiclk_get_bits w 5 0 * 8 + logiclk_get_bits w 8 6
    = ((cycles + 64) / 128) mod 512.
Proof.
  intros Hbits Hd Hp turn cycles w. unfold MMCM_PHASE_MAX in *.
  assert (Hturn : 0 ≤ turn ≤ 360000) by (subst turn; destruct (phase <? 0) eqn:E;
    [apply Z.ltb_lt in E|apply Z.ltb_ge in E]; lia).
  assert (Hfix : 0 ≤ turn * 1024 / 1000 ≤ 368640).
  { split; [apply Z.div_pos; lia|]. apply Z.div_le_upper_bound; lia. }
  assert (Hw : w = let temp := logiclk_round_fraction cycles 3 in
                   Z.lor (Z.land (logiclk_get_bits temp 15 10) 0x3F)
                         (Z.shiftl (Z.land (logiclk_get_bits temp 9 7) 0x7) 6)).
  { subst w. unfold logiclk_pll_phase, MMCM_PHASE_MAX,
      LOGICLK_FRACTION_PRECISION.
    change (2 ^ 10) with 1024. change (360000 / 1000) with 360.
    change (10 + 5) with 15. change (10 - 1) with 9. change (10 - 3) with 7.
    assert (E : (if phase <? 0
                 then wrap32 (Z.quot (to_long (wrap_ulong
                                                 ((phase + 360000) * 1024)))
                                     1000)
                 else wrap32 (Z.quot (to_s32 (wrap32 (phase * 1024))) 1000))
                = turn * 1024 / 1000).
    { subst turn. destruct (Z.ltb_spec phase 0);
        [rewrite to_long_wrap_small by lia|rewrite to_s32_wrap_small by lia];
        (rewrite Z.quot_div_nonneg by lia); apply wrap32_id; lia. }
    rewrite E. rewrite (wrap32_id (turn * 1024 / 1000 * divide)) by nia.
    reflexivity. }
  assert (Hc : 0 ≤ cycles ≤ 368640 * 128).
  { subst cycles. split; [apply Z.div_pos; nia|].
    apply Z.div_le_upper_bound; nia. }
  destruct (round_fraction_bits cycles 3 ltac:(lia) ltac:(lia)
              ltac:(simpl; lia)) as [Hr _].
  change (2 ^ (9 - 3 + 1)) with 128 in Hr. change (2 ^ (9 - 3)) with 64 in Hr.
  rewrite Hw. cbv zeta.
  set (temp := logiclk_round_fraction cycles 3) in *.
  destruct (phase_word_fields (logiclk_get_bits temp 15 10)
              (logiclk_get_bits temp 9 7)) as [-> ->].
  rewrite !get_bits_div_mod by lia.
  change (2 ^ (15 - 10 + 1)) with 64. change (2 ^ (9 - 7 + 1)) with 8.
  change (2 ^ 7) with 128. change (2 ^ 10) with (128 * 8).
  rewrite <- !Z.div_div by lia. rewrite Hr.
  rewrite !Z.mod_mod by lia.
  replace ((cycles + 64) / 1024) with ((cycles + 64) / 128 / 8)
    by (rewrite Z.div_div by lia; reflexivity).
  set (e := (cycles + 64) / 128).
  assert (0 ≤ e) by (apply Z.div_pos; lia).
  pose proof (Z.div_mod e 8 ltac:(lia)).
  pose proof (Z.mod_pos_bound e 8 ltac:(lia)).
  pose proof (Z.div_mod (e / 8) 64 ltac:(lia)).
  pose proof (Z.mod_pos_bound (e / 8) 64 ltac:(lia)).
  split; [reflexivity|]. split; [reflexivity|].
  apply (Z.mod_unique_pos _ _ (e / 8 / 64)); lia.
Qed.

(** * Further properties of the device state *)

(** ** The parameter stack *)

(** X5: Whatever happens to the device between a push and the pop that
    undoes it, as long as the stack itself is left alone: the pop puts
    output [i] and the register image back to their values at the push,
    and keeps the input stage and the other outputs as they are at the
    pop. *)
Theorem stack_push_pop (d d1 d2 : logiclk_data) (i : nat) (o : logiclk_output) :
  output d !! i = Some o →
  logiclk_stack_params d i LOGICLK_STACK_PUSH = Some d1 →
  output_stack d2 = output_stack d1 →
  man_regs_stack d2 = man_regs_stack d1 →
  length (output d2) = length (output d) →
  ∃ d3, logiclk_stack_params d2 i LOGICLK_STACK_POP = Some d3
    ∧ output d3 !! i = Some o
    ∧ man_regs d3 = man_regs d
    ∧ input d3 = input d2
    ∧ ∀ j, j ≠ i → output d3 !! j = output d2 !! j.
Proof.
  intros Ho Hpush Hos Hrs Hlen.
  rewrite (push_snapshot d i o Ho) in Hpush. injection Hpush as <-.
  simpl in Hos, Hrs.
  pose proof (lookup_lt_Some _ _ _ Ho) as Hi.
  unfold logiclk_stack_params, LOGICLK_STACK_POP.
  rewrite store_Some by lia. simpl. eexists. split; [reflexivity|]. simpl.
  split; [rewrite Hos; apply list_lookup_insert_eq; lia|].
  split; [exact Hrs|]. split; [reflexivity|].
  intros j Hj. apply list_lookup_insert_ne. lia.
Qed.

(** ** One output and its register pair *)

Lemma halves_recombine x :
  0 ≤ x < 2 ^ 32 →
  logiclk_get_bits x 15 0 + 2 ^ 16 * logiclk_get_bits x 31 16 = x.
Proof.
  intros Hx. rewrite !get_bits_div_mod by lia.
  change (2 ^ 0) with 1. rewrite Z.div_1_r.
  change (2 ^ (15 - 0 + 1)) with (2 ^ 16).
  change (2 ^ (31 - 16 + 1)) with (2 ^ 16).
  rewrite (Z.mod_small (x / 2 ^ 16)).
  - pose proof (Z.div_mod x (2 ^ 16) ltac:(lia)). lia.
  - split; [apply Z.div_pos; lia|]. apply Z.div_lt_upper_bound; lia.
Qed.

Lemma pll_count_range divide duty phase :
  0 ≤ logiclk_pll_count divide duty phase < 2 ^ 24.
Proof. rewrite pll_count_word. apply count_word_range, pll_phase_range. Qed.

(** The state after [logiclk_man_reg_params_id]. *)
Lemma man_reg_params_id_state (d : logiclk_data) (i : nat)
    (o : logiclk_output) (id_ : Z) :
  output d !! i = Some o →
  divclk_divide (input d) ≠ 0 → 0 ≤ id_ ≤ 9 →
  length (man_regs d) = 21%nat →
  ∃ cd lo hi d',
    logiclk_pll_output_div d i = Some cd ∧ 1 ≤ cd ≤ 128
    ∧ logiclk_man_reg_params_id d i id_ = Some d'
    ∧ input d' = input d
    ∧ output d'
      = <[i := {| clkout_freq :=
                    wrap32 (wrap64 (clk_freq (input d) * clkfbout_mult (input d))
                            / divclk_divide (input d) / cd);
                  clkout_divide := cd; clkout_duty := clkout_duty o;
                  clkout_phase := clkout_phase o; id := id o;
                  precise := precise o |}]> (output d)
    ∧ man_regs d' !! Z.to_nat (1 + 2 * id_) = Some lo
    ∧ man_regs d' !! Z.to_nat (2 + 2 * id_) = Some hi
    ∧ 0 ≤ lo < 2 ^ 16 ∧ 0 ≤ hi < 2 ^ 16
    ∧ lo + 2 ^ 16 * hi
      = logiclk_pll_count cd (clkout_duty o) (to_s32 (clkout_phase o))
    ∧ ∀ k : nat, k ≠ Z.to_nat (1 + 2 * id_) → k ≠ Z.to_nat (2 + 2 * id_) →
        man_regs d' !! k = man_regs d !! k.
Proof.
  intros Ho Hdiv Hid Hlen.
  pose proof (output_div_outcome d i o Ho) as Hcd.
  destruct (logiclk_pll_output_div d i) as [cd|] eqn:Ecd; [|contradiction].
  set (w := logiclk_pll_count cd (clkout_duty o) (to_s32 (clkout_phase o))).
  exists cd, (logiclk_get_bits w 15 0), (logiclk_get_bits w 31 16).
  unfold logiclk_man_reg_params_id, div_u64.
  rewrite Ho. simpl.
  destruct (Z.eqb_spec (divclk_divide (input d)) 0); [contradiction|]. simpl.
  rewrite Ecd. simpl. fold w.
  unfold LOGICLK_PLL_REG_OFF. rewrite !wrap32_id by lia.
  rewrite store_Some by lia. simpl.
  rewrite store_Some by (rewrite length_insert; lia). simpl.
  destruct (Z.eqb_spec cd 0); [lia|]. simpl.
  eexists. split; [reflexivity|]. split; [exact Hcd|].
  split; [reflexivity|]. simpl. split; [reflexivity|].
  split; [reflexivity|].
  replace (1 + 1 + id_ * 2) with (2 + 2 * id_) by lia.
  replace (1 + id_ * 2) with (1 + 2 * id_) by lia.
  split; [rewrite list_lookup_insert_ne by lia;
          apply list_lookup_insert_eq; lia|].
  split; [apply list_lookup_insert_eq; rewrite length_insert; lia|].
  split; [apply (get_bits_range w 15 0); lia|].
  split; [apply (get_bits_range w 31 16); lia|].
  split.
  - apply halves_recombine. pose proof (pll_count_range cd (clkout_duty o)
      (to_s32 (clkout_phase o))). fold w in H. lia.
  - intros k Hk1 Hk2. rewrite !list_lookup_insert_ne by lia. reflexivity.
Qed.

(** X6: logiclk_man_reg_params_id, for a non-zero pre-divider and a register
    pair inside the image: the output gets the divider found by the
    output search, in 1..128, and the frequency
    floor(floor(reference * multiplier / pre_divider) / divider); its two
    registers hold the low and the high 16 bits of its count word, each
    below 2^16; the input stage, the other outputs and the other
    registers are kept. *)
Theorem man_reg_params_id_post (d : logiclk_data) (i : nat)
    (o : logiclk_output) (id_ : Z) :
  output d !! i = Some o →
  divclk_divide (input d) ≠ 0 → 0 ≤ id_ ≤ 9 →
  length (man_regs d) = 21%nat →
  ∃ cd lo hi d',
    logiclk_pll_output_div d i = Some cd ∧ 1 ≤ cd ≤ 128
    ∧ logiclk_man_reg_params_id d i id_ = Some d'
    ∧ input d' = input d
    ∧ output d'
      = <[i := {| clkout_freq :=
                    wrap32 (wrap64 (clk_freq (input d) * clkfbout_mult (input d))
                            / divclk_divide (input d) / cd);
                  clkout_divide := cd; clkout_duty := clkout_duty o;
                  clkout_phase := clkout_phase o; id := id o;
                  precise := precise o |}]> (output d)
    ∧ man_regs d' !! Z.to_nat (1 + 2 * id_) = Some lo
    ∧ man_regs d' !! Z.to_nat (2 + 2 * id_) = Some hi
    ∧ 0 ≤ lo < 2 ^ 16 ∧ 0 ≤ hi < 2 ^ 16
    ∧ lo + 2 ^ 16 * hi
      = logiclk_pll_count cd (clkout_duty o) (to_s32 (clkout_phase o))
    ∧ ∀ k : nat, k ≠ Z.to_nat (1 + 2 * id_) → k ≠ Z.to_nat (2 + 2 * id_) →
        man_regs d' !! k = man_regs d !! k.
Proof. exact (man_reg_params_id_state d i o id_). Qed.

(** X7: logiclk_calc_freq, applied to an output that
    logiclk_man_reg_params_id has just recomputed, returns the
    frequency recorded in that output: dividing once by
    pre_divider * divider gives what dividing by each in turn gives. *)
Theorem calc_freq_after_recompute (d d' : logiclk_data) (i : nat)
    (o : logiclk_output) (id_ : Z) :
  output d !! i = Some o →
  0 < divclk_divide (input d) < 2 ^ 24 →
  logiclk_man_reg_params_id d i id_ = Some d' →
  ∃ o', output d' !! i = Some o'
    ∧ logiclk_calc_freq d' i = Some (clkout_freq o').
Proof.
  intros Ho Hdiv Hrun.
  pose proof (output_div_outcome d i o Ho) as Hcd.
  pose proof (lookup_lt_Some _ _ _ Ho) as Hi.
  unfold logiclk_man_reg_params_id, div_u64 in Hrun.
  rewrite Ho in Hrun. simpl in Hrun.
  destruct (Z.eqb_spec (divclk_divide (input d)) 0); [lia|]. simpl in Hrun.
  destruct (logiclk_pll_output_div d i) as [cd|]; [|contradiction].
  simpl in Hrun. do 2 store_step Hrun.
  destruct (Z.eqb_spec cd 0); [lia|]. simpl in Hrun.
  injection Hrun as <-. simpl.
  eexists. split; [apply list_lookup_insert_eq; exact Hi|].
  unfold logiclk_calc_freq, div_u64. simpl.
  rewrite list_lookup_insert_eq by exact Hi. simpl.
  rewrite (wrap32_id (divclk_divide (input d) * cd)) by nia.
  destruct (Z.eqb_spec (divclk_divide (input d) * cd) 0); [nia|]. simpl.
  rewrite Z.div_div by lia. reflexivity.
Qed.

(** ** The lock and filter words in the shared registers *)

Lemma lor_shift_split a b n k :
  0 ≤ n → 0 ≤ k →
  Z.testbit (Z.lor (Z.shiftl a n) b) k
  = (if k <? n then false else Z.testbit a (k - n)) || Z.testbit b k.
Proof.
  intros Hn Hk. rewrite Z.lor_spec, Z.shiftl_spec by lia.
  destruct (Z.ltb_spec k n); [|reflexivity].
  rewrite Z.testbit_neg_r by lia. reflexivity.
Qed.

(** Where each bit of the 40-bit lock word lands in registers 16..18. *)
Lemma lock_regs_bits lock k :
  0 ≤ k < 40 →
  Z.testbit lock k =
    if k <? 10 then Z.testbit (lock_regs lock).1.2 k
    else if k <? 20 then Z.testbit (lock_regs lock).2 (k - 10)
    else if k <? 30 then Z.testbit (lock_regs lock).1.1 (k - 20)
    else if k <? 35 then Z.testbit (lock_regs lock).1.2 (k - 20)
    else Z.testbit (lock_regs lock).2 (k - 25).
Proof.
  intros Hk. unfold lock_regs. simpl fst. simpl snd.
  repeat match goal with
  | |- context [if ?a <? ?b then _ else _] =>
      destruct (Z.ltb_spec a b)
  end; bit_open; bit_cases;
    rewrite ?andb_true_r, ?andb_false_r, ?orb_false_r, ?orb_false_l;
    try reflexivity; f_equal; lia.
Qed.

(** X8: No bit of a lock word is lost in registers 16..18. *)
Theorem lock_regs_injective (l1 l2 : Z) :
  0 ≤ l1 < 2 ^ 40 → 0 ≤ l2 < 2 ^ 40 →
  lock_regs l1 = lock_regs l2 → l1 = l2.
Proof.
  intros H1 H2 E. apply Z.bits_inj'. intros k Hk.
  destruct (Z_lt_le_dec k 40) as [Hlt|Hge].
  - rewrite (lock_regs_bits l1 k), (lock_regs_bits l2 k) by lia.
    rewrite E. reflexivity.
  - rewrite (bits_above_pow2 40 l1 k), (bits_above_pow2 40 l2 k) by lia.
    reflexivity.
Qed.

(** Where each bit of the 10-bit filter word lands in registers 19..20. *)
Lemma filter_regs_bits filter k :
  0 ≤ k < 10 →
  Z.testbit filter k =
    if k <? 1 then Z.testbit (filter_regs filter).2 4
    else if k <? 3 then Z.testbit (filter_regs filter).2 (k + 6)
    else if k <? 5 then Z.testbit (filter_regs filter).2 (k + 8)
    else if k <? 6 then Z.testbit (filter_regs filter).2 15
    else if k <? 7 then Z.testbit (filter_regs filter).1 8
    else if k <? 9 then Z.testbit (filter_regs filter).1 (k + 4)
    else Z.testbit (filter_regs filter).1 15.
Proof.
  intros Hk. unfold filter_regs. simpl fst. simpl snd.
  repeat match goal with
  | |- context [if ?a <? ?b then _ else _] =>
      destruct (Z.ltb_spec a b)
  end; bit_open; bit_cases;
    rewrite ?andb_true_r, ?andb_false_r, ?orb_false_r, ?orb_false_l;
    try reflexivity; try (f_equal; lia);
    first [ assert (k = 0) as -> by lia | assert (k = 5) as -> by lia
          | assert (k = 6) as -> by lia | assert (k = 9) as -> by lia ];
    reflexivity.
Qed.

(** X9: No bit of a filter word is lost in registers 19..20. *)
Theorem filter_regs_injective (f1 f2 : Z) :
  0 ≤ f1 < 2 ^ 10 → 0 ≤ f2 < 2 ^ 10 →
  filter_regs f1 = filter_regs f2 → f1 = f2.
Proof.
  intros H1 H2 E. apply Z.bits_inj'. intros k Hk.
  destruct (Z_lt_le_dec k 10) as [Hlt|Hge].
  - rewrite (filter_regs_bits f1 k), (filter_regs_bits f2 k) by lia.
    rewrite E. reflexivity.
  - rewrite (bits_above_pow2 10 f1 k), (bits_above_pow2 10 f2 k) by lia.
    reflexivity.
Qed.

(** * Further properties of the hardware hand-over *)

(** ** Waiting for the lock *)

Lemma poll_lock_spec rd cfg cnt :
  ∀ k,
  ((∃ j : nat, (j ≤ cnt)%nat
      ∧ Z.land (rd (k + j)%nat) LOGICLK_PLL_LOCK ≠ 0)
   ∧ poll_lock rd cfg cnt k
     = (0, [(LOGICLK_PLL_REG_OFF * LOGICLK_REG_STRIDE, cfg)]))
  ∨ ((∀ j : nat, (j ≤ cnt)%nat
        → Z.land (rd (k + j)%nat) LOGICLK_PLL_LOCK = 0)
     ∧ poll_lock rd cfg cnt k = (- EIO, [])).
Proof.
  induction cnt as [|cnt IH]; intros k; simpl poll_lock.
  - destruct (Z.eqb_spec (Z.land (rd k) LOGICLK_PLL_LOCK) 0) as [E|E]; simpl.
    + right. split; [|reflexivity]. intros j Hj.
      replace (k + j)%nat with k by lia. exact E.
    + left. split; [|reflexivity]. exists 0%nat.
      replace (k + 0)%nat with k by lia. split; [lia|exact E].
  - destruct (Z.eqb_spec (Z.land (rd k) LOGICLK_PLL_LOCK) 0) as [E|E]; simpl.
    + destruct (IH (S k)) as [[(j & Hj & Hl) ->]|[Hnone ->]].
      * left. split; [|reflexivity]. exists (S j).
        replace (k + S j)%nat with (S k + j)%nat by lia. split; [lia|exact Hl].
      * right. split; [|reflexivity]. intros [|j] Hj.
        -- replace (k + 0)%nat with k by lia. exact E.
        -- replace (k + S j)%nat with (S k + j)%nat by lia. apply Hnone. lia.
    + left. split; [|reflexivity]. exists 0%nat.
      replace (k + 0)%nat with k by lia. split; [lia|exact E].
Qed.

Lemma man_reg_writes_lookup regs (i : nat) v :
  regs !! i = Some v → (i < 21)%nat →
  man_reg_writes regs !! i = Some (4 * (Z.of_nat i + 3), v).
Proof.
  intros Hv Hi. unfold man_reg_writes.
  rewrite list_lookup_imap.
  change (Z.to_nat LOGICLK_MANUAL_REGS) with 21%nat.
  rewrite lookup_take_lt by lia. rewrite Hv. simpl.
  unfold LOGICLK_PLL_MAN_REG_OFF, LOGICLK_REG_STRIDE. do 2 f_equal. lia.
Qed.

(** The result and the writes of [logiclk_hw_config]. *)
Lemma hw_config_spec (rd : nat → Z) (d : logiclk_data) :
  length (man_regs d) = 21%nat →
  ∃ ret w,
    logiclk_hw_config rd d true = (ret, w)
    ∧ (ret = 0 ∨ ret = - EIO)
    ∧ (ret = - EIO ↔ ∀ j : nat, (j ≤ 50)%nat → Z.land (rd j) 1 = 0)
    ∧ (∀ (i : nat) v, man_regs d !! i = Some v →
         w !! i = Some (4 * (Z.of_nat i + 3), v))
    ∧ (ret = - EIO → length w = 21%nat)
    ∧ (ret = 0 → length w = 22%nat ∧ w !! 21%nat = Some (4, 3)).
Proof.
  intros Hlen. unfold logiclk_hw_config.
  assert (Hwl : length (man_reg_writes (man_regs d)) = 21%nat).
  { unfold man_reg_writes. rewrite length_imap, length_take.
    change (Z.to_nat LOGICLK_MANUAL_REGS) with 21%nat. lia. }
  assert (Hpre : ∀ (i : nat) v tail, man_regs d !! i = Some v →
            (man_reg_writes (man_regs d) ++ tail) !! i
            = Some (4 * (Z.of_nat i + 3), v)).
  { intros i v tail Hv. pose proof (lookup_lt_Some _ _ _ Hv).
    rewrite lookup_app_l by lia. apply man_reg_writes_lookup; [exact Hv|lia]. }
  destruct (poll_lock_spec rd (Z.lor LOGICLK_PLL_CONFIG LOGICLK_PLL_CONFIG_SW)
              PLL_LOCK_TIME_INTERVALS 0)
    as [[(j & Hj & Hl) ->]|[Hnone ->]].
  - eexists _, _. split; [reflexivity|]. split; [by left|].
    split; [|split; [|split]].
    + split; [unfold EIO; lia|]. intros H. destruct Hl. apply H.
      unfold PLL_LOCK_TIME_INTERVALS in Hj. exact Hj.
    + intros i v Hv. by apply Hpre.
    + unfold EIO. lia.
    + intros _. rewrite length_app, Hwl. split; [reflexivity|].
      rewrite lookup_app_r by lia. rewrite Hwl. reflexivity.
  - eexists _, _. split; [reflexivity|]. split; [by right|].
    split; [|split; [|split]].
    + split; [|reflexivity]. intros _ j Hj. apply (Hnone j).
      unfold PLL_LOCK_TIME_INTERVALS. exact Hj.
    + intros i v Hv. by apply Hpre.
    + intros _. rewrite length_app, Hwl. reflexivity.
    + unfold EIO. lia.
Qed.

(** X10: logiclk_hw_config, asked to load the software configuration: it
    reads the PLL register at most 51 times; it fails with -EIO exactly
    when none of those reads shows the lock bit, and then it has written
    the 21 registers of the image, register [i] at byte offset
    4 * (i + 3), but not the control register; otherwise it returns 0
    and its last write sets both control bits at byte offset 4. *)
Theorem hw_config_outcome (rd : nat → Z) (d : logiclk_data) :
  length (man_regs d) = 21%nat →
  ∃ ret w,
    logiclk_hw_config rd d true = (ret, w)
    ∧ (ret = 0 ∨ ret = - EIO)
    ∧ (ret = - EIO ↔ ∀ j : nat, (j ≤ 50)%nat → Z.land (rd j) 1 = 0)
    ∧ (∀ (i : nat) v, man_regs d !! i = Some v →
         w !! i = Some (4 * (Z.of_nat i + 3), v))
    ∧ (ret = - EIO → length w = 21%nat)
    ∧ (ret = 0 → length w = 22%nat ∧ w !! 21%nat = Some (4, 3)).
Proof. exact (hw_config_spec rd d). Qed.

(** ** What a Commit hands to the hardware *)


Lemma input_mult_div_frame d i r d' :
  logiclk_pll_input_mult_div d i = Some (r, d') →
  output d' = output d ∧ man_regs d' = man_regs d
  ∧ output_stack d' = output_stack d ∧ man_regs_stack d' = man_regs_stack d.
Proof.
  unfold logiclk_pll_input_mult_div. intros H.
  destruct (output d !! i); simpl in H; [|discriminate].
  destruct (input_mult_div_loops _ _ _) as [[? ?]|[? ?]|];
    [destruct (_ || _)| |discriminate]; injection H as _ <-; auto.
Qed.

Lemma recalc_outputs_S n j d :
  recalc_outputs (S n) j d
  = o ← output d !! j;
    d' ← logiclk_man_reg_params_id d j (id o);
    recalc_outputs n (S j) d'.
Proof. reflexivity. Qed.

Arguments recalc_outputs : simpl never.

Lemma recalc_outputs_frame n :
  ∀ j a b, recalc_outputs n j a = Some b →
  input b = input a
  ∧ length (man_regs b) = length (man_regs a)
  ∧ length (output b) = length (output a).
Proof.
  induction n as [|n IH]; intros j a b.
  - intros [= <-]. auto.
  - rewrite recalc_outputs_S.
    destruct (output a !! j); simpl; [|discriminate].
    destruct (logiclk_man_reg_params_id a j _) as [a'|] eqn:E; simpl;
      [|discriminate].
    intros Hb. apply IH in Hb as (Hi & Hl & Ho).
    apply man_reg_params_id_inv in E as (Hi' & Hl' & [o' Ho'] & _).
    rewrite Ho' in Ho. rewrite length_insert in Ho.
    repeat split; congruence.
Qed.

(** The register image keeps its size through logiclk_calc_params. *)
Lemma calc_params_regs_length d i r d' :
  logiclk_calc_params d i = Some (r, d') →
  length (man_regs d') = length (man_regs d).
Proof.
  unfold logiclk_calc_params. intros H.
  destruct (output d !! i) as [o|]; simpl in H; [|discriminate].
  destruct (_ || _); [by injection H as _ <-|].
  destruct (precise o).
  - destruct (logiclk_pll_input_mult_div d i) as [[r1 d1]|] eqn:Es;
      simpl in H; [|discriminate].
    apply input_mult_div_frame in Es as (_ & Hr1 & _).
    destruct (negb (r1 =? 0)); simpl in H; [injection H as _ <-; congruence|].
    destruct (logiclk_man_reg_params d1 i) as [d2|] eqn:Em; simpl in H;
      [|discriminate].
    destruct (recalc_outputs _ 0 d2) as [d3|] eqn:Eo; simpl in H;
      [|discriminate].
    injection H as _ <-.
    apply man_reg_params_inv in Em as (_ & _ & Hl2 & _).
    apply recalc_outputs_frame in Eo as (_ & Hl3 & _). congruence.
  - destruct (logiclk_man_reg_params_id d i (id o)) as [d1|] eqn:Em;
      simpl in H; [|discriminate].
    injection H as _ <-.
    apply man_reg_params_id_inv in Em as (_ & Hl & _). exact Hl.
Qed.

(** X11: logiclk_set_rate either fails in the parameter computation, and
    then returns -EINVAL without a single register write, or hands the
    register image of the state it returns to logiclk_hw_config, whose
    result, 0 or -EIO, it returns: the first 21 writes are that image. *)
Theorem set_rate_writes (rd : nat → Z) (d d' : logiclk_data) (i : nat)
    (rate r : Z) (w : list (Z * Z)) :
  logiclk_set_rate rd d i rate = Some (r, d', w) →
  length (man_regs d) = 21%nat →
  (r = - EINVAL ∧ w = [])
  ∨ ((r = 0 ∨ r = - EIO)
     ∧ logiclk_hw_config rd d' true = (r, w)
     ∧ ∀ (k : nat) v, man_regs d' !! k = Some v →
         w !! k = Some (4 * (Z.of_nat k + 3), v)).
Proof.
  intros H Hlen.
  assert (Hhw : ∀ d0, length (man_regs d0) = 21%nat →
            logiclk_hw_config rd d0 true = (r, w) →
            (r = 0 ∨ r = - EIO)
            ∧ logiclk_hw_config rd d0 true = (r, w)
            ∧ ∀ (k : nat) v, man_regs d0 !! k = Some v →
                w !! k = Some (4 * (Z.of_nat k + 3), v)).
  { intros d0 Hl0 E.
    destruct (hw_config_spec rd d0 Hl0) as (r0 & w0 & E0 & Hr & _ & Hw & _).
    rewrite E in E0. injection E0 as <- <-. auto. }
  unfold logiclk_set_rate in H.
  destruct (output d !! i) as [o|] eqn:Ho; simpl in H; [|discriminate].
  destruct (negb (rate =? clkout_freq o)); simpl in H.
  - rewrite (push_snapshot d i o Ho) in H. simpl in H.
    destruct (logiclk_calc_params _ i) as [[ret d3]|] eqn:Ec; simpl in H;
      [|discriminate].
    apply calc_params_regs_length in Ec. simpl in Ec.
    destruct (negb (ret =? 0)) eqn:Er; simpl in H.
    + destruct (logiclk_stack_params d3 i LOGICLK_STACK_POP); simpl in H;
        [|discriminate].
      injection H as <- _ <-. by left.
    + destruct (logiclk_hw_config rd d3 true) as [r0 w0] eqn:E.
      injection H as <- <- <-. right. apply Hhw; [congruence|exact E].
  - destruct (logiclk_hw_config rd d true) as [r0 w0] eqn:E.
    injection H as <- <- <-. right. by apply Hhw.
Qed.

(** ** A rate outside the output range *)

(** X12: A Propose or Commit of a rate below 4.69 MHz or above 800 MHz, on
    any output, returns -EINVAL with the input stage, every output and
    the register image as they were; a Commit writes nothing. *)
Theorem invalid_rate_rolled_back (rd : nat → Z)
    (d : logiclk_data) (i : nat) (o : logiclk_output) (rate : Z) :
  output d !! i = Some o →
  wrap32 rate < MMCM_OUTPUT_FREQ_MIN ∨ MMCM_OUTPUT_FREQ_MAX < wrap32 rate →
  logiclk_round_rate d i rate
    = Some (- EINVAL, rolled_back d o (input d))
  ∧ (rate ≠ clkout_freq o →
       logiclk_set_rate rd d i rate
       = Some (- EINVAL, rolled_back d o (input d), [])).
Proof.
  intros Ho Hr.
  assert (Hc : logiclk_calc_params (tentative d i o rate) i
               = Some (- EINVAL, tentative d i o rate)).
  { unfold logiclk_calc_params.
    rewrite (tentative_lookup d i o rate Ho). simpl.
    destruct (Z.ltb_spec (wrap32 rate) MMCM_OUTPUT_FREQ_MIN); [reflexivity|].
    destruct (Z.ltb_spec MMCM_OUTPUT_FREQ_MAX (wrap32 rate)); [reflexivity|].
    lia. }
  assert (Hpop : logiclk_stack_params (tentative d i o rate) i LOGICLK_STACK_POP
                 = Some (rolled_back d o (input d))).
  { change (tentative d i o rate)
      with (set_input (input d) (tentative d i o rate)).
    apply (pop_tentative d i o rate Ho). }
  split.
  - unfold logiclk_round_rate. rewrite (push_snapshot d i o Ho). simpl.
    rewrite Ho. simpl. fold (tentative d i o rate). rewrite Hc. simpl.
    rewrite Hpop. reflexivity.
  - intros Hne. unfold logiclk_set_rate. rewrite Ho. simpl.
    destruct (Z.eqb_spec rate (clkout_freq o)); [contradiction|]. simpl.
    rewrite (push_snapshot d i o Ho). simpl. fold (tentative d i o rate).
    rewrite Hc. simpl. rewrite Hpop. reflexivity.
Qed.

(** * Further properties of the searches *)

(** ** The output-divider search finds the first closest divider *)

Section OutputSearch.

Variables f target : Z.
Hypothesis f_range : 0 ≤ f < 2 ^ 63.
Hypothesis target_u32 : 0 ≤ target < 2 ^ 32.

Local Abbreviation oerr := (λ o : Z, Z.abs (f / o - target)).

Lemma output_div_body_step o cd e :
  1 ≤ o →
  output_div_body f target o (cd, e)
  = if oerr o <? e then
      if oerr o =? 0 then Return o else Next (o, oerr o)
    else Next (cd, e).
Proof.
  intros Ho. unfold output_div_body, div_u64.
  destruct (Z.eqb_spec o 0); [lia|].
  assert (0 ≤ f / o ≤ f).
  { split; [apply Z.div_pos; lia|]. apply Z.div_le_upper_bound; nia. }
  rewrite abs64_small by lia. reflexivity.
Qed.

(** The loop state before candidate [i]: the initial state, or the
    first closest divider among 1..i-1, whose error is not 0. *)
Local Abbreviation out_state := (λ (i cd e : Z),
  (i = 1 ∧ cd = 0 ∧ e = U64_MAX)
  ∨ (1 ≤ cd < i ∧ e = oerr cd ∧ e ≠ 0
     ∧ (∀ o', 1 ≤ o' < cd → oerr cd < oerr o')
     ∧ (∀ o', cd < o' < i → oerr cd ≤ oerr o'))).

Local Abbreviation closest := (λ (hi cd : Z),
  1 ≤ cd ≤ hi
  ∧ ∀ o', 1 ≤ o' ≤ hi →
      oerr cd ≤ oerr o' ∧ (o' < cd → oerr cd < oerr o')).

Lemma output_div_loop_closest n :
  ∀ i cd e, 1 ≤ i → out_state i cd e →
  match for_loop (S n) i (output_div_body f target) (cd, e) with
  | Next (cd', _) => closest (i + Z.of_nat n) cd'
  | Return r => closest (i + Z.of_nat n) r
  | Fault => False
  end.
Proof.
  induction n as [|n IH]; intros i cd e Hi Hs; rewrite for_loop_S;
    rewrite output_div_body_step by lia.
  - (* last candidate *)
    replace (i + Z.of_nat 0) with i by lia.
    destruct Hs as [(-> & -> & ->)|(Hcd & -> & Hne & Hlo & Hhi)].
    + pose proof (abs64_below_max (f / 1 - target)) as Hm.
      assert (0 ≤ f / 1 ≤ f) by (rewrite Z.div_1_r; lia).
      rewrite abs64_small in Hm by lia.
      destruct (Z.ltb_spec (oerr 1) U64_MAX); [|lia].
      destruct (_ =? 0); simpl; (split; [lia|]); intros o' Ho';
        replace o' with 1 by lia; lia.
    + destruct (Z.ltb_spec (oerr i) (oerr cd)) as [Hlt|Hge].
      * destruct (Z.eqb_spec (oerr i) 0); simpl; (split; [lia|]);
          intros o' Ho';
          destruct (Z_lt_le_dec o' cd); [specialize (Hlo o'); lia| |
                                         specialize (Hlo o'); lia|];
          (destruct (Z.eq_dec o' cd) as [->|]; [lia|]);
          (destruct (Z.eq_dec o' i) as [->|]; [lia|]);
          specialize (Hhi o'); lia.
      * simpl. split; [lia|]. intros o' Ho'.
        destruct (Z_lt_le_dec o' cd); [specialize (Hlo o'); lia|].
        destruct (Z.eq_dec o' cd) as [->|]; [lia|].
        destruct (Z.eq_dec o' i) as [->|]; [lia|].
        specialize (Hhi o'). lia.
  - replace (i + Z.of_nat (S n)) with (i + 1 + Z.of_nat n) by lia.
    destruct Hs as [(-> & -> & ->)|(Hcd & -> & Hne & Hlo & Hhi)].
    + pose proof (abs64_below_max (f / 1 - target)) as Hm.
      assert (0 ≤ f / 1 ≤ f) by (rewrite Z.div_1_r; lia).
      rewrite abs64_small in Hm by lia.
      destruct (Z.ltb_spec (oerr 1) U64_MAX); [|lia].
      destruct (Z.eqb_spec (oerr 1) 0) as [E0|E0].
      * split; [lia|]. intros o' Ho'. lia.
      * apply IH; [lia|]. right. split; [lia|]. split; [reflexivity|].
        split; [exact E0|]. split; intros o' Ho'; lia.
    + destruct (Z.ltb_spec (oerr i) (oerr cd)) as [Hlt|Hge].
      * assert (Hbefore : ∀ o', 1 ≤ o' < i → oerr i < oerr o').
        { intros o' Ho'.
          destruct (Z_lt_le_dec o' cd); [specialize (Hlo o'); lia|].
          destruct (Z.eq_dec o' cd) as [->|]; [lia|].
          specialize (Hhi o'). lia. }
        destruct (Z.eqb_spec (oerr i) 0) as [E0|E0].
        -- split; [lia|]. intros o' Ho'. split; [lia|].
           intros Hlt'. apply Hbefore. lia.
        -- apply IH; [lia|]. right. split; [lia|]. split; [reflexivity|].
           split; [exact E0|]. split; [exact Hbefore|]. intros o' Ho'. lia.
      * apply IH; [lia|]. right. split; [lia|]. split; [reflexivity|].
        split; [exact Hne|]. split; [exact Hlo|]. intros o' Ho'.
        destruct (Z.eq_dec o' i) as [->|]; [lia|]. apply Hhi. lia.
Qed.

End OutputSearch.

(** The divider returned by [logiclk_pll_output_div]. *)
Lemma output_div_closest (d : logiclk_data) (i : nat)
    (o : logiclk_output) :
  output d !! i = Some o →
  0 ≤ clk_freq (input d) < 2 ^ 32 → 0 ≤ clkfbout_mult (input d) < 2 ^ 31 →
  0 < divclk_divide (input d) → 0 ≤ clkout_freq o < 2 ^ 32 →
  let f := clk_freq (input d) * clkfbout_mult (input d)
           / divclk_divide (input d) in
  ∃ cd, logiclk_pll_output_div d i = Some cd
    ∧ 1 ≤ cd ≤ 128
    ∧ ∀ o', 1 ≤ o' ≤ 128 →
        Z.abs (f / cd - clkout_freq o) ≤ Z.abs (f / o' - clkout_freq o)
        ∧ (o' < cd →
             Z.abs (f / cd - clkout_freq o) < Z.abs (f / o' - clkout_freq o)).
Proof.
  intros Ho Href Hm Hdiv Htgt f.
  assert (Hprod : 0 ≤ clk_freq (input d) * clkfbout_mult (input d) < 2 ^ 63)
    by nia.
  assert (Hf : 0 ≤ f < 2 ^ 63).
  { subst f. split; [apply Z.div_pos; lia|].
    apply Z.div_lt_upper_bound; nia. }
  unfold logiclk_pll_output_div, div_u64. rewrite Ho. simpl.
  destruct (Z.eqb_spec (divclk_divide (input d)) 0); [lia|]. simpl.
  rewrite wrap64_id by lia. fold f.
  unfold for_range.
  change (Z.to_nat (MMCM_CLKOUT_DIVIDE_MAX + 1 - MMCM_CLKOUT_DIVIDE_MIN))
    with (S 127).
  change MMCM_CLKOUT_DIVIDE_MIN with 1.
  pose proof (output_div_loop_closest f (clkout_freq o) Hf Htgt 127 1 0 U64_MAX
                ltac:(lia) ltac:(left; auto)) as H.
  change (1 + Z.of_nat 127) with 128 in H.
  destruct (for_loop _ _ _ _) as [[cd e]|r|]; [| |destruct H];
    eexists; (split; [reflexivity|]); exact H.
Qed.

(** X13: logiclk_pll_output_div returns the first divider in 1..128 whose
    frequency floor(floor(reference * multiplier / pre_divider) / divider)
    is closest to the target of the output. *)
Theorem output_div_first_closest (d : logiclk_data) (i : nat)
    (o : logiclk_output) :
  output d !! i = Some o →
  0 ≤ clk_freq (input d) < 2 ^ 32 → 0 ≤ clkfbout_mult (input d) < 2 ^ 31 →
  0 < divclk_divide (input d) → 0 ≤ clkout_freq o < 2 ^ 32 →
  let f := clk_freq (input d) * clkfbout_mult (input d)
           / divclk_divide (input d) in
  ∃ cd, logiclk_pll_output_div d i = Some cd
    ∧ 1 ≤ cd ≤ 128
    ∧ ∀ o', 1 ≤ o' ≤ 128 →
        Z.abs (f / cd - clkout_freq o) ≤ Z.abs (f / o' - clkout_freq o)
        ∧ (o' < cd →
             Z.abs (f / cd - clkout_freq o) < Z.abs (f / o' - clkout_freq o)).
Proof. exact (output_div_closest d i o). Qed.

(** ** Recomputing all outputs *)

Lemma pll_output_div_ext a b i :
  input a = input b → output a !! i = output b !! i →
  logiclk_pll_output_div a i = logiclk_pll_output_div b i.
Proof.
  intros Hi Ho. unfold logiclk_pll_output_div. rewrite Hi, Ho. reflexivity.
Qed.

Lemma output_recomputed_step a a' b k :
  input a' = input a → output a' !! k = output a !! k →
  output_recomputed a' b k → output_recomputed a b k.
Proof.
  intros Hi Ho H o Hk. rewrite <- Ho in Hk.
  destruct (H o Hk) as (cd & lo & hi & Hcd & Hr & Hout & Hlo & Hhi & Hw).
  exists cd, lo, hi. rewrite <- Hi.
  rewrite <- (pll_output_div_ext a' a k Hi Ho). auto 10.
Qed.

Lemma recalc_outputs_post n :
  ∀ j a,
  divclk_divide (input a) ≠ 0 → length (man_regs a) = 21%nat →
  ids_are_indices a →
  (j + n ≤ length (output a))%nat → (j + n ≤ 6)%nat →
  ∃ b, recalc_outputs n j a = Some b ∧ outputs_recomputed j n a b.
Proof.
  induction n as [|n IH]; intros j a Hdiv Hlen Hids Hn H6.
  - exists a. split; [reflexivity|]. unfold outputs_recomputed.
    repeat split; auto. intros k Hk. lia.
  - rewrite recalc_outputs_S.
    destruct (lookup_lt_is_Some_2 (output a) j ltac:(lia)) as [o Ho].
    rewrite Ho. simpl.
    pose proof (Hids j o Ho) as Hid.
    destruct (man_reg_params_id_state a j o (id o) Ho Hdiv ltac:(lia) Hlen)
      as (cd & lo & hi & a' & Hcd & Hr & Erun & Hin & Hout & Hlo & Hhi
          & Hblo & Hbhi & Hw & Hfr).
    rewrite Erun. simpl.
    assert (Hlen' : length (man_regs a') = 21%nat).
    { pose proof (man_reg_params_id_inv a j (id o) a' Erun) as (_ & Hl & _).
      congruence. }
    assert (Hids' : ids_are_indices a').
    { intros k ok Hk. rewrite Hout in Hk.
      destruct (decide (k = j)) as [->|Hne].
      - rewrite list_lookup_insert_eq in Hk by (eapply lookup_lt_Some, Ho).
        injection Hk as <-. exact Hid.
      - rewrite list_lookup_insert_ne in Hk by lia. by apply Hids. }
    assert (Hlo' : length (output a') = length (output a))
      by (rewrite Hout; apply length_insert).
    destruct (IH (S j) a' ltac:(congruence) Hlen' Hids' ltac:(lia) ltac:(lia))
      as (b & -> & Hb).
    exists b. split; [reflexivity|].
    destruct Hb as (Hbi & Hbl & Hbo & Hbk & Hbr & Hbrec).
    assert (Hreg1 : Z.to_nat (1 + 2 * id o) = (1 + 2 * j)%nat) by lia.
    assert (Hreg2 : Z.to_nat (2 + 2 * id o) = (2 + 2 * j)%nat) by lia.
    rewrite Hreg1 in *. rewrite Hreg2 in *.
    unfold outputs_recomputed. split; [congruence|]. split; [congruence|].
    split; [congruence|]. split; [|split].
    + intros k Hk. rewrite Hbk by lia. rewrite Hout.
      apply list_lookup_insert_ne. lia.
    + intros r Hr'. rewrite Hbr by (intros k Hk; apply Hr'; lia).
      apply Hfr; apply Hr'; lia.
    + intros k Hk. destruct (decide (k = j)) as [->|Hne].
      * intros o0 Ho0. rewrite Ho in Ho0. injection Ho0 as <-.
        exists cd, lo, hi. split; [exact Hcd|]. split; [exact Hr|]. split.
        { rewrite Hbk by lia. rewrite Hout.
          rewrite list_lookup_insert_eq by (eapply lookup_lt_Some, Ho).
          reflexivity. }
        split; [rewrite Hbr by (intros k Hk'; lia); exact Hlo|].
        split; [rewrite Hbr by (intros k Hk'; lia); exact Hhi|].
        split; [exact Hblo|]. split; [exact Hbhi|exact Hw].
      * apply (output_recomputed_step a a' b k Hin).
        { rewrite Hout. apply list_lookup_insert_ne. lia. }
        apply Hbrec. lia.
Qed.

(** ** A rate change on the precise output *)

(** The state after [logiclk_calc_params] on the precise output. *)
Lemma calc_params_precise_state (d : logiclk_data) (i : nat) (o : logiclk_output) :
  output d !! i = Some o → precise o = true →
  MMCM_OUTPUT_FREQ_MIN ≤ clkout_freq o ≤ MMCM_OUTPUT_FREQ_MAX →
  MMCM_INPUT_FREQ_MIN ≤ clk_freq (input d) ≤ MMCM_INPUT_FREQ_MAX →
  length (output d) = 6%nat → ids_are_indices d →
  length (man_regs d) = 21%nat →
  ∃ dv m od d',
    logiclk_calc_params d i = Some (0, d')
    ∧ first_best (clk_freq (input d)) (clkout_freq o) enumeration (dv, m, od)
    ∧ input d' = with_mult_div (input d) m dv
    ∧ man_regs d' !! 0%nat = Some 0xFFFF
    ∧ ∀ k, (k < 6)%nat →
        output_recomputed (set_input (with_mult_div (input d) m dv) d) d' k.
Proof.
  unfold MMCM_OUTPUT_FREQ_MIN, MMCM_OUTPUT_FREQ_MAX, MMCM_INPUT_FREQ_MIN,
    MMCM_INPUT_FREQ_MAX.
  intros Ho Hp Hf Href Hout Hids Hlen.
  destruct (validated_reference_feasible (clk_freq (input d)) Href)
    as (t & Hin & Hok).
  destruct (input_mult_div_outcome d i o Ho ltac:(lia) ltac:(lia))
    as [[Hnone _]|(dv & m & od & Hfb & Es)]; [destruct (Hnone t Hin Hok)|].
  exists dv, m, od.
  pose proof (first_best_in _ _ _ _ Hfb) as Hcand.
  apply elem_of_enumeration in Hcand.
  set (d1 := set_input (with_mult_div (input d) m dv) d) in *.
  destruct (man_reg_params_tables d1 i o Ho Hlen ltac:(simpl; lia))
    as (filter & lock & d2 & _ & _ & Em & _).
  pose proof (man_reg_params_inv d1 i d2 Em) as (Hi2 & Ho2 & Hl2 & H0 & _).
  destruct (recalc_outputs_post 6 0 d2) as (d3 & Er & Hrec).
  { rewrite Hi2. simpl. lia. }
  { rewrite Hl2. exact Hlen. }
  { intros k ok Hk. rewrite Ho2 in Hk. by apply Hids. }
  { rewrite Ho2. simpl. lia. }
  { lia. }
  exists d3. split.
  - unfold logiclk_calc_params. rewrite Ho. simpl. rewrite Hp.
    destruct (Z.ltb_spec (clkout_freq o) MMCM_OUTPUT_FREQ_MIN);
      [unfold MMCM_OUTPUT_FREQ_MIN in *; lia|].
    destruct (Z.ltb_spec MMCM_OUTPUT_FREQ_MAX (clkout_freq o));
      [unfold MMCM_OUTPUT_FREQ_MAX in *; lia|].
    simpl. rewrite Es. simpl. fold d1. rewrite Em. simpl.
    change (Z.to_nat LOGICLK_OUTPUTS) with 6%nat. rewrite Er. reflexivity.
  - split; [exact Hfb|].
    destruct Hrec as (Hi3 & Hl3 & Ho3 & _ & Hr3 & Hrec).
    split; [rewrite Hi3, Hi2; reflexivity|].
    split; [rewrite Hr3 by (intros k Hk; lia); exact H0|].
    intros k Hk.
    apply (output_recomputed_step d1 d2 d3 k Hi2); [by rewrite Ho2|].
    apply Hrec. lia.
Qed.

(** X14: logiclk_calc_params on the precise output of a device with a
    validated reference, six outputs carrying their indices and a target
    in the output range: it succeeds; the input stage gets the
    multiplier and pre-divider of the first best candidate; register 0
    is the enable mask; and every one of the six outputs is recomputed
    for that input stage, with its own register pair holding its count
    word. *)
Theorem calc_params_precise (d : logiclk_data) (i : nat) (o : logiclk_output) :
  output d !! i = Some o → precise o = true →
  MMCM_OUTPUT_FREQ_MIN ≤ clkout_freq o ≤ MMCM_OUTPUT_FREQ_MAX →
  MMCM_INPUT_FREQ_MIN ≤ clk_freq (input d) ≤ MMCM_INPUT_FREQ_MAX →
  length (output d) = 6%nat → ids_are_indices d →
  length (man_regs d) = 21%nat →
  ∃ dv m od d',
    logiclk_calc_params d i = Some (0, d')
    ∧ first_best (clk_freq (input d)) (clkout_freq o) enumeration (dv, m, od)
    ∧ input d' = with_mult_div (input d) m dv
    ∧ man_regs d' !! 0%nat = Some 0xFFFF
    ∧ ∀ k, (k < 6)%nat →
        output_recomputed (set_input (with_mult_div (input d) m dv) d) d' k.
Proof. exact (calc_params_precise_state d i o). Qed.

(** ** What a Propose returns *)

Lemma to_long_small x :
  32 ≤ BITS_PER_LONG → 0 ≤ x < 2 ^ 31 → to_long x = x.
Proof.
  intros Hb Hx. unfold to_long.
  assert (2 ^ 31 ≤ 2 ^ (BITS_PER_LONG - 1)) by (apply Z.pow_le_mono_r; lia).
  destruct (Z.ltb_spec x (2 ^ (BITS_PER_LONG - 1))); [reflexivity|lia].
Qed.

Lemma tentative_ids d i o rate :
  output d !! i = Some o → ids_are_indices d →
  ids_are_indices (tentative d i o rate).
Proof.
  intros Ho Hids k ok Hk. simpl in Hk.
  destruct (decide (k = i)) as [->|Hne].
  - rewrite list_lookup_insert_eq in Hk by (eapply lookup_lt_Some, Ho).
    injection Hk as <-. simpl. by apply Hids.
  - rewrite list_lookup_insert_ne in Hk by lia. by apply Hids.
Qed.

(** X15: A Propose on a non-precise output, with the input stage as it is:
    it returns the frequency floor(vco / divider) of the first divider
    in 1..128 that comes closest to the requested rate, and records that
    divider and frequency in the output. *)
Theorem round_rate_nonprecise_closest (d : logiclk_data)
    (i : nat) (o : logiclk_output) (rate : Z) :
  output d !! i = Some o → precise o = false → 0 ≤ id o ≤ 5 →
  length (man_regs d) = 21%nat →
  0 ≤ clk_freq (input d) < 2 ^ 32 → 0 ≤ clkfbout_mult (input d) < 2 ^ 31 →
  0 < divclk_divide (input d) →
  clk_freq (input d) * clkfbout_mult (input d) / divclk_divide (input d) < 2 ^ 31 →
  MMCM_OUTPUT_FREQ_MIN ≤ rate ≤ MMCM_OUTPUT_FREQ_MAX →
  32 ≤ BITS_PER_LONG →
  let f := clk_freq (input d) * clkfbout_mult (input d)
           / divclk_divide (input d) in
  ∃ cd d',
    logiclk_round_rate d i rate = Some (f / cd, d')
    ∧ 1 ≤ cd ≤ 128
    ∧ (∀ o', 1 ≤ o' ≤ 128 →
         Z.abs (f / cd - rate) ≤ Z.abs (f / o' - rate)
         ∧ (o' < cd → Z.abs (f / cd - rate) < Z.abs (f / o' - rate)))
    ∧ ∃ o3, output d' !! i = Some o3
        ∧ clkout_freq o3 = f / cd ∧ clkout_divide o3 = cd.
Proof.
  intros Ho Hp Hid Hlen Href Hm Hdiv Hf Hrate Hbits f.
  assert (Hr32 : 0 ≤ rate < 2 ^ 32)
    by (unfold MMCM_OUTPUT_FREQ_MIN, MMCM_OUTPUT_FREQ_MAX in Hrate; lia).
  assert (Hw : wrap32 rate = rate) by (apply wrap32_id; lia).
  pose proof (tentative_lookup d i o rate Ho) as Hl. rewrite Hw in Hl.
  set (T := tentative d i o rate) in *.
  destruct (output_div_closest T i _ Hl Href Hm Hdiv ltac:(simpl; lia))
    as (cd & Ecd & Hcd & Hclose).
  simpl clkout_freq in Hclose. fold f in Hclose.
  destruct (man_reg_params_id_state T i _ (id o) Hl ltac:(simpl; lia)
              ltac:(lia) Hlen)
    as (cd' & lo & hi & d3 & Ecd' & _ & Erun & _ & Hout & _).
  rewrite Ecd in Ecd'. injection Ecd' as <-.
  assert (Hprod : 0 ≤ clk_freq (input d) * clkfbout_mult (input d) < 2 ^ 63)
    by nia.
  assert (Hf0 : 0 ≤ f) by (apply Z.div_pos; lia).
  assert (Hq : 0 ≤ f / cd ≤ f).
  { split; [apply Z.div_pos; lia|]. apply Z.div_le_upper_bound; nia. }
  exists cd, d3.
  assert (Ho3 : output d3 !! i
                = Some {| clkout_freq := f / cd; clkout_divide := cd;
                          clkout_duty := clkout_duty o;
                          clkout_phase := clkout_phase o; id := id o;
                          precise := precise o |}).
  { rewrite Hout. rewrite list_lookup_insert_eq by (eapply lookup_lt_Some, Hl).
    simpl. rewrite wrap64_id by lia. fold f.
    rewrite wrap32_id by lia. reflexivity. }
  split.
  - unfold logiclk_round_rate. rewrite (push_snapshot d i o Ho). simpl.
    rewrite Ho. simpl. fold (tentative d i o rate). fold T.
    rewrite (calc_params_nonprecise T i _ Hl Hp). simpl clkout_freq.
    destruct (Z.ltb_spec rate MMCM_OUTPUT_FREQ_MIN);
      [unfold MMCM_OUTPUT_FREQ_MIN in *; lia|].
    destruct (Z.ltb_spec MMCM_OUTPUT_FREQ_MAX rate);
      [unfold MMCM_OUTPUT_FREQ_MAX in *; lia|].
    simpl. rewrite Erun. simpl. rewrite Ho3. simpl.
    rewrite to_long_small by lia. reflexivity.
  - split; [exact Hcd|]. split; [exact Hclose|]. eexists. split; [exact Ho3|].
    split; reflexivity.
Qed.

(** X16: A Propose on the precise output of a device with a validated
    reference and six outputs carrying their indices, for a rate in the
    output range: it returns a frequency floor(vco / divider) of a
    candidate inside the VCO window, and no candidate inside the window
    comes closer to the requested rate; the input stage holds the
    multiplier and pre-divider of that candidate. *)
Theorem round_rate_precise_closest (d : logiclk_data)
    (i : nat) (o : logiclk_output) (rate : Z) :
  output d !! i = Some o → precise o = true →
  MMCM_OUTPUT_FREQ_MIN ≤ rate ≤ MMCM_OUTPUT_FREQ_MAX →
  MMCM_INPUT_FREQ_MIN ≤ clk_freq (input d) ≤ MMCM_INPUT_FREQ_MAX →
  length (output d) = 6%nat → ids_are_indices d →
  length (man_regs d) = 21%nat → 32 ≤ BITS_PER_LONG →
  ∃ dv m cd d',
    logiclk_round_rate d i rate
      = Some (vco (clk_freq (input d)) dv m / cd, d')
    ∧ (1 ≤ dv ≤ 56 ∧ 2 ≤ m ≤ 64 ∧ 1 ≤ cd ≤ 128)
    ∧ vco_ok (clk_freq (input d)) (dv, m, cd)
    ∧ input d' = with_mult_div (input d) m dv
    ∧ ∀ dv' m' od',
        1 ≤ dv' ≤ 56 ∧ 2 ≤ m' ≤ 64 ∧ 1 ≤ od' ≤ 128 →
        vco_ok (clk_freq (input d)) (dv', m', od') →
        freq_error (clk_freq (input d)) rate (dv, m, cd)
          ≤ freq_error (clk_freq (input d)) rate (dv', m', od').
Proof.
  intros Ho Hp Hrate Href Hout Hids Hlen Hbits.
  assert (Hw : wrap32 rate = rate).
  { unfold MMCM_OUTPUT_FREQ_MIN, MMCM_OUTPUT_FREQ_MAX in Hrate.
    apply wrap32_id; lia. }
  pose proof (tentative_lookup d i o rate Ho) as Hl. rewrite Hw in Hl.
  pose proof (tentative_ids d i o rate Ho Hids) as HidsT.
  set (T := tentative d i o rate) in *.
  assert (HoutT : length (output T) = 6%nat)
    by (simpl; rewrite length_insert; exact Hout).
  destruct (calc_params_precise_state T i _ Hl Hp Hrate Href HoutT HidsT Hlen)
    as (dv & m & od & d3 & Ec & Hfb & Hi3 & _ & Hrec).
  simpl clkout_freq in Hfb. change (clk_freq (input T)) with (clk_freq (input d)) in *.
  change (input T) with (input d) in *.
  apply first_best_order in Hfb as (Hin & Hok & Hbest).
  apply elem_of_enumeration in Hin.
  set (ref := clk_freq (input d)) in *.
  set (T1 := set_input (with_mult_div (input d) m dv) T) in *.
  assert (Hl1 : output T1 !! i = Some (set_clkout_freq rate o)) by exact Hl.
  pose proof (lookup_lt_Some _ _ _ Hl) as Hi6. rewrite HoutT in Hi6.
  destruct (Hrec i Hi6 _ Hl1) as (cd & lo & hi & Ecd & Hcd & Ho3 & _).
  unfold MMCM_INPUT_FREQ_MIN, MMCM_INPUT_FREQ_MAX, MMCM_OUTPUT_FREQ_MIN,
    MMCM_OUTPUT_FREQ_MAX in *.
  destruct (output_div_closest T1 i _ Hl1 ltac:(simpl; lia)
              ltac:(simpl; lia) ltac:(simpl; lia) ltac:(simpl; lia))
    as (cd' & Ecd' & _ & Hclose).
  rewrite Ecd in Ecd'. injection Ecd' as <-.
  simpl in Hclose. fold ref in Hclose. fold (vco ref dv m) in Hclose.
  assert (Hvco : vco_of (input T1) = vco ref dv m).
  { unfold vco_of, vco. simpl. fold ref. rewrite wrap64_id by nia. reflexivity. }
  rewrite Hvco in Ho3.
  assert (Hv : 600000000 ≤ vco ref dv m ≤ 1600000000) by exact Hok.
  assert (Hq : 0 ≤ vco ref dv m / cd ≤ 1600000000).
  { split; [apply Z.div_pos; lia|]. apply Z.div_le_upper_bound; nia. }
  rewrite wrap32_id in Ho3 by lia.
  exists dv, m, cd, d3. split.
  - unfold logiclk_round_rate. rewrite (push_snapshot d i o Ho). simpl.
    rewrite Ho. simpl. fold (tentative d i o rate). fold T.
    rewrite Ec. simpl. rewrite Ho3. simpl.
    rewrite to_long_small by lia. reflexivity.
  - split; [lia|]. split; [exact Hok|]. split; [exact Hi3|].
    intros dv' m' od' Hr' Hok'.
    destruct (Hbest (dv', m', od') ltac:(by apply elem_of_enumeration) Hok')
      as [Hle _].
    destruct (Hclose od ltac:(lia)) as [Hle' _].
    unfold freq_error in *. lia.
Qed.

(** * Rate changes that fail *)



(** * Further properties of the configuration load *)

(** ** One child *)

(** The fields of an output after its iteration of the loop. *)
Lemma config_output_fields (p : nat) (c : of_child) (i : nat)
    (o : logiclk_output) (sf : bool) :
  let o' := (config_output p c i o sf).1 in
  id o' = Z.of_nat i mod 2 ^ 8
  ∧ precise o' = (if decide (of_handle c = p) then true else precise o)
  ∧ (clkout_freq o' = 0
     ∨ MMCM_OUTPUT_FREQ_MIN ≤ clkout_freq o' ≤ MMCM_OUTPUT_FREQ_MAX)
  ∧ (clkout_freq o' = 0 ↔
       read_u32 (of_frequency c) (clkout_freq o) = 0
       ∨ ¬ MMCM_OUTPUT_FREQ_MIN ≤ read_u32 (of_frequency c) (clkout_freq o)
             ≤ MMCM_OUTPUT_FREQ_MAX)
  ∧ clkout_divide o' = read_u32 (of_divide c) (clkout_divide o)
  ∧ (config_output p c i o sf).2
      = (if clkout_freq o' =? 0 then sf else true).
Proof.
  unfold config_output. cbn zeta.
  set (f := read_u32 (of_frequency c) _).
  set (f' := if negb (f =? 0) && _ then 0 else f).
  assert (Hf : (f' = 0 ∨ MMCM_OUTPUT_FREQ_MIN ≤ f' ≤ MMCM_OUTPUT_FREQ_MAX)
               ∧ (f' = 0 ↔ f = 0 ∨ ¬ MMCM_OUTPUT_FREQ_MIN ≤ f ≤ MMCM_OUTPUT_FREQ_MAX)).
  { subst f'. unfold MMCM_OUTPUT_FREQ_MIN, MMCM_OUTPUT_FREQ_MAX.
    destruct (Z.eqb_spec f 0); cbn [negb andb]; [lia|].
    destruct (Z.ltb_spec f 4690000); cbn [orb]; [lia|].
    destruct (Z.ltb_spec 800000000 f); lia. }
  destruct Hf as [Hf1 Hf2].
  repeat match goal with |- context [if ?b then (_, _) else _] => destruct b end;
    cbn; (repeat split; try assumption; try apply Hf2;
          try (destruct (f' =? 0); reflexivity)).
Qed.

(** ** The loop over the children *)

(** The loop over the children: it ends, leaves the input stage and the
    register image alone, and sets output [i + j] from child [j]. *)
Lemma config_children_spec (p : nat) (cs : list of_child) :
  ∀ (i : nat) (d : logiclk_data) (sf : bool),
    (i + length cs ≤ length (output d))%nat →
    ∃ d' sf', config_children p cs i d sf = Some (d', sf')
      ∧ input d' = input d ∧ man_regs d' = man_regs d
      ∧ length (output d') = length (output d)
      ∧ (∀ k, (k < i ∨ i + length cs ≤ k)%nat → output d' !! k = output d !! k)
      ∧ (∀ j c, cs !! j = Some c →
           ∃ o sfj, output d !! (i + j)%nat = Some o
             ∧ output d' !! (i + j)%nat = Some (config_output p c (i + j) o sfj).1)
      ∧ (sf' = true ↔
           sf = true
           ∨ ∃ k o, (i ≤ k)%nat ∧ output d' !! k = Some o ∧ clkout_freq o ≠ 0
                    ∧ (k < i + length cs)%nat).
Proof.
  induction cs as [|c cs IH]; intros i d sf Hlen.
  - exists d, sf. cbn. repeat split; try done.
    + intros H; left; exact H.
    + intros [H|(k & o & ? & ? & ? & ?)]; [exact H | lia].
  - cbn [config_children length] in *.
    destruct (lookup_lt_is_Some_2 (output d) i ltac:(lia)) as [o Ho].
    rewrite Ho. cbn [mbind option_bind].
    destruct (config_output p c i o sf) as [o' sf1] eqn:Eo.
    set (d1 := set_output (<[i := o']> (output d)) d).
    assert (Hl1 : length (output d1) = length (output d))
      by (subst d1; destruct d; cbn; apply length_insert).
    destruct (IH (S i) d1 sf1 ltac:(lia))
      as (d' & sf' & Hrun & Hin & Hregs & Hl & Hout & Hin' & Hsf).
    exists d', sf'. split; [exact Hrun|].
    assert (Hd1out : output d1 = <[i := o']> (output d))
      by (subst d1; destruct d; reflexivity).
    assert (Hi' : output d' !! i = Some o').
    { rewrite Hout by lia. rewrite Hd1out.
      apply list_lookup_insert_eq. lia. }
    split; [rewrite Hin; subst d1; destruct d; reflexivity|].
    split; [rewrite Hregs; subst d1; destruct d; reflexivity|].
    split; [lia|].
    split; [|split].
    + intros k Hk. rewrite Hout by lia. rewrite Hd1out.
      apply list_lookup_insert_ne. lia.
    + intros [|j] c' Hc'.
      * cbn in Hc'. injection Hc' as <-. exists o, sf.
        rewrite Nat.add_0_r, Eo. split; [exact Ho | exact Hi'].
      * cbn in Hc'. destruct (Hin' j c' Hc') as (oj & sfj & Hoj & Hoj').
        exists oj, sfj. replace (i + S j)%nat with (S i + j)%nat by lia.
        split; [|exact Hoj'].
        rewrite Hd1out in Hoj. rewrite list_lookup_insert_ne in Hoj by lia.
        exact Hoj.
    + pose proof (config_output_fields p c i o sf) as (_ & _ & _ & _ & _ & Hflag).
      rewrite Eo in Hflag. cbn [fst snd] in Hflag.
      rewrite Hsf. split.
      * intros [H1|(k & ok & Hk1 & Hk2 & Hk3 & Hk4)].
        -- rewrite Hflag in H1. destruct (Z.eqb_spec (clkout_freq o') 0).
           ++ left; exact H1.
           ++ right. exists i, o'. repeat split; try assumption; lia.
        -- right. exists k, ok. repeat split; try assumption; lia.
      * intros [H1|(k & ok & Hk1 & Hk2 & Hk3 & Hk4)].
        -- left. rewrite Hflag, H1. destruct (_ =? _); reflexivity.
        -- destruct (decide (k = i)) as [->|Hne].
           ++ left. rewrite Hi' in Hk2. injection Hk2 as <-.
              rewrite Hflag. destruct (Z.eqb_spec (clkout_freq o') 0); [done|reflexivity].
           ++ right. exists k, ok. repeat split; try assumption; lia.
Qed.

(** ** The checks on the device node *)

(** A check that fails: the node is not valid, the return code is not 0
    and only the input stage has been written. *)
Ltac config_reject d :=
  left; split;
  [ intros (? & ? & ? & ? & ? & ? & ? & ? & ? & ?); first [lia | congruence]
  | eexists _, _; split; [|split; [reflexivity|destruct d; done]];
    first [assumption | discriminate] ].

(** logiclk_get_of_config either fails one of its checks on the device
    node, or runs the loop over the children on the loaded input stage
    and returns 0. *)
Lemma get_of_config_cases (dn : of_node) (d : logiclk_data) (sf : bool) :
  (¬ input_node_valid dn
   ∧ ∃ ret d', ret ≠ 0
       ∧ logiclk_get_of_config dn d sf = Some (ret, d', sf)
       ∧ output d' = output d ∧ man_regs d' = man_regs d)
  ∨ (input_node_valid dn
     ∧ ∃ p, of_precise_output dn = Some p
         ∧ logiclk_get_of_config dn d sf
           = (r ← config_children p (of_children dn) 0
                    (set_input (loaded_input dn (input d)) d) sf;
              Some (0, r.1, r.2))).
Proof.
  unfold logiclk_get_of_config, input_node_valid, loaded_input, read_u32.
  destruct dn as [[r1 v1] [r2 v2] [r3 v3] [r4 v4] bw po cs].
  cbn [of_input_frequency of_input_divide of_input_multiply of_input_phase
       of_bandwidth_high of_precise_output of_children of_ret of_val].
  change (Z.to_nat LOGICLK_OUTPUTS) with 6%nat.
  assert (Hw4 : 0 ≤ wrap32 v4) by (apply Z.mod_pos_bound; lia).
  revert Hw4.
  generalize (wrap32 v1) (wrap32 v2) (wrap32 v3) (wrap32 v4).
  intros w1 w2 w3 w4 Hw4.
  unfold MMCM_INPUT_FREQ_MIN, MMCM_INPUT_FREQ_MAX, MMCM_DIVCLK_DIVIDE_MIN,
    MMCM_DIVCLK_DIVIDE_MAX, MMCM_FBOUT_MULTIPLY_MIN, MMCM_FBOUT_MULTIPLY_MAX,
    MMCM_PHASE_MAX, to_s32.
  destruct (Nat.eqb_spec (length cs) 6) as [Hl|Hl]; cbn [negb].
  2:{ left. split; [tauto|]. exists (- EINVAL), d. done. }
  destruct (Z.eqb_spec r1 0) as [->|Hr1]; cbn [negb];
    [|config_reject d].
  cbn [clk_freq set_clk_freq].
  destruct (Z.ltb_spec w1 10000000); cbn [orb]; [config_reject d|].
  destruct (Z.ltb_spec 800000000 w1); [config_reject d|].
  destruct (Z.eqb_spec r2 0) as [->|Hr2]; cbn [negb];
    [|config_reject d].
  cbn [divclk_divide set_divclk_divide].
  destruct (Z.ltb_spec w2 1); cbn [orb]; [config_reject d|].
  destruct (Z.ltb_spec 56 w2); [config_reject d|].
  destruct (Z.eqb_spec r3 0) as [->|Hr3]; cbn [negb];
    [|config_reject d].
  cbn [clkfbout_mult set_clkfbout_mult].
  destruct (Z.ltb_spec w3 2); cbn [orb]; [config_reject d|].
  destruct (Z.ltb_spec 64 w3); [config_reject d|].
  destruct (Z.eqb_spec r4 0) as [->|Hr4]; cbn [negb];
    [|config_reject d].
  cbn [clkfbout_phase set_clkfbout_phase].
  destruct (Z.ltb_spec 360000 w4); [rewrite orb_true_r; config_reject d|].
  rewrite orb_false_r.
  destruct (Z.ltb_spec w4 (2 ^ 31)); [|lia].
  destruct (w4 <? _) eqn:E; [apply Z.ltb_lt in E; lia|clear E].
  destruct po as [p|]; [|config_reject d].
  right. split; [repeat split; try lia; done|].
  exists p. split; [reflexivity|].
  destruct bw; cbn [orb set_bw_high set_clkfbout_phase set_clkfbout_mult
                   set_divclk_divide set_clk_freq clk_freq clkfbout_mult
                   clkfbout_phase divclk_divide bw_high];
    destruct (config_children _ _ _ _ _) as [[? ?]|]; reflexivity.
Qed.

(** The same split, with the loop over the children run. *)
Lemma get_of_config_valid (dn : of_node) (d : logiclk_data) (sf : bool) :
  input_node_valid dn → length (output d) = 6%nat →
  ∃ p d' sf',
    of_precise_output dn = Some p
    ∧ logiclk_get_of_config dn d sf = Some (0, d', sf')
    ∧ config_children p (of_children dn) 0
        (set_input (loaded_input dn (input d)) d) sf = Some (d', sf').
Proof.
  intros Hv Hlen.
  destruct (get_of_config_cases dn d sf) as [[Hn _]|[_ (p & Hp & Hrun)]];
    [contradiction|].
  destruct (config_children_spec p (of_children dn) 0
              (set_input (loaded_input dn (input d)) d) sf)
    as (d' & sf' & Hc & _).
  { destruct Hv as [-> _]. destruct d; cbn in *. lia. }
  exists p, d', sf'. rewrite Hrun, Hc. done.
Qed.

(** X17: logiclk_get_of_config always returns, and returns 0 exactly when
    the device node has six children, its four input properties are
    read and lie in their ranges (the phase in 0..360000: a negative
    phase, read as [u32], is above the maximum) and "precise-output"
    names a node.  What the children hold plays no part: a child with a
    missing or invalid property does not fail the load.  When the code
    is not 0, the outputs, the register image and [*set_freq] are as
    before the call. *)
Theorem get_of_config_accepts (dn : of_node) (d : logiclk_data) (sf : bool) :
  length (output d) = 6%nat →
  ∃ ret d' sf',
    logiclk_get_of_config dn d sf = Some (ret, d', sf')
    ∧ (ret = 0 ↔ input_node_valid dn)
    ∧ (ret ≠ 0 →
       sf' = sf ∧ output d' = output d ∧ man_regs d' = man_regs d).
Proof.
  intros Hlen.
  destruct (get_of_config_cases dn d sf)
    as [[Hn (ret & d' & Hret & Hrun & Ho & Hr)]|[Hv _]].
  - exists ret, d', sf. split; [exact Hrun|]. split; [tauto|done].
  - destruct (get_of_config_valid dn d sf Hv Hlen) as (p & d' & sf' & _ & Hrun & _).
    exists 0, d', sf'. split; [exact Hrun|]. split; [tauto|done].
Qed.

(** X18: After logiclk_get_of_config has accepted a device node: the input
    stage holds the values read, with a reference in 10..800 MHz; the
    register image is as before; there are six outputs, each carrying
    its index as id and a frequency that is 0 or in the output range;
    and [*set_freq] is set exactly when it was set before or some output
    has a non-zero frequency. *)
Theorem get_of_config_loaded (dn : of_node) (d : logiclk_data) (sf : bool) :
  input_node_valid dn → length (output d) = 6%nat →
  ∃ d' sf',
    logiclk_get_of_config dn d sf = Some (0, d', sf')
    ∧ input d' = loaded_input dn (input d)
    ∧ MMCM_INPUT_FREQ_MIN ≤ clk_freq (input d') ≤ MMCM_INPUT_FREQ_MAX
    ∧ man_regs d' = man_regs d
    ∧ length (output d') = 6%nat
    ∧ ids_are_indices d'
    ∧ (∀ k o, output d' !! k = Some o →
         clkout_freq o = 0
         ∨ MMCM_OUTPUT_FREQ_MIN ≤ clkout_freq o ≤ MMCM_OUTPUT_FREQ_MAX)
    ∧ (sf' = true ↔
         sf = true ∨ ∃ k o, output d' !! k = Some o ∧ clkout_freq o ≠ 0).
Proof.
  intros Hv Hlen.
  destruct (get_of_config_valid dn d sf Hv Hlen) as (p & d' & sf' & _ & Hrun & Hc).
  exists d', sf'. split; [exact Hrun|].
  assert (Hcs : length (of_children dn) = 6%nat) by apply Hv.
  destruct (config_children_spec p (of_children dn) 0
              (set_input (loaded_input dn (input d)) d) sf)
    as (d2 & sf2 & Hc2 & Hin & Hregs & Hl & _ & Hout & Hsf).
  { rewrite Hcs. destruct d; cbn in *. lia. }
  rewrite Hc in Hc2. injection Hc2 as <- <-.
  assert (Hin' : input d' = loaded_input dn (input d))
    by (rewrite Hin; destruct d; reflexivity).
  assert (Hl' : length (output d') = 6%nat)
    by (rewrite Hl; destruct d; exact Hlen).
  assert (Hk : ∀ k o, output d' !! k = Some o →
            ∃ c o0 sfk, of_children dn !! k = Some c
              ∧ o = (config_output p c k o0 sfk).1).
  { intros k o Hko.
    assert (k < 6)%nat by (rewrite <- Hl'; eapply lookup_lt_Some, Hko).
    destruct (lookup_lt_is_Some_2 (of_children dn) k ltac:(lia)) as [c Hc'].
    destruct (Hout k c Hc') as (o0 & sfk & _ & Ho').
    cbn [Nat.add] in Ho'. rewrite Hko in Ho'. injection Ho' as ->.
    exists c, o0, sfk. done. }
  split; [exact Hin'|].
  split; [rewrite Hin'; cbn; apply Hv|].
  split; [rewrite Hregs; destruct d; reflexivity|].
  split; [exact Hl'|].
  split; [|split].
  - intros k o Hko. destruct (Hk k o Hko) as (c & o0 & sfk & _ & ->).
    assert (k < 6)%nat by (rewrite <- Hl'; eapply lookup_lt_Some, Hko).
    pose proof (config_output_fields p c k o0 sfk) as (Hid & _).
    rewrite Hid. apply Z.mod_small. change (2 ^ 8) with 256. lia.
  - intros k o Hko. destruct (Hk k o Hko) as (c & o0 & sfk & _ & ->).
    apply (config_output_fields p c k o0 sfk).
  - rewrite Hsf, Hcs. split.
    + intros [H|(k & o & _ & Hko & Hf & _)]; [left; exact H|].
      right. exists k, o. done.
    + intros [H|(k & o & Hko & Hf)]; [left; exact H|].
      right. exists k, o.
      assert (k < 6)%nat by (rewrite <- Hl'; eapply lookup_lt_Some, Hko).
      repeat split; try assumption; lia.
Qed.

(** ** The outputs after a load *)

(** Each output after an accepted load, from its child. *)
Lemma get_of_config_outputs (dn : of_node) (d : logiclk_data) (sf : bool) :
  input_node_valid dn → length (output d) = 6%nat →
  ∃ p d' sf',
    of_precise_output dn = Some p
    ∧ logiclk_get_of_config dn d sf = Some (0, d', sf')
    ∧ input d' = loaded_input dn (input d)
    ∧ length (output d') = 6%nat
    ∧ ∀ k c, of_children dn !! k = Some c →
        ∃ o sfk, output d !! k = Some o
          ∧ output d' !! k = Some (config_output p c k o sfk).1.
Proof.
  intros Hv Hlen.
  destruct (get_of_config_valid dn d sf Hv Hlen) as (p & d' & sf' & Hp & Hrun & Hc).
  exists p, d', sf'. split; [exact Hp|]. split; [exact Hrun|].
  assert (Hcs : length (of_children dn) = 6%nat) by apply Hv.
  destruct (config_children_spec p (of_children dn) 0
              (set_input (loaded_input dn (input d)) d) sf)
    as (d2 & sf2 & Hc2 & Hin & Hregs & Hl & _ & Hout & Hsf).
  { rewrite Hcs. destruct d; cbn in *. lia. }
  rewrite Hc in Hc2. injection Hc2 as <- <-.
  split; [rewrite Hin; destruct d; reflexivity|].
  split; [rewrite Hl; destruct d; exact Hlen|].
  intros k c Hkc. destruct (Hout k c Hkc) as (o & sfk & Ho & Ho').
  exists o, sfk. split; [destruct d; exact Ho | exact Ho'].
Qed.

(** X19: On a device node that the load accepts, when the children are
    distinct nodes, "precise-output" names child [k] and no output was
    marked before, logiclk_get_of_config marks output [k] as precise
    and no other. *)
Theorem get_of_config_one_precise (dn : of_node) (d : logiclk_data)
    (sf : bool) (p k : nat) (c : of_child) :
  input_node_valid dn → length (output d) = 6%nat →
  (∀ j o, output d !! j = Some o → precise o = false) →
  of_precise_output dn = Some p →
  NoDup (of_handle <$> of_children dn) →
  of_children dn !! k = Some c → of_handle c = p →
  ∃ d' sf',
    logiclk_get_of_config dn d sf = Some (0, d', sf')
    ∧ ∀ j o, output d' !! j = Some o → (precise o = true ↔ j = k).
Proof.
  intros Hv Hlen Hnp Hp Hnd Hkc Hh.
  destruct (get_of_config_outputs dn d sf Hv Hlen)
    as (p' & d' & sf' & Hp' & Hrun & _ & Hl' & Hout).
  rewrite Hp in Hp'. injection Hp' as <-.
  exists d', sf'. split; [exact Hrun|].
  intros j o Hjo.
  assert (Hcs : length (of_children dn) = 6%nat) by apply Hv.
  assert (j < 6)%nat by (rewrite <- Hl'; eapply lookup_lt_Some, Hjo).
  destruct (lookup_lt_is_Some_2 (of_children dn) j ltac:(lia)) as [cj Hcj].
  destruct (Hout j cj Hcj) as (o0 & sfj & Ho0 & Ho').
  rewrite Hjo in Ho'. injection Ho' as ->.
  pose proof (config_output_fields p cj j o0 sfj) as (_ & Hprec & _).
  rewrite Hprec, (Hnp j o0 Ho0).
  destruct (decide (of_handle cj = p)) as [Heq|Hne].
  - split; [intros _|done].
    eapply NoDup_lookup; [exact Hnd | |];
      rewrite list_lookup_fmap; [rewrite Hcj|rewrite Hkc]; cbn;
      first [reflexivity | congruence].
  - split; [done|]. intros ->. rewrite Hkc in Hcj. congruence.
Qed.

(** X20: A child without a "divide" property does not fail the load, and
    the divider of its output stays as it was: on freshly zeroed device
    data it is 0, so that logiclk_calc_freq on that output divides by
    zero, and so does logiclk_recalc_rate when the child gives no
    frequency either. *)
Theorem get_of_config_missing_divide (dn : of_node)
    (d : logiclk_data) (sf : bool) (k : nat) (c : of_child)
    (o : logiclk_output) :
  input_node_valid dn → length (output d) = 6%nat →
  of_children dn !! k = Some c → of_ret (of_divide c) ≠ 0 →
  output d !! k = Some o → clkout_divide o = 0 →
  ∃ d' sf',
    logiclk_get_of_config dn d sf = Some (0, d', sf')
    ∧ logiclk_calc_freq d' k = None
    ∧ (of_ret (of_frequency c) ≠ 0 → clkout_freq o = 0 →
       ∀ parent_rate, logiclk_recalc_rate d' k parent_rate = None).
Proof.
  intros Hv Hlen Hkc Hdiv Hko Hz.
  destruct (get_of_config_outputs dn d sf Hv Hlen)
    as (p & d' & sf' & _ & Hrun & Hin & _ & Hout).
  exists d', sf'. split; [exact Hrun|].
  destruct (Hout k c Hkc) as (o0 & sfk & Ho0 & Ho').
  rewrite Hko in Ho0. injection Ho0 as <-.
  pose proof (config_output_fields p c k o sfk) as (_ & _ & _ & Hf0 & Hd & _).
  cbn zeta in Hf0, Hd.
  assert (Hd0 : clkout_divide (config_output p c k o sfk).1 = 0).
  { rewrite Hd. unfold read_u32.
    destruct (Z.eqb_spec (of_ret (of_divide c)) 0); [contradiction|exact Hz]. }
  split.
  - unfold logiclk_calc_freq. rewrite Ho'. cbn [mbind option_bind].
    rewrite Hd0, Z.mul_0_r. reflexivity.
  - intros Hfr Hfz pr. unfold logiclk_recalc_rate.
    rewrite Ho'. cbn [mbind option_bind].
    assert (Hf : clkout_freq (config_output p c k o sfk).1 = 0).
    { apply Hf0. left. unfold read_u32.
      destruct (Z.eqb_spec (of_ret (of_frequency c)) 0); [contradiction|exact Hfz]. }
    rewrite Hf, Hd0. cbn [Z.eqb].
    destruct (div_u64 _ (divclk_divide _)); reflexivity.
Qed.

(** * Further properties of the register packer *)

(** ** Where the table lookups are defined *)

(** The index at which the tables are read lies inside them exactly for
    a multiplier in 2..65. *)
Lemma lut_index_defined (m : Z) :
  0 ≤ m < 2 ^ 32 →
  ((Z.to_nat (wrap32 (wrap32 (m - 1) - 1)) < 64)%nat ↔ 2 ≤ m ≤ 65).
Proof.
  intros Hm.
  destruct (decide (m = 0)) as [->|H0].
  { replace (wrap32 (wrap32 (0 - 1) - 1)) with 4294967294
      by (vm_compute; reflexivity). lia. }
  destruct (decide (m = 1)) as [->|H1].
  { replace (wrap32 (wrap32 (1 - 1) - 1)) with 4294967295
      by (vm_compute; reflexivity). lia. }
  unfold wrap32. rewrite (Z.mod_small (m - 1)) by lia.
  rewrite Z.mod_small by lia. lia.
Qed.

(** X21: The shared registers are written by logiclk_man_reg_params without
    reading outside the characterization tables exactly when the
    multiplier of the input stage is in 2..65; and then the input stage
    and the outputs are as before, register 0 is the enable mask and
    registers 14 and 15 are the low and the high 16 bits, each below
    2^16, of the count word of the multiplier. *)
Theorem man_reg_params_defined (d : logiclk_data) (i : nat)
    (o : logiclk_output) :
  output d !! i = Some o → length (man_regs d) = 21%nat →
  0 ≤ clkfbout_mult (input d) < 2 ^ 32 →
  (is_Some (logiclk_man_reg_params d i) ↔ 2 ≤ clkfbout_mult (input d) ≤ 65)
  ∧ ∀ d', logiclk_man_reg_params d i = Some d' →
      input d' = input d ∧ output d' = output d
      ∧ man_regs d' !! 0%nat = Some 0xFFFF
      ∧ ∃ r14 r15,
          man_regs d' !! 14%nat = Some r14 ∧ man_regs d' !! 15%nat = Some r15
          ∧ 0 ≤ r14 < 2 ^ 16 ∧ 0 ≤ r15 < 2 ^ 16
          ∧ r14 + 2 ^ 16 * r15
            = logiclk_pll_count (clkfbout_mult (input d)) (clkout_duty o)
                (to_s32 (clkfbout_phase (input d))).
Proof.
  intros Ho Hlen Hm. split.
  - pose proof (lut_index_defined _ Hm) as Hidx.
    split.
    + intros [d' H]. apply Hidx. clear Hidx.
      unfold logiclk_man_reg_params in H. rewrite Ho in H. simpl in H.
      unfold logiclk_pll_lut_filter, logiclk_pll_lut_lock in H.
      destruct (lut_lock !! _) as [lock|] eqn:El.
      * apply lookup_lt_Some in El. exact El.
      * destruct (if bw_high (input d) then _ else _); discriminate.
    + intros Hr. apply Hidx in Hr.
      assert (Hf : is_Some (logiclk_pll_lut_filter
                              (wrap32 (clkfbout_mult (input d) - 1))
                              (bw_high (input d)))).
      { unfold logiclk_pll_lut_filter.
        destruct (bw_high (input d)); apply lookup_lt_is_Some_2; exact Hr. }
      assert (Hk : is_Some (logiclk_pll_lut_lock
                              (wrap32 (clkfbout_mult (input d) - 1)))).
      { unfold logiclk_pll_lut_lock. apply lookup_lt_is_Some_2; exact Hr. }
      destruct Hf as [filter Hf], Hk as [lock Hk].
      destruct (man_reg_params_image d i o filter lock Ho Hlen Hf Hk)
        as (? & ? & ? & ->). done.
  - intros d' H.
    destruct (man_reg_params_inv d i d' H) as (Hin & Hout & _ & H0 & _).
    split; [exact Hin|]. split; [exact Hout|]. split; [exact H0|].
    unfold logiclk_man_reg_params in H. rewrite Ho in H. simpl in H.
    destruct (logiclk_pll_lut_filter _ _) as [filter|]; simpl in H; [|discriminate].
    destruct (logiclk_pll_lut_lock _) as [lock|]; simpl in H; [|discriminate].
    destruct (lock_regs lock) as [[r16 r17] r18].
    destruct (filter_regs filter) as [r19 r20].
    do 9 store_step H.
    injection H as <-. simpl.
    eexists _, _. split; [|split; [|split; [|split]]].
    + rewrite !list_lookup_insert_ne by lia.
      apply list_lookup_insert_eq. rewrite !length_insert. lia.
    + rewrite !list_lookup_insert_ne by lia.
      apply list_lookup_insert_eq. rewrite !length_insert. lia.
    + apply get_bits_range; lia.
    + apply get_bits_range; lia.
    + apply halves_recombine.
      pose proof (pll_count_range (clkfbout_mult (input d)) (clkout_duty o)
                    (to_s32 (clkfbout_phase (input d)))). lia.
Qed.

(** * A Propose followed by a Commit *)

(** The frequency that logiclk_man_reg_params_id records is a [u32];
    the other outputs are as before. *)
Lemma man_reg_params_id_freq d i id_ d' :
  logiclk_man_reg_params_id d i id_ = Some d' →
  (∃ o', output d' !! i = Some o' ∧ 0 ≤ clkout_freq o' < 2 ^ 32)
  ∧ ∀ k, k ≠ i → output d' !! k = output d !! k.
Proof.
  unfold logiclk_man_reg_params_id. intros H.
  destruct (output d !! i) as [o|] eqn:Ho; simpl in H; [|discriminate].
  destruct (div_u64 _ (divclk_divide (input d))) as [f|]; simpl in H;
    [|discriminate].
  destruct (logiclk_pll_output_div d i) as [cd|]; simpl in H; [|discriminate].
  do 2 store_step H.
  destruct (div_u64 f cd) as [q|]; simpl in H; [|discriminate].
  injection H as <-. simpl. split.
  - eexists. split.
    + apply list_lookup_insert_eq. eapply lookup_lt_Some, Ho.
    + simpl. unfold wrap32. apply Z.mod_pos_bound. lia.
  - intros k Hk. apply list_lookup_insert_ne. congruence.
Qed.

Lemma recalc_outputs_freq n :
  ∀ j a b, recalc_outputs n j a = Some b →
  (∀ k, (j ≤ k < j + n)%nat →
     ∃ o', output b !! k = Some o' ∧ 0 ≤ clkout_freq o' < 2 ^ 32)
  ∧ ∀ k, (k < j)%nat → output b !! k = output a !! k.
Proof.
  induction n as [|n IH]; intros j a b.
  - intros [= <-]. split; [lia|done].
  - rewrite recalc_outputs_S.
    destruct (output a !! j); simpl; [|discriminate].
    destruct (logiclk_man_reg_params_id a j _) as [a'|] eqn:E; simpl;
      [|discriminate].
    intros Hb. apply IH in Hb as (Hin & Hbefore).
    apply man_reg_params_id_freq in E as ((o' & Ho' & Hf) & Hother).
    split.
    + intros k Hk. destruct (decide (k = j)) as [->|Hne].
      * exists o'. rewrite Hbefore by lia. done.
      * apply Hin. lia.
    + intros k Hk. rewrite Hbefore by lia. apply Hother. lia.
Qed.

(** After a successful logiclk_calc_params the output holds a [u32]
    frequency. *)
Lemma calc_params_freq d i d' :
  logiclk_calc_params d i = Some (0, d') → (i < 6)%nat →
  ∃ o', output d' !! i = Some o' ∧ 0 ≤ clkout_freq o' < 2 ^ 32.
Proof.
  unfold logiclk_calc_params. intros H Hi.
  destruct (output d !! i) as [o|]; simpl in H; [|discriminate].
  destruct (_ || _); [discriminate|].
  destruct (precise o).
  - destruct (logiclk_pll_input_mult_div d i) as [[r1 d1]|] eqn:Es;
      simpl in H; [|discriminate].
    destruct (Z.eqb_spec r1 0) as [->|Hr]; simpl in H;
      [|injection H as -> _; contradiction].
    destruct (logiclk_man_reg_params d1 i) as [d2|] eqn:Em; simpl in H;
      [|discriminate].
    destruct (recalc_outputs _ 0 d2) as [d3|] eqn:Eo; simpl in H;
      [|discriminate].
    injection H as <-.
    apply recalc_outputs_freq in Eo as (Hin & _). apply Hin.
    change (Z.to_nat LOGICLK_OUTPUTS) with 6%nat. lia.
  - destruct (logiclk_man_reg_params_id d i (id o)) as [d1|] eqn:Em;
      simpl in H; [|discriminate].
    injection H as <-.
    apply man_reg_params_id_freq in Em as (Hf & _). exact Hf.
Qed.

(** X22: When logiclk_round_rate returns a rate (not a negative code),
    logiclk_set_rate for that rate on the state it left recomputes
    nothing: the state stays as it is, and the result and the register
    writes are those of logiclk_hw_config on it. *)
Theorem round_then_set_rate (rd : nat → Z)
    (d d' : logiclk_data) (i : nat) (rate f : Z) :
  logiclk_round_rate d i rate = Some (f, d') →
  0 ≤ f → 32 ≤ BITS_PER_LONG → (i < 6)%nat →
  logiclk_set_rate rd d' i f
  = Some ((logiclk_hw_config rd d' true).1, d',
          (logiclk_hw_config rd d' true).2).
Proof.
  intros H Hf Hbits Hi. unfold logiclk_round_rate in H.
  destruct (logiclk_stack_params d i _) as [d1|]; simpl in H; [|discriminate].
  destruct (output d1 !! i) as [o|]; simpl in H; [|discriminate].
  destruct (logiclk_calc_params _ i) as [[ret d3]|] eqn:Ec; simpl in H;
    [|discriminate].
  destruct (Z.eqb_spec ret 0) as [->|Hret]; simpl in H.
  2:{ destruct (logiclk_stack_params d3 i _); simpl in H; [|discriminate].
      injection H as <- _. unfold EINVAL in Hf. lia. }
  destruct (calc_params_freq _ i d3 Ec Hi) as (o3 & Ho3 & Hu).
  rewrite Ho3 in H. simpl in H. injection H as <- <-.
  assert (Hlong : to_long (clkout_freq o3) = clkout_freq o3).
  { unfold to_long in *.
    assert (2 ^ 32 ≤ 2 ^ BITS_PER_LONG) by (apply Z.pow_le_mono_r; lia).
    destruct (Z.ltb_spec (clkout_freq o3) (2 ^ (BITS_PER_LONG - 1)));
      [reflexivity|lia]. }
  unfold logiclk_set_rate. rewrite Ho3. simpl.
  rewrite Hlong, Z.eqb_refl. simpl.
  destruct (logiclk_hw_config rd d3 true). reflexivity.
Qed.

(** * Recompute *)

(** X23: logiclk_recalc_rate on a device with a multiplier in 2..64 and a
    VCO input that fits 32 bits: the rate it returns and records is
    floor(f / cd), for the first divider cd in 1..128 that comes closest
    to the target, where the target is the recorded frequency or, when
    none is recorded, the frequency floor(f / divide) of the recorded
    divider.  In that last case the returned rate is the one of the
    recorded divider, and the divider left is the smallest with that
    rate.  The input stage is kept. *)
Theorem recalc_rate_closest (d : logiclk_data) (i : nat)
    (o : logiclk_output) (parent_rate : Z) :
  output d !! i = Some o → 0 ≤ id o ≤ 5 → length (man_regs d) = 21%nat →
  0 ≤ clk_freq (input d) < 2 ^ 32 → 2 ≤ clkfbout_mult (input d) ≤ 64 →
  0 < divclk_divide (input d) →
  0 ≤ clkout_freq o < 2 ^ 32 →
  (clkout_freq o = 0 → 1 ≤ clkout_divide o ≤ 128) →
  clk_freq (input d) * clkfbout_mult (input d) / divclk_divide (input d) < 2 ^ 32 →
  32 ≤ BITS_PER_LONG →
  let f := clk_freq (input d) * clkfbout_mult (input d)
           / divclk_divide (input d) in
  let target := if clkout_freq o =? 0 then f / clkout_divide o
                else clkout_freq o in
  ∃ cd d',
    logiclk_recalc_rate d i parent_rate = Some (f / cd, d')
    ∧ 1 ≤ cd ≤ 128
    ∧ (∀ o', 1 ≤ o' ≤ 128 →
         Z.abs (f / cd - target) ≤ Z.abs (f / o' - target)
         ∧ (o' < cd → Z.abs (f / cd - target) < Z.abs (f / o' - target)))
    ∧ (clkout_freq o = 0 → f / cd = f / clkout_divide o ∧ cd ≤ clkout_divide o)
    ∧ input d' = input d
    ∧ output d' = <[i := set_clkout_freq (f / cd) (set_clkout_divide cd o)]>
                    (output d).
Proof.
  intros Ho Hid Hlen Href Hm Hdiv Hfo Hdo Hf Hbits f target.
  assert (Hprod : 0 ≤ clk_freq (input d) * clkfbout_mult (input d) < 2 ^ 63)
    by nia.
  assert (Hf0 : 0 ≤ f) by (apply Z.div_pos; lia).
  assert (Ht : 0 ≤ target < 2 ^ 32).
  { subst target. destruct (Z.eqb_spec (clkout_freq o) 0) as [E|E]; [|lia].
    specialize (Hdo E). split; [apply Z.div_pos; lia|].
    apply Z.div_lt_upper_bound; nia. }
  set (d1 := set_output (<[i := set_clkout_freq target o]> (output d)) d).
  assert (Hi : (i < length (output d))%nat) by (eapply lookup_lt_Some, Ho).
  assert (Ho1 : output d1 !! i = Some (set_clkout_freq target o)).
  { subst d1. destruct d; simpl in *. apply list_lookup_insert_eq. exact Hi. }
  assert (Hin1 : input d1 = input d) by (subst d1; destruct d; reflexivity).
  assert (Hregs1 : man_regs d1 = man_regs d) by (subst d1; destruct d; reflexivity).
  assert (Hout1 : output d1 = <[i := set_clkout_freq target o]> (output d))
    by (subst d1; destruct d; reflexivity).
  assert (Hstep1 :
    (if clkout_freq o =? 0 then
       q ← div_u64 (wrap64 (clk_freq (input d) * clkfbout_mult (input d)))
             (divclk_divide (input d));
       freq ← div_u64 (wrap_ulong q) (clkout_divide o);
       Some (set_output (<[i := set_clkout_freq (wrap32 freq) o]> (output d)) d)
     else Some d) = Some d1).
  { subst target d1. destruct (Z.eqb_spec (clkout_freq o) 0) as [E|E].
    - specialize (Hdo E). unfold div_u64.
      destruct (Z.eqb_spec (divclk_divide (input d)) 0); [lia|]. simpl.
      destruct (Z.eqb_spec (clkout_divide o) 0); [lia|]. simpl.
      rewrite wrap64_id by lia. fold f.
      assert (2 ^ 32 ≤ 2 ^ BITS_PER_LONG) by (apply Z.pow_le_mono_r; lia).
      unfold wrap_ulong. rewrite (Z.mod_small f) by lia.
      rewrite wrap32_id; [reflexivity|].
      split; [apply Z.div_pos; lia|]. apply Z.div_lt_upper_bound; nia.
    - f_equal. symmetry. destruct d; unfold set_output; simpl in *. f_equal.
      apply list_insert_id. rewrite Ho. f_equal. destruct o; reflexivity. }
  destruct (man_reg_params_tables d1 i _ Ho1 ltac:(congruence) ltac:(rewrite Hin1; lia))
    as (_ & _ & d2 & _ & _ & Hrun2 & _).
  destruct (man_reg_params_inv d1 i d2 Hrun2) as (Hin2 & Hout2 & Hlen2 & _).
  assert (Ho2 : output d2 !! i = Some (set_clkout_freq target o))
    by (rewrite Hout2; exact Ho1).
  destruct (output_div_closest d2 i _ Ho2 ltac:(rewrite Hin2, Hin1; lia)
              ltac:(rewrite Hin2, Hin1; lia) ltac:(rewrite Hin2, Hin1; lia)
              ltac:(simpl; lia))
    as (cd & Ecd & Hcd & Hclose).
  rewrite Hin2, Hin1 in Hclose. simpl clkout_freq in Hclose. fold f in Hclose.
  destruct (man_reg_params_id_state d2 i _ (id o) Ho2
              ltac:(rewrite Hin2, Hin1; lia) ltac:(lia)
              ltac:(rewrite Hlen2, Hregs1; exact Hlen))
    as (cd' & lo & hi & d3 & Ecd' & _ & Erun & Hin3 & Hout3 & _).
  rewrite Ecd in Ecd'. injection Ecd' as <-.
  rewrite Hin2, Hin1 in Hout3. rewrite wrap64_id in Hout3 by lia.
  fold f in Hout3.
  assert (Hq : 0 ≤ f / cd ≤ f).
  { split; [apply Z.div_pos; lia|]. apply Z.div_le_upper_bound; nia. }
  rewrite wrap32_id in Hout3 by lia. simpl in Hout3.
  rewrite Hout2, Hout1, list_insert_insert_eq in Hout3.
  exists cd, d3. split; [|split; [exact Hcd|split; [exact Hclose|split]]].
  - unfold logiclk_recalc_rate. rewrite Ho. simpl.
    rewrite Hstep1. simpl. rewrite Hrun2. simpl.
    rewrite Erun. simpl. rewrite Hout3.
    rewrite list_lookup_insert_eq by exact Hi. reflexivity.
  - intros E. specialize (Hdo E).
    destruct (Hclose (clkout_divide o) Hdo) as [Hle Hlt].
    subst target. rewrite E in *. cbn [Z.eqb] in *.
    rewrite Z.sub_diag in Hle, Hlt. cbn [Z.abs] in Hle, Hlt.
    split; [lia|].
    destruct (Z.lt_ge_cases (clkout_divide o) cd) as [Hc|Hc]; [|lia].
    specialize (Hlt Hc). lia.
  - split; [congruence|]. rewrite Hout3. reflexivity.
Qed.

End Target.

(** * The statements at concrete devices *)

(** From here on [long] has 32 bits. *)

Arguments store {A} arr idx v.
Arguments Next {St R} s.
Arguments Return {St R} r.
Arguments Fault {St R}.
Arguments input_mult_div_loops : simpl never.
Arguments logiclk_pll_input_mult_div : simpl never.
Arguments logiclk_pll_output_div : simpl never.
Arguments logiclk_man_reg_params_id : simpl never.
Arguments logiclk_man_reg_params : simpl never.
Arguments logiclk_calc_params : simpl never.
Arguments logiclk_stack_params : simpl never.
Arguments logiclk_hw_config : simpl never.
Arguments recalc_outputs : simpl never.

Ltac sample_valid :=
  unfold input_node_valid; vm_compute; repeat split; congruence.


(** The shared registers then follow the duty of the output that was
    recomputed last: after the precise output was committed, recalc_rate
    on output 1 changes registers 13 and 14. *)
Lemma recalc_rate_shared_regs_follow_output :
  ∃ r d',
    logiclk_recalc_rate 32 device_800MHz_committed 1 0 = Some (r, d')
    ∧ man_regs device_800MHz_committed !! 13%nat = Some 0x41
    ∧ man_regs d' !! 13%nat = Some 0x2041
    ∧ man_regs device_800MHz_committed !! 14%nat = Some 0x42
    ∧ man_regs d' !! 14%nat = Some 0x81.
Proof.
  eexists _, _. split; [vm_compute; reflexivity|]. repeat split.
Qed.

Lemma pll_div_low_plus_high_witness :
  (1 ≤ 8 ≤ 128 ∧ 100 ≤ 50000 ≤ 99900)
  ∧ let f := logiclk_pll_div_fields 8 50000 in
    (no_count f = 0 ↔ 2 ≤ 8)
    ∧ (no_count f = 0 → low_time f + high_time f = 8).
Proof.
  split; [lia|]. apply (pll_div_low_plus_high 8 50000); lia.
Defined.

Lemma full_search_first_minimum_witness :
  ∃ o, output device_100MHz !! 0%nat = Some o
  ∧ 0 ≤ clk_freq (input device_100MHz) < 2 ^ 32
  ∧ 0 ≤ clkout_freq o < 2 ^ 32
  ∧ ∃ ret d',
      logiclk_pll_input_mult_div device_100MHz 0 = Some (ret, d')
      ∧ (ret = 0 ∨ ret = - EINVAL)
      ∧ (ret = - EINVAL ↔
           ∀ dv m, 1 ≤ dv ≤ 56 → 2 ≤ m ≤ 64 →
             ¬ (MMCM_VCO_FREQ_MIN ≤ vco (clk_freq (input device_100MHz)) dv m
                  ≤ MMCM_VCO_FREQ_MAX))
      ∧ (ret = 0 →
           ∃ dv m od,
             clkfbout_mult (input d') = m ∧ divclk_divide (input d') = dv
             ∧ (1 ≤ dv ≤ 56 ∧ 2 ≤ m ≤ 64 ∧ 1 ≤ od ≤ 128)
             ∧ vco_ok (clk_freq (input device_100MHz)) (dv, m, od)
             ∧ ∀ dv' m' od',
                 1 ≤ dv' ≤ 56 ∧ 2 ≤ m' ≤ 64 ∧ 1 ≤ od' ≤ 128 →
                 vco_ok (clk_freq (input device_100MHz)) (dv', m', od') →
                 freq_error (clk_freq (input device_100MHz)) (clkout_freq o)
                            (dv, m, od)
                   ≤ freq_error (clk_freq (input device_100MHz)) (clkout_freq o)
                                (dv', m', od')
                 ∧ (visited_before (dv', m', od') (dv, m, od) →
                      freq_error (clk_freq (input device_100MHz))
                                 (clkout_freq o) (dv, m, od)
                        < freq_error (clk_freq (input device_100MHz))
                                     (clkout_freq o) (dv', m', od'))).
Proof.
  eexists. split; [reflexivity|]. split; [simpl; lia|]. split; [simpl; lia|].
  apply (full_search_first_minimum device_100MHz 0 _ eq_refl);
    simpl; lia.
Defined.

Lemma full_search_vco_invariant_witness :
  ∃ o d', output device_100MHz !! 0%nat = Some o
  ∧ 0 ≤ clk_freq (input device_100MHz) < 2 ^ 32
  ∧ 0 ≤ clkout_freq o < 2 ^ 32
  ∧ logiclk_pll_input_mult_div device_100MHz 0 = Some (0, d')
  ∧ 2 ≤ clkfbout_mult (input d') ≤ 64
  ∧ 1 ≤ divclk_divide (input d') ≤ 56
  ∧ MMCM_VCO_FREQ_MIN
      ≤ clk_freq (input d') * clkfbout_mult (input d') / divclk_divide (input d')
      ≤ MMCM_VCO_FREQ_MAX.
Proof.
  eexists _, _. split; [reflexivity|]. split; [simpl; lia|].
  split; [simpl; lia|]. split; [vm_compute; reflexivity|].
  eapply (full_search_vco_invariant device_100MHz _ 0);
    [reflexivity|simpl; lia|simpl; lia|vm_compute; reflexivity].
Defined.

Lemma output_div_in_range_witness :
  ∃ o, output device_100MHz !! 2%nat = Some o
  ∧ divclk_divide (input device_100MHz) ≠ 0
  ∧ logiclk_pll_output_div device_100MHz 2 = Some 128
  ∧ (∀ f, output_div_body f (clkout_freq o) 1 (0, U64_MAX) = Return 1
        ∨ ∃ e, e < U64_MAX
               ∧ output_div_body f (clkout_freq o) 1 (0, U64_MAX) = Next (1, e))
  ∧ (∀ r, logiclk_pll_output_div device_100MHz 2 = Some r → 1 ≤ r ≤ 128)
  ∧ (divclk_divide (input device_100MHz) ≠ 0 →
       ∃ r, logiclk_pll_output_div device_100MHz 2 = Some r ∧ 1 ≤ r ≤ 128).
Proof.
  eexists. split; [reflexivity|]. split; [discriminate|].
  split; [vm_compute; reflexivity|].
  apply (output_div_in_range device_100MHz 2). reflexivity.
Defined.


Lemma round_fraction_half_up_witness :
  (0 ≤ 1300 ∧ 0 ≤ 1 ≤ 9 ∧ 1300 + 2 ^ (9 - 1) < 2 ^ 32)
  ∧ logiclk_round_fraction 1300 1 / 2 ^ (9 - 1 + 1)
    = (1300 + 2 ^ (9 - 1)) / 2 ^ (9 - 1 + 1)
  ∧ Z.testbit (logiclk_round_fraction 1300 1) (9 - 1) = false.
Proof.
  split; [simpl; lia|]. apply (round_fraction_half_up 1300 1); simpl; lia.
Defined.

Lemma pll_div_half_cycles_witness :
  (2 ≤ 5 ≤ 128 ∧ 100 ≤ 50000 ≤ 99900)
  ∧ let h := (50000 * 1024 / 100000 * 5 + 256) / 512 in
    let f := logiclk_pll_div_fields 5 50000 in
    (h < 2 ∨ h = 256 → high_time f = 1 ∧ edge f = 0)
    ∧ (2 ≤ h < 256 → h / 2 = 5 → high_time f = 5 - 1 ∧ edge f = 1)
    ∧ (2 ≤ h < 256 → h / 2 < 5 → high_time f = h / 2 ∧ edge f = h mod 2)
    ∧ low_time f = 5 - high_time f.
Proof.
  split; [lia|]. apply (pll_div_half_cycles 5 50000); lia.
Defined.

Lemma pll_phase_eighths_witness :
  (32 ≤ 32 ∧ 1 ≤ 8 ≤ 128 ∧ - MMCM_PHASE_MAX ≤ -90000 ≤ MMCM_PHASE_MAX)
  ∧ let turn := if -90000 <? 0 then -90000 + MMCM_PHASE_MAX else -90000 in
    let cycles := turn * 1024 / 1000 * 8 / 360 in
    let w := logiclk_pll_phase 32 8 (-90000) in
    logiclk_get_bits w 5 0 = ((cycles + 64) / 1024) mod 64
    ∧ logiclk_get_bits w 8 6 = ((cycles + 64) / 128) mod 8
    ∧ logiclk_get_bits w 5 0 * 8 + logiclk_get_bits w 8 6
      = ((cycles + 64) / 128) mod 512.
Proof.
  split; [unfold MMCM_PHASE_MAX; lia|].
  apply (pll_phase_eighths 32 8 (-90000)); unfold MMCM_PHASE_MAX; lia.
Defined.

Lemma stack_push_pop_witness :
  ∃ o d1 d2,
    output device_800MHz_committed !! 1%nat = Some o
    ∧ logiclk_stack_params device_800MHz_committed 1 LOGICLK_STACK_PUSH
      = Some d1
    ∧ d2 = set_man_regs (replicate 21 7)
             (set_input (with_mult_div (input d1) 0 0) d1)
    ∧ ∃ d3, logiclk_stack_params d2 1 LOGICLK_STACK_POP = Some d3
        ∧ output d3 !! 1%nat = Some o
        ∧ man_regs d3 = man_regs device_800MHz_committed
        ∧ input d3 = input d2
        ∧ ∀ j, j ≠ 1%nat → output d3 !! j = output d2 !! j.
Proof.
  eexists _, _, _. split; [reflexivity|]. split; [reflexivity|].
  split; [reflexivity|].
  eapply (stack_push_pop device_800MHz_committed _ _ 1); reflexivity.
Defined.

Lemma man_reg_params_id_post_witness :
  ∃ o, output device_800MHz_committed !! 1%nat = Some o
  ∧ divclk_divide (input device_800MHz_committed) ≠ 0 ∧ 0 ≤ 1 ≤ 9
  ∧ length (man_regs device_800MHz_committed) = 21%nat
  ∧ ∃ cd lo hi d',
      logiclk_pll_output_div device_800MHz_committed 1 = Some cd
      ∧ 1 ≤ cd ≤ 128
      ∧ logiclk_man_reg_params_id 32 device_800MHz_committed 1 1 = Some d'
      ∧ input d' = input device_800MHz_committed
      ∧ output d'
        = <[1%nat := {| clkout_freq :=
                      wrap32 (wrap64 (clk_freq (input device_800MHz_committed)
                                      * clkfbout_mult (input device_800MHz_committed))
                              / divclk_divide (input device_800MHz_committed) / cd);
                    clkout_divide := cd; clkout_duty := clkout_duty o;
                    clkout_phase := clkout_phase o; id := id o;
                    precise := precise o |}]> (output device_800MHz_committed)
      ∧ man_regs d' !! Z.to_nat (1 + 2 * 1) = Some lo
      ∧ man_regs d' !! Z.to_nat (2 + 2 * 1) = Some hi
      ∧ 0 ≤ lo < 2 ^ 16 ∧ 0 ≤ hi < 2 ^ 16
      ∧ lo + 2 ^ 16 * hi
        = logiclk_pll_count 32 cd (clkout_duty o) (to_s32 (clkout_phase o))
      ∧ ∀ k : nat, k ≠ Z.to_nat (1 + 2 * 1) → k ≠ Z.to_nat (2 + 2 * 1) →
          man_regs d' !! k = man_regs device_800MHz_committed !! k.
Proof.
  eexists. split; [reflexivity|]. split; [discriminate|]. split; [lia|].
  split; [reflexivity|].
  apply (man_reg_params_id_post 32 device_800MHz_committed 1 _ 1);
    [reflexivity|discriminate|lia|reflexivity].
Defined.

Lemma calc_freq_after_recompute_witness :
  ∃ o d', output device_800MHz_committed !! 1%nat = Some o
  ∧ 0 < divclk_divide (input device_800MHz_committed) < 2 ^ 24
  ∧ logiclk_man_reg_params_id 32 device_800MHz_committed 1 1 = Some d'
  ∧ ∃ o', output d' !! 1%nat = Some o'
      ∧ logiclk_calc_freq d' 1 = Some (clkout_freq o').
Proof.
  eexists _, _. split; [reflexivity|]. split; [simpl; lia|].
  split; [vm_compute; reflexivity|].
  eapply (calc_freq_after_recompute 32 device_800MHz_committed _ 1 _ 1);
    [reflexivity|simpl; lia|vm_compute; reflexivity].
Defined.

Lemma lock_regs_injective_witness :
  (0 ≤ 0x31BE8FA401 < 2 ^ 40 ∧ 0 ≤ 0x31BE8FA401 < 2 ^ 40
   ∧ lock_regs 0x31BE8FA401 = lock_regs 0x31BE8FA401)
  ∧ 0x31BE8FA401 = 0x31BE8FA401.
Proof.
  split; [repeat split; lia|].
  apply (lock_regs_injective 0x31BE8FA401 0x31BE8FA401); [lia|lia|reflexivity].
Defined.

Lemma filter_regs_injective_witness :
  (0 ≤ 0x3FC < 2 ^ 10 ∧ 0 ≤ 0x3FC < 2 ^ 10
   ∧ filter_regs 0x3FC = filter_regs 0x3FC)
  ∧ 0x3FC = 0x3FC.
Proof.
  split; [repeat split; lia|].
  apply (filter_regs_injective 0x3FC 0x3FC); [lia|lia|reflexivity].
Defined.

Lemma hw_config_outcome_witness :
  length (man_regs device_800MHz_committed) = 21%nat
  ∧ ∃ ret w,
      logiclk_hw_config (λ k, if (k <? 3)%nat then 0 else 1)
        device_800MHz_committed true = (ret, w)
      ∧ (ret = 0 ∨ ret = - EIO)
      ∧ (ret = - EIO ↔
           ∀ j : nat, (j ≤ 50)%nat →
             Z.land ((λ k, if (k <? 3)%nat then 0 else 1) j) 1 = 0)
      ∧ (∀ (i : nat) v, man_regs device_800MHz_committed !! i = Some v →
           w !! i = Some (4 * (Z.of_nat i + 3), v))
      ∧ (ret = - EIO → length w = 21%nat)
      ∧ (ret = 0 → length w = 22%nat ∧ w !! 21%nat = Some (4, 3)).
Proof.
  split; [reflexivity|].
  apply (hw_config_outcome (λ k, if (k <? 3)%nat then 0 else 1)
           device_800MHz_committed).
  reflexivity.
Defined.

Lemma set_rate_writes_witness :
  ∃ r d' w,
    logiclk_set_rate 32 (λ _, 1) device_800MHz_committed 1 100000000
      = Some (r, d', w)
    ∧ length (man_regs device_800MHz_committed) = 21%nat
    ∧ ((r = - EINVAL ∧ w = [])
       ∨ ((r = 0 ∨ r = - EIO)
          ∧ logiclk_hw_config (λ _, 1) d' true = (r, w)
          ∧ ∀ (k : nat) v, man_regs d' !! k = Some v →
              w !! k = Some (4 * (Z.of_nat k + 3), v))).
Proof.
  eexists _, _, _. split; [vm_compute; reflexivity|]. split; [reflexivity|].
  eapply (set_rate_writes 32 (λ _, 1) device_800MHz_committed _ 1 100000000);
    [vm_compute; reflexivity|reflexivity].
Defined.

Lemma invalid_rate_rolled_back_witness :
  ∃ o, output device_800MHz_committed !! 0%nat = Some o
  ∧ (wrap32 900000000 < MMCM_OUTPUT_FREQ_MIN
     ∨ MMCM_OUTPUT_FREQ_MAX < wrap32 900000000)
  ∧ logiclk_round_rate 32 device_800MHz_committed 0 900000000
    = Some (- EINVAL, rolled_back device_800MHz_committed o
                        (input device_800MHz_committed))
  ∧ (900000000 ≠ clkout_freq o →
       logiclk_set_rate 32 (λ _, 1) device_800MHz_committed 0 900000000
       = Some (- EINVAL, rolled_back device_800MHz_committed o
                           (input device_800MHz_committed), [])).
Proof.
  eexists. split; [reflexivity|].
  split; [right; vm_compute; reflexivity|].
  apply (invalid_rate_rolled_back 32 (λ _, 1) device_800MHz_committed 0);
    [reflexivity|right; vm_compute; reflexivity].
Defined.

Lemma output_div_first_closest_witness :
  ∃ o, output device_800MHz_committed !! 1%nat = Some o
  ∧ 0 ≤ clk_freq (input device_800MHz_committed) < 2 ^ 32
  ∧ 0 ≤ clkfbout_mult (input device_800MHz_committed) < 2 ^ 31
  ∧ 0 < divclk_divide (input device_800MHz_committed)
  ∧ 0 ≤ clkout_freq o < 2 ^ 32
  ∧ let f := clk_freq (input device_800MHz_committed)
             * clkfbout_mult (input device_800MHz_committed)
             / divclk_divide (input device_800MHz_committed) in
    ∃ cd, logiclk_pll_output_div device_800MHz_committed 1 = Some cd
      ∧ 1 ≤ cd ≤ 128
      ∧ ∀ o', 1 ≤ o' ≤ 128 →
          Z.abs (f / cd - clkout_freq o) ≤ Z.abs (f / o' - clkout_freq o)
          ∧ (o' < cd →
               Z.abs (f / cd - clkout_freq o)
                 < Z.abs (f / o' - clkout_freq o)).
Proof.
  eexists. split; [reflexivity|]. split; [simpl; lia|]. split; [simpl; lia|].
  split; [simpl; lia|]. split; [simpl; lia|].
  apply (output_div_first_closest device_800MHz_committed 1);
    [reflexivity|simpl; lia..].
Defined.

Lemma calc_params_precise_witness :
  ∃ o, output device_800MHz !! 0%nat = Some o ∧ precise o = true
  ∧ MMCM_OUTPUT_FREQ_MIN ≤ clkout_freq o ≤ MMCM_OUTPUT_FREQ_MAX
  ∧ MMCM_INPUT_FREQ_MIN ≤ clk_freq (input device_800MHz) ≤ MMCM_INPUT_FREQ_MAX
  ∧ length (output device_800MHz) = 6%nat
  ∧ length (man_regs device_800MHz) = 21%nat
  ∧ ∃ dv m od d',
      logiclk_calc_params 32 device_800MHz 0 = Some (0, d')
      ∧ first_best (clk_freq (input device_800MHz)) (clkout_freq o)
                   enumeration (dv, m, od)
      ∧ input d' = with_mult_div (input device_800MHz) m dv
      ∧ man_regs d' !! 0%nat = Some 0xFFFF
      ∧ ∀ k, (k < 6)%nat →
          output_recomputed 32
            (set_input (with_mult_div (input device_800MHz) m dv) device_800MHz)
            d' k.
Proof.
  eexists. split; [reflexivity|]. split; [reflexivity|].
  split; [vm_compute; split; discriminate|].
  split; [vm_compute; split; discriminate|].
  split; [reflexivity|]. split; [reflexivity|].
  apply (calc_params_precise 32 device_800MHz 0); try reflexivity;
    try (vm_compute; split; discriminate).
  intros k ok Hk.
  do 6 (destruct k as [|k]; [injection Hk as <-; reflexivity|]).
  discriminate.
Defined.

Lemma round_rate_nonprecise_closest_witness :
  ∃ o, output device_800MHz_committed !! 1%nat = Some o
  ∧ precise o = false ∧ 0 ≤ id o ≤ 5
  ∧ let f := clk_freq (input device_800MHz_committed)
             * clkfbout_mult (input device_800MHz_committed)
             / divclk_divide (input device_800MHz_committed) in
    ∃ cd d',
      logiclk_round_rate 32 device_800MHz_committed 1 100000000
        = Some (f / cd, d')
      ∧ 1 ≤ cd ≤ 128
      ∧ (∀ o', 1 ≤ o' ≤ 128 →
           Z.abs (f / cd - 100000000) ≤ Z.abs (f / o' - 100000000)
           ∧ (o' < cd →
                Z.abs (f / cd - 100000000) < Z.abs (f / o' - 100000000)))
      ∧ ∃ o3, output d' !! 1%nat = Some o3
          ∧ clkout_freq o3 = f / cd ∧ clkout_divide o3 = cd.
Proof.
  eexists. split; [reflexivity|]. split; [reflexivity|]. split; [simpl; lia|].
  apply (round_rate_nonprecise_closest 32 device_800MHz_committed 1 _
           100000000 eq_refl); try reflexivity; try (simpl; lia);
    vm_compute; split; discriminate.
Defined.

Lemma round_rate_precise_closest_witness :
  ∃ o, output device_800MHz !! 0%nat = Some o ∧ precise o = true
  ∧ MMCM_OUTPUT_FREQ_MIN ≤ 9375000 ≤ MMCM_OUTPUT_FREQ_MAX
  ∧ ∃ dv m cd d',
      logiclk_round_rate 32 device_800MHz 0 9375000
        = Some (vco (clk_freq (input device_800MHz)) dv m / cd, d')
      ∧ (1 ≤ dv ≤ 56 ∧ 2 ≤ m ≤ 64 ∧ 1 ≤ cd ≤ 128)
      ∧ vco_ok (clk_freq (input device_800MHz)) (dv, m, cd)
      ∧ input d' = with_mult_div (input device_800MHz) m dv
      ∧ ∀ dv' m' od',
          1 ≤ dv' ≤ 56 ∧ 2 ≤ m' ≤ 64 ∧ 1 ≤ od' ≤ 128 →
          vco_ok (clk_freq (input device_800MHz)) (dv', m', od') →
          freq_error (clk_freq (input device_800MHz)) 9375000 (dv, m, cd)
            ≤ freq_error (clk_freq (input device_800MHz)) 9375000
                         (dv', m', od').
Proof.
  eexists. split; [reflexivity|]. split; [reflexivity|].
  split; [vm_compute; split; discriminate|].
  apply (round_rate_precise_closest 32 device_800MHz 0 _ 9375000 eq_refl);
    try reflexivity; try (vm_compute; split; discriminate); try lia.
  intros k ok Hk.
  do 6 (destruct k as [|k]; [injection Hk as <-; reflexivity|]).
  discriminate.
Defined.


Lemma get_of_config_accepts_witness :
  length (output zeroed_data) = 6%nat
  ∧ ∃ ret d' sf',
      logiclk_get_of_config sample_node zeroed_data false = Some (ret, d', sf')
      ∧ (ret = 0 ↔ input_node_valid sample_node)
      ∧ (ret ≠ 0 →
         sf' = false ∧ output d' = output zeroed_data
         ∧ man_regs d' = man_regs zeroed_data).
Proof.
  split; [reflexivity|].
  apply (get_of_config_accepts sample_node zeroed_data false). reflexivity.
Defined.

Lemma get_of_config_loaded_witness :
  input_node_valid sample_node ∧ length (output zeroed_data) = 6%nat
  ∧ ∃ d' sf',
      logiclk_get_of_config sample_node zeroed_data false = Some (0, d', sf')
      ∧ input d' = loaded_input sample_node (input zeroed_data)
      ∧ MMCM_INPUT_FREQ_MIN ≤ clk_freq (input d') ≤ MMCM_INPUT_FREQ_MAX
      ∧ man_regs d' = man_regs zeroed_data
      ∧ length (output d') = 6%nat
      ∧ ids_are_indices d'
      ∧ (∀ k o, output d' !! k = Some o →
           clkout_freq o = 0
           ∨ MMCM_OUTPUT_FREQ_MIN ≤ clkout_freq o ≤ MMCM_OUTPUT_FREQ_MAX)
      ∧ (sf' = true ↔
           false = true ∨ ∃ k o, output d' !! k = Some o ∧ clkout_freq o ≠ 0).
Proof.
  split; [sample_valid|]. split; [reflexivity|].
  apply (get_of_config_loaded sample_node zeroed_data false);
    [sample_valid | reflexivity].
Defined.

Lemma get_of_config_one_precise_witness :
  ∃ d' sf',
    logiclk_get_of_config sample_node zeroed_data false = Some (0, d', sf')
    ∧ ∀ j o, output d' !! j = Some o → (precise o = true ↔ j = 0%nat).
Proof.
  refine (get_of_config_one_precise sample_node zeroed_data false 10 0 _
            _ eq_refl _ eq_refl _ eq_refl eq_refl).
  - sample_valid.
  - intros j o Hj.
    do 6 (destruct j as [|j]; [injection Hj as <-; reflexivity|]).
    discriminate.
  - refine (bool_decide_unpack _ _). vm_compute. exact I.
Defined.

Lemma get_of_config_missing_divide_witness :
  ∃ d' sf',
    logiclk_get_of_config sample_node zeroed_data false = Some (0, d', sf')
    ∧ logiclk_calc_freq d' 2 = None
    ∧ (of_ret {| of_ret := - EINVAL; of_val := 0 |} ≠ 0 → 0 = 0 →
       ∀ parent_rate, logiclk_recalc_rate 32 d' 2 parent_rate = None).
Proof.
  refine (get_of_config_missing_divide 32 sample_node zeroed_data false 2
            _ _ _ eq_refl eq_refl _ eq_refl eq_refl).
  - sample_valid.
  - vm_compute. discriminate.
Defined.

Lemma man_reg_params_defined_witness :
  (is_Some (logiclk_man_reg_params 32 device_100MHz 1)
   ↔ 2 ≤ clkfbout_mult (input device_100MHz) ≤ 65).
Proof.
  refine (proj1 (man_reg_params_defined 32 device_100MHz 1 _ eq_refl eq_refl _)).
  vm_compute. split; congruence.
Defined.

Lemma round_then_set_rate_witness :
  ∃ f d',
    logiclk_round_rate 32 device_100MHz 1 50000000 = Some (f, d')
    ∧ 0 ≤ f
    ∧ logiclk_set_rate 32 (λ _, 1) d' 1 f
      = Some ((logiclk_hw_config (λ _, 1) d' true).1, d',
              (logiclk_hw_config (λ _, 1) d' true).2).
Proof.
  eexists _, _. split; [vm_compute; reflexivity|].
  split; [vm_compute; discriminate|].
  eapply (round_then_set_rate 32 (λ _, 1) device_100MHz _ 1 50000000);
    [vm_compute; reflexivity|vm_compute; discriminate|lia|lia].
Defined.

Lemma recalc_rate_closest_witness :
  ∃ cd d',
    logiclk_recalc_rate 32 device_100MHz 1 0 = Some (800000000 / cd, d')
    ∧ 1 ≤ cd ≤ 128
    ∧ (0 = 0 → 800000000 / cd = 800000000 / 8 ∧ cd ≤ 8).
Proof.
  destruct (recalc_rate_closest 32 device_100MHz 1 _ 0 eq_refl)
    as (cd & d' & H1 & H2 & _ & H3 & _);
    try (vm_compute; split; congruence); try (vm_compute; congruence);
    try lia.
  exists cd, d'. split; [exact H1|]. split; [exact H2|]. exact H3.
Defined.
